(** * exam-auto-quiz: the question-extraction edge function and the exam scorer

    A shallow embedding of
    - [supabase/functions/extract-questions/index.ts]: the [serve] handler of
      the two-stage variant (OCR, then structuring) and its two helpers
      [extractWithGemini] and [processPdfWithFilestack]; the single-stage
      variant in the same file shares its request guard, chunked encoder,
      MIME derivation, status classification and output parsing,
    - the [processFile] callback of the upload page, and
    - the [handleSubmit] callback of [src/pages/Exam.tsx],
    together with the properties the specification states about them.

    JavaScript strings are sequences of UTF-16 code units and are modelled as
    [list N]; a [Uint8Array] is a [list byte]; every outbound call (storage
    download, Filestack, the AI gateway) is answered by an explicit [World]
    and recorded in the list of [Event]s of the invocation.  The built-ins
    the code relies on ([btoa], [atob], [JSON.parse], [String.prototype.trim],
    [replace] with a global regular expression, property reads, truthiness)
    are defined here as functions and run on concrete inputs. *)

From Stdlib Require Import NArith ZArith List String Ascii Lia Bool DecimalString DecimalPos Sorted.
From Stdlib.Strings Require Import Byte.
From stdpp Require Import base list gmap.
From Equations Require Import Equations.
Import ListNotations.

Set Implicit Arguments.
Unset Strict Implicit.

(** ** JavaScript strings *)

Module JsString.

(** A string value: its UTF-16 code units. *)
Definition jsstring := list N.

(** A literal of the source, written in ASCII. *)
Definition js (s : string) : jsstring :=
  List.map N_of_ascii (list_ascii_of_string s).

Fixpoint eqb (s t : jsstring) : bool :=
  match s, t with
  | [], [] => true
  | c :: s', d :: t' => N.eqb c d && eqb s' t'
  | _, _ => false
  end.

(** [s.startsWith(p)], also the test a regular expression without
    alternatives makes at one position. *)
Fixpoint startsWith (p s : jsstring) : bool :=
  match p, s with
  | [], _ => true
  | c :: p', d :: s' => N.eqb c d && startsWith p' s'
  | _ :: _, [] => false
  end.

(** [s.endsWith(p)]: the last [p.length] code units of [s] are [p]. *)
Definition endsWith (s p : jsstring) : bool :=
  Nat.leb (length p) (length s) && eqb (skipn (length s - length p) s) p.

(** [String.prototype.toLowerCase] on the Basic Latin block.  The code units
    outside [A-Z] are left alone: the full Unicode mapping sends no character
    outside Basic Latin to one of the code units of the three extensions the
    handler looks for, so the suffix tests do not see the difference. *)
Definition lower_unit (c : N) : N :=
  if (65 <=? c)%N && (c <=? 90)%N then (c + 32)%N else c.

Definition toLowerCase (s : jsstring) : jsstring := List.map lower_unit s.

(** The code units [String.prototype.trim] removes: WhiteSpace and
    LineTerminator of ECMA-262. *)
Definition is_js_space (c : N) : bool :=
  existsb (N.eqb c)
    [9; 10; 11; 12; 13; 32; 160; 5760; 8232; 8233; 8239; 8287; 12288; 65279]%N
  || ((8192 <=? c)%N && (c <=? 8202)%N).

Fixpoint trimStart (s : jsstring) : jsstring :=
  match s with
  | c :: s' => if is_js_space c then trimStart s' else s
  | [] => []
  end.

Definition trimEnd (s : jsstring) : jsstring := rev (trimStart (rev s)).

Definition trim (s : jsstring) : jsstring := trimEnd (trimStart s).

End JsString.
Export JsString.

(** ** Thrown values *)

(** Everything the handler can throw is an [Error] instance; only its
    [message] is ever read (in the outer [catch]).  The text of the messages
    the engine itself produces is engine-defined and kept symbolic. *)
Inductive Exn :=
| Error (message : jsstring)             (* [throw new Error(message)] *)
| TypeError (what : jsstring)            (* property of null/undefined, not a function *)
| SyntaxError (what : jsstring)          (* [JSON.parse], [Response.json] *)
| InvalidCharacterError (what : jsstring) (* [btoa], [atob] *)
| FetchRejected (reason : jsstring).     (* the promise of [fetch] rejected *)

Definition message (e : Exn) : jsstring :=
  match e with
  | Error m | TypeError m | SyntaxError m | InvalidCharacterError m
  | FetchRejected m => m
  end.

Inductive result (A : Type) :=
| Ok (a : A)
| Throw (e : Exn).
Arguments Ok {A} a.
Arguments Throw {A} e.

(** ** Base64 *)

Module Base64.

#[local] Open Scope N_scope.

Definition alphabet : jsstring :=
  js "ABCDEFGHIJKLMNOPQRSTUVWXYZabcdefghijklmnopqrstuvwxyz0123456789+/".

Definition pad : N := 61.

Definition digit (i : N) : N := List.nth (N.to_nat i) alphabet pad.

(** The encoding proper: three octets give four digits, one or two trailing
    octets are padded with [=].  For an octet [a], [a / 4] is [a >> 2] and
    [a mod 4] is [a & 3]. *)
Fixpoint encode (s : list N) : jsstring :=
  match s with
  | [] => []
  | [a] => [digit (a / 4); digit ((a mod 4) * 16); pad; pad]
  | [a; b] =>
      [digit (a / 4); digit ((a mod 4) * 16 + b / 16);
       digit ((b mod 16) * 4); pad]
  | a :: b :: c :: rest =>
      digit (a / 4)
      :: digit ((a mod 4) * 16 + b / 16)
      :: digit ((b mod 16) * 4 + c / 64)
      :: digit (c mod 64)
      :: encode rest
  end%N.

(** [btoa(s)]: every code unit must be a Latin-1 octet. *)
Definition btoa (s : jsstring) : result jsstring :=
  if forallb (fun c => c <=? 255) s then Ok (encode s)
  else Throw (InvalidCharacterError (js "btoa: character out of range")).

(** The value of a base64 digit. *)
Definition digit_value (c : N) : option N :=
  if (65 <=? c) && (c <=? 90) then Some (c - 65)
  else if (97 <=? c) && (c <=? 122) then Some (c - 71)
  else if (48 <=? c) && (c <=? 57) then Some (c + 4)
  else if c =? 43 then Some 62
  else if c =? 47 then Some 63
  else None.

Fixpoint digit_values (s : jsstring) : option (list N) :=
  match s with
  | [] => Some []
  | c :: rest =>
      match digit_value c, digit_values rest with
      | Some d, Some ds => Some (d :: ds)
      | _, _ => None
      end
  end.

(** Four digits give three octets; two or three trailing digits give one or
    two, the bits left over are dropped. *)
Fixpoint decode (ds : list N) : list N :=
  match ds with
  | d0 :: d1 :: d2 :: d3 :: rest =>
      (d0 * 4 + d1 / 16) :: ((d1 mod 16) * 16 + d2 / 4)
      :: ((d2 mod 4) * 64 + d3) :: decode rest
  | [d0; d1; d2] => [d0 * 4 + d1 / 16; (d1 mod 16) * 16 + d2 / 4]
  | [d0; d1] => [d0 * 4 + d1 / 16]
  | _ => []
  end%N.

Definition is_ascii_ws (c : N) : bool := existsb (N.eqb c) [9; 10; 12; 13; 32].

(** When the length is a multiple of four, one or two trailing [=] go. *)
Definition strip_padding (d : jsstring) : jsstring :=
  if (length d mod 4 =? 0)%nat then
    match rev d with
    | x :: r =>
        if x =? pad then
          match r with
          | y :: r' => if y =? pad then rev r' else rev r
          | [] => rev r
          end
        else d
    | [] => d
    end
  else d.

(** [atob(data)], the forgiving-base64 decoding of the HTML standard. *)
Definition atob (data : jsstring) : result jsstring :=
  let d := strip_padding (List.filter (fun c => negb (is_ascii_ws c)) data) in
  if (length d mod 4 =? 1)%nat
  then Throw (InvalidCharacterError (js "atob: not correctly encoded"))
  else match digit_values d with
       | Some ds => Ok (decode ds)
       | None => Throw (InvalidCharacterError (js "atob: not correctly encoded"))
       end.

End Base64.
Export Base64.

(** ** The chunked encoder of the handler *)

(** [String.fromCharCode(...chunk)] for a chunk of a [Uint8Array]. *)
Definition fromCharCode (chunk : list byte) : jsstring :=
  List.map Byte.to_N chunk.

(** [uint8Array.subarray(i, j)] for [0 <= i <= j]; both ends are clamped to
    the length. *)
Definition subarray (a : list byte) (i j : nat) : list byte :=
  firstn (j - i) (skipn i a).

(** The loop
    [for (let i = 0; i < uint8Array.length; i += chunkSize)
       binaryString += String.fromCharCode(...uint8Array.subarray(i, i + chunkSize))]
    entered with the given [i] and [binaryString].  The chunk size is a
    [positive]: with a step of zero the loop of the source would not end. *)
Equations? chunk_loop (chunkSize : positive) (uint8Array : list byte) (i : nat)
    (binaryString : jsstring) : jsstring by wf (length uint8Array - i) lt :=
  chunk_loop chunkSize uint8Array i binaryString
    with lt_dec i (length uint8Array) := {
    | left _ =>
        chunk_loop chunkSize uint8Array (i + Pos.to_nat chunkSize)
          (binaryString
             ++ fromCharCode (subarray uint8Array i (i + Pos.to_nat chunkSize)));
    | right _ => binaryString }.
Proof. lia. Qed.

Definition chunkSize : positive := 8192.

(** [base64] as the handler computes it (lines 149-156). *)
Definition chunked_base64 (uint8Array : list byte) : result jsstring :=
  btoa (chunk_loop chunkSize uint8Array 0 []).

(** The encoding of the whole array in one call,
    [btoa(String.fromCharCode(...uint8Array))]. *)
Definition whole_base64 (uint8Array : list byte) : result jsstring :=
  btoa (fromCharCode uint8Array).


(** ** JSON values and [JSON.parse] *)

Module JSON.

(** A parsed JSON text.  A number is kept as its lexeme and an object as its
    members in source order, duplicates included; what JavaScript can see of
    the value [JSON.parse] builds is defined on top of that: the double a
    lexeme denotes ([nearest_double], [number_is_zero], [number_to_string]),
    the last member under a key ([lookup_member]), the own properties in
    their order ([own_properties]). *)
#[warnings="-register-all"] Inductive json :=
| JNull
| JBool (b : bool)
| JNumber (lexeme : jsstring)
| JString (s : jsstring)
| JArray (elems : list json)
| JObject (members : list (jsstring * json)).

Inductive token :=
| TLBrace | TRBrace | TLBracket | TRBracket | TColon | TComma
| TString (s : jsstring)
| TNumber (lexeme : jsstring)
| TTrue | TFalse | TNull.

(** *** The lexer: one code unit at a time *)

(** Where the lexer stands inside a number (RFC 8259, section 6). *)
Inductive num_state :=
| NMinus | NZero | NInt | NDot | NFrac | NExp | NExpSign | NExpDigits.

Inductive lex_state :=
| LStart
| LString (acc : jsstring)                      (* units read, latest first *)
| LEscape (acc : jsstring)                      (* after a backslash *)
| LUnicode (more : nat) (code : N) (acc : jsstring) (* inside \uXXXX *)
| LNumber (st : num_state) (acc : jsstring)
| LLiteral (rest : jsstring) (t : token).      (* inside true, false, null *)

Definition ch (a : ascii) : N := N_of_ascii a.
Definition dquote : N := 34.
Definition backslash : N := 92.

Definition is_json_ws (c : N) : bool :=
  existsb (N.eqb c) [32; 9; 10; 13]%N.

Definition is_digit (c : N) : bool := (48 <=? c)%N && (c <=? 57)%N.
Definition is_digit19 (c : N) : bool := (49 <=? c)%N && (c <=? 57)%N.

Definition hex_value (c : N) : option N :=
  if is_digit c then Some (c - 48)%N
  else if (65 <=? c)%N && (c <=? 70)%N then Some (c - 55)%N
  else if (97 <=? c)%N && (c <=? 102)%N then Some (c - 87)%N
  else None.

Definition is_e (c : N) : bool := N.eqb c (ch "e") || N.eqb c (ch "E").
Definition is_sign (c : N) : bool := N.eqb c (ch "+") || N.eqb c (ch "-").

(** A number may end in these states. *)
Definition num_accepting (st : num_state) : bool :=
  match st with
  | NZero | NInt | NFrac | NExpDigits => true
  | NMinus | NDot | NExp | NExpSign => false
  end.

(** The next state inside a number; [None] when [c] does not continue it. *)
Definition num_step (st : num_state) (c : N) : option num_state :=
  match st with
  | NMinus =>
      if N.eqb c (ch "0") then Some NZero
      else if is_digit19 c then Some NInt else None
  | NZero =>
      if N.eqb c (ch ".") then Some NDot
      else if is_e c then Some NExp else None
  | NInt =>
      if is_digit c then Some NInt
      else if N.eqb c (ch ".") then Some NDot
      else if is_e c then Some NExp else None
  | NDot => if is_digit c then Some NFrac else None
  | NFrac =>
      if is_digit c then Some NFrac
      else if is_e c then Some NExp else None
  | NExp =>
      if is_sign c then Some NExpSign
      else if is_digit c then Some NExpDigits else None
  | NExpSign | NExpDigits => if is_digit c then Some NExpDigits else None
  end.

(** A code unit met between two tokens. *)
Definition lex_start (c : N) (toks : list token)
  : option (lex_state * list token) :=
  if is_json_ws c then Some (LStart, toks)
  else if N.eqb c (ch "{") then Some (LStart, TLBrace :: toks)
  else if N.eqb c (ch "}") then Some (LStart, TRBrace :: toks)
  else if N.eqb c (ch "[") then Some (LStart, TLBracket :: toks)
  else if N.eqb c (ch "]") then Some (LStart, TRBracket :: toks)
  else if N.eqb c (ch ":") then Some (LStart, TColon :: toks)
  else if N.eqb c (ch ",") then Some (LStart, TComma :: toks)
  else if N.eqb c dquote then Some (LString [], toks)
  else if N.eqb c (ch "-") then Some (LNumber NMinus [c], toks)
  else if N.eqb c (ch "0") then Some (LNumber NZero [c], toks)
  else if is_digit19 c then Some (LNumber NInt [c], toks)
  else if N.eqb c (ch "t") then Some (LLiteral (js "rue") TTrue, toks)
  else if N.eqb c (ch "f") then Some (LLiteral (js "alse") TFalse, toks)
  else if N.eqb c (ch "n") then Some (LLiteral (js "ull") TNull, toks)
  else None.

Definition unescape (c : N) : option N :=
  if N.eqb c dquote then Some dquote
  else if N.eqb c backslash then Some backslash
  else if N.eqb c (ch "/") then Some (ch "/")
  else if N.eqb c (ch "b") then Some 8%N
  else if N.eqb c (ch "f") then Some 12%N
  else if N.eqb c (ch "n") then Some 10%N
  else if N.eqb c (ch "r") then Some 13%N
  else if N.eqb c (ch "t") then Some 9%N
  else None.

(** One step of the lexer; the tokens are collected latest first. *)
Definition lex_step (st : lex_state * list token) (c : N)
  : option (lex_state * list token) :=
  let (s, toks) := st in
  match s with
  | LStart => lex_start c toks
  | LString acc =>
      if N.eqb c dquote then Some (LStart, TString (rev acc) :: toks)
      else if N.eqb c backslash then Some (LEscape acc, toks)
      else if (c <? 32)%N then None
      else Some (LString (c :: acc), toks)
  | LEscape acc =>
      if N.eqb c (ch "u") then Some (LUnicode 4 0 acc, toks)
      else match unescape c with
           | Some u => Some (LString (u :: acc), toks)
           | None => None
           end
  | LUnicode more code acc =>
      match hex_value c with
      | Some h =>
          let code' := (code * 16 + h)%N in
          match more with
          | 0 | 1 => Some (LString (code' :: acc), toks)
          | S more' => Some (LUnicode more' code' acc, toks)
          end
      | None => None
      end
  | LNumber n acc =>
      match num_step n c with
      | Some n' => Some (LNumber n' (c :: acc), toks)
      | None =>
          if num_accepting n then lex_start c (TNumber (rev acc) :: toks)
          else None
      end
  | LLiteral rest t =>
      match rest with
      | x :: rest' =>
          if N.eqb c x then
            match rest' with
            | [] => Some (LStart, t :: toks)
            | _ :: _ => Some (LLiteral rest' t, toks)
            end
          else None
      | [] => None
      end
  end.

Fixpoint lex_run (st : lex_state * list token) (text : jsstring)
  : option (lex_state * list token) :=
  match text with
  | [] => Some st
  | c :: text' =>
      match lex_step st c with
      | Some st' => lex_run st' text'
      | None => None
      end
  end.

(** The end of the text closes a number and is an error inside anything
    else. *)
Definition lex_finish (st : lex_state * list token) : option (list token) :=
  let (s, toks) := st in
  match s with
  | LStart => Some (rev toks)
  | LNumber n acc =>
      if num_accepting n then Some (rev (TNumber (rev acc) :: toks)) else None
  | _ => None
  end.

Definition lex (text : jsstring) : option (list token) :=
  match lex_run (LStart, []) text with
  | Some st => lex_finish st
  | None => None
  end.

(** *** The parser: one token at a time, with an explicit stack *)

(** An open container: its elements or members so far, latest first, and
    for an object the key whose value is awaited. *)
Inductive frame :=
| FArray (elems : list json)
| FObject (members : list (jsstring * json)) (key : option jsstring).

Inductive mode :=
| MValue         (* a value must follow *)
| MArrayFirst    (* just after [[]: a value or []] *)
| MObjectFirst   (* just after [{]: a key or [}] *)
| MKey           (* after a comma in an object: a key *)
| MColon         (* after a key: the colon *)
| MNext          (* after a value in a container: a comma or the closer *)
| MDone (v : json).

(** A value is complete: it is the whole text, or goes into the innermost
    open container. *)
Definition push_value (v : json) (stack : list frame)
  : option (mode * list frame) :=
  match stack with
  | [] => Some (MDone v, [])
  | FArray es :: st => Some (MNext, FArray (v :: es) :: st)
  | FObject ms (Some k) :: st => Some (MNext, FObject ((k, v) :: ms) None :: st)
  | FObject _ None :: _ => None
  end.

Definition close_array (stack : list frame) : option (mode * list frame) :=
  match stack with
  | FArray es :: st => push_value (JArray (rev es)) st
  | _ => None
  end.

Definition close_object (stack : list frame) : option (mode * list frame) :=
  match stack with
  | FObject ms None :: st => push_value (JObject (rev ms)) st
  | _ => None
  end.

Definition set_key (k : jsstring) (stack : list frame)
  : option (mode * list frame) :=
  match stack with
  | FObject ms None :: st => Some (MColon, FObject ms (Some k) :: st)
  | _ => None
  end.

Definition begin_value (t : token) (stack : list frame)
  : option (mode * list frame) :=
  match t with
  | TLBracket => Some (MArrayFirst, FArray [] :: stack)
  | TLBrace => Some (MObjectFirst, FObject [] None :: stack)
  | TString s => push_value (JString s) stack
  | TNumber n => push_value (JNumber n) stack
  | TTrue => push_value (JBool true) stack
  | TFalse => push_value (JBool false) stack
  | TNull => push_value JNull stack
  | TRBrace | TRBracket | TColon | TComma => None
  end.

Definition parse_step (st : mode * list frame) (t : token)
  : option (mode * list frame) :=
  let (m, stack) := st in
  match m, t with
  | MValue, _ => begin_value t stack
  | MArrayFirst, TRBracket => close_array stack
  | MArrayFirst, _ => begin_value t stack
  | MObjectFirst, TRBrace => close_object stack
  | MObjectFirst, TString k => set_key k stack
  | MKey, TString k => set_key k stack
  | MColon, TColon => Some (MValue, stack)
  | MNext, TComma =>
      match stack with
      | FArray _ :: _ => Some (MValue, stack)
      | FObject _ None :: _ => Some (MKey, stack)
      | _ => None
      end
  | MNext, TRBracket => close_array stack
  | MNext, TRBrace => close_object stack
  | _, _ => None
  end.

Fixpoint parse_run (st : mode * list frame) (toks : list token)
  : option (mode * list frame) :=
  match toks with
  | [] => Some st
  | t :: toks' =>
      match parse_step st t with
      | Some st' => parse_run st' toks'
      | None => None
      end
  end.

Definition parse_tokens (toks : list token) : option json :=
  match parse_run (MValue, []) toks with
  | Some (MDone v, []) => Some v
  | _ => None
  end.

(** [JSON.parse(text)]; a text that is not JSON throws a [SyntaxError]. *)
Definition parse (text : jsstring) : result json :=
  match lex text with
  | Some toks =>
      match parse_tokens toks with
      | Some v => Ok v
      | None => Throw (SyntaxError (js "Unexpected token in JSON"))
      end
  | None => Throw (SyntaxError (js "Unexpected token in JSON"))
  end.

(** [Array.isArray(v)]. *)
Definition isArray (v : json) : bool :=
  match v with JArray _ => true | _ => false end.

End JSON.
Export JSON.

(** ** JavaScript values built from JSON *)

Module Js.

(** What a variable of the handler can hold: [undefined] or a value that
    came out of [JSON.parse]. *)
Inductive value :=
| Undefined
| Val (v : json).

Definition str (s : jsstring) : value := Val (JString s).

(** The decimal numeral of a natural number, as [String(n)] prints it. *)
Definition decimal (n : N) : jsstring :=
  js (NilZero.string_of_uint (N.to_uint n)).

(** The mantissa of a numeric lexeme: what precedes the exponent. *)
Fixpoint mantissa (lexeme : jsstring) : jsstring :=
  match lexeme with
  | [] => []
  | c :: rest => if is_e c then [] else c :: mantissa rest
  end.

(** *** The Number a numeric lexeme denotes *)

(** What follows the exponent mark of a lexeme. *)
Fixpoint exponent_text (lexeme : jsstring) : jsstring :=
  match lexeme with
  | [] => []
  | c :: rest => if is_e c then rest else exponent_text rest
  end.

Fixpoint read_digits (s : jsstring) (acc : N) : N :=
  match s with
  | [] => acc
  | c :: rest => read_digits rest (acc * 10 + (c - 48))
  end.

(** The digits of a mantissa read as one natural number, the sign and the
    dot left out, and how many of them follow the dot. *)
Fixpoint significand (s : jsstring) (dot : bool) (acc frac : N) : N * N :=
  match s with
  | [] => (acc, frac)
  | c :: rest =>
      if is_digit c
      then significand rest dot (acc * 10 + (c - 48))
             (if dot then frac + 1 else frac)
      else significand rest (dot || N.eqb c (ch ".")) acc frac
  end.

Definition exponent (lexeme : jsstring) : Z :=
  match exponent_text lexeme with
  | [] => 0
  | c :: rest =>
      if N.eqb c (ch "-") then - Z.of_N (read_digits rest 0)
      else if N.eqb c (ch "+") then Z.of_N (read_digits rest 0)
      else Z.of_N (read_digits (c :: rest) 0)
  end.

Definition is_negative (lexeme : jsstring) : bool :=
  match lexeme with
  | c :: _ => N.eqb c (ch "-")
  | [] => false
  end.

(** The magnitude of the lexeme is [fst * 10 ^ snd]. *)
Definition magnitude (lexeme : jsstring) : N * Z :=
  let (digits, frac) := significand (mantissa lexeme) false 0 0 in
  (digits, (exponent lexeme - Z.of_N frac)%Z).

Definition decimal_digits (n : N) : Z := Z.of_nat (length (decimal n)).

(** The lexeme denotes the Number zero: the magnitude is zero, or it is at
    most [2 ^ -1075], half of the least positive double, and so is rounded
    to zero (to nearest, ties to even).  A magnitude with a leading digit
    below position -330 is below that bound; the test only spares the
    powers. *)
Definition number_is_zero (lexeme : jsstring) : bool :=
  let (digits, scale) := magnitude lexeme in
  if (digits =? 0)%N then true
  else if (0 <=? scale)%Z then false
  else if (scale + decimal_digits digits <? -330)%Z then true
  else (Z.of_N digits * 2 ^ 1075 <=? 10 ^ (- scale))%Z.

(** A double, without its sign: zero, [m * 2 ^ e] with [0 < m < 2 ^ 53] and
    [-1074 <= e <= 971], or infinity. *)
Inductive double :=
| DZero
| DFinite (m : Z) (e : Z)
| DInfinity.

Definition double_eqb (a b : double) : bool :=
  match a, b with
  | DZero, DZero | DInfinity, DInfinity => true
  | DFinite m e, DFinite m' e' => (m =? m')%Z && (e =? e')%Z
  | _, _ => false
  end.

(** [num / den] rounded to the nearest integer, ties to even. *)
Definition round_half_even (num den : Z) : Z :=
  let q := (num / den)%Z in
  let r := (num mod den)%Z in
  if (2 * r <? den)%Z then q
  else if (den <? 2 * r)%Z then (q + 1)%Z
  else if Z.even q then q else (q + 1)%Z.

(** [base ^ x <= num / den], for any integer [x]. *)
Definition ratio_reaches (num den base x : Z) : bool :=
  if (0 <=? x)%Z then (den * base ^ x <=? num)%Z
  else (den <=? num * base ^ (- x))%Z.

(** The double nearest to [digits * 10 ^ scale] (IEEE 754 binary64, round to
    nearest, ties to even), as the conversion of a numeric literal gives it.
    A magnitude of at least [10 ^ 310] is beyond the largest double, one
    below [10 ^ -330] is rounded to zero. *)
Definition nearest_double (digits : N) (scale : Z) : double :=
  if (digits =? 0)%N then DZero
  else if (310 <? scale + decimal_digits digits)%Z then DInfinity
  else if (scale + decimal_digits digits <? -330)%Z then DZero
  else
    let num := (if 0 <=? scale then Z.of_N digits * 10 ^ scale
                else Z.of_N digits)%Z in
    let den := (if 0 <=? scale then 1 else 10 ^ (- scale))%Z in
    let b := (Z.log2 num - Z.log2 den)%Z in
    let lg := if ratio_reaches num den 2 b then b else (b - 1)%Z in
    let e := Z.max (lg - 52) (-1074) in
    let m := if (0 <=? e)%Z then round_half_even num (den * 2 ^ e)
             else round_half_even (num * 2 ^ (- e)) den in
    let e' := if (m =? 2 ^ 53)%Z then (e + 1)%Z else e in
    let m' := if (m =? 2 ^ 53)%Z then (2 ^ 52)%Z else m in
    if (m' =? 0)%Z then DZero
    else if (971 <? e')%Z then DInfinity
    else DFinite m' e'.

(** The candidates with [n] digits for the decimal form of [num / den], the
    double [d]: the two [n]-digit numerals around it that are read back as
    [d], and of two the nearer one (the even one when both are as near).
    [p10] is the position of the leading digit. *)
Definition digits_at (d : double) (num den p10 n : Z) : option (Z * Z) :=
  let x := (p10 - (n - 1))%Z in
  let tnum := (if 0 <=? x then num else num * 10 ^ (- x))%Z in
  let tden := (if 0 <=? x then den * 10 ^ x else den)%Z in
  let lo := (tnum / tden)%Z in
  let r := (tnum mod tden)%Z in
  let hi := (lo + 1)%Z in
  let lo_ok := double_eqb (nearest_double (Z.to_N lo) x) d in
  let hi_ok := double_eqb (nearest_double (Z.to_N hi) x) d in
  if lo_ok then
    if hi_ok then
      if (2 * r <? tden)%Z then Some (lo, x)
      else if (tden <? 2 * r)%Z then Some (hi, x)
      else if Z.even lo then Some (lo, x) else Some (hi, x)
    else Some (lo, x)
  else if hi_ok then Some (hi, x) else None.

(** The least number of digits that is read back as [d] (17 always do). *)
Fixpoint shortest_digits (more : nat) (d : double) (num den p10 n : Z)
  : Z * Z :=
  match more with
  | O => ((if 0 <=? p10 - (n - 1) then num / (den * 10 ^ (p10 - (n - 1)))
           else (num * 10 ^ (- (p10 - (n - 1)))) / den)%Z,
          (p10 - (n - 1))%Z)
  | S more' =>
      match digits_at d num den p10 n with
      | Some r => r
      | None => shortest_digits more' d num den p10 (n + 1)
      end
  end.

Fixpoint drop_zeros (more : nat) (s x : Z) : Z * Z :=
  match more with
  | O => (s, x)
  | S more' =>
      if ((s mod 10 =? 0) && negb (s =? 0))%Z
      then drop_zeros more' (s / 10)%Z (x + 1)%Z
      else (s, x)
  end.

(** [Number::toString] of a finite, non-zero double [m * 2 ^ e]: the digits
    [s] and the position [n] of the decimal point, then the five layouts of
    the standard. *)
Definition finite_to_string (m e : Z) : jsstring :=
  let num := (if 0 <=? e then m * 2 ^ e else m)%Z in
  let den := (if 0 <=? e then 1 else 2 ^ (- e))%Z in
  let b := (decimal_digits (Z.to_N num) - decimal_digits (Z.to_N den))%Z in
  let p10 := if ratio_reaches num den 10 b then b else (b - 1)%Z in
  let (s0, x0) := shortest_digits 17 (DFinite m e) num den p10 1 in
  let (s, x) := drop_zeros 20 s0 x0 in
  let digits := decimal (Z.to_N s) in
  let k := Z.of_nat (length digits) in
  let n := (x + k)%Z in
  let zeros (c : Z) := List.repeat 48%N (Z.to_nat c) in
  let exponent_form :=
    js "e" ++ (if (0 <=? n - 1)%Z then js "+" else js "-")
    ++ decimal (Z.to_N (Z.abs (n - 1))) in
  if ((k <=? n) && (n <=? 21))%Z then digits ++ zeros (n - k)%Z
  else if ((0 <? n) && (n <=? 21))%Z
  then firstn (Z.to_nat n) digits ++ js "." ++ skipn (Z.to_nat n) digits
  else if ((-6 <? n) && (n <=? 0))%Z
  then js "0." ++ zeros (- n)%Z ++ digits
  else if (k =? 1)%Z then digits ++ exponent_form
  else firstn 1 digits ++ js "." ++ skipn 1 digits ++ exponent_form.

(** The double a lexeme denotes, without its sign. *)
Definition lexeme_double (lexeme : jsstring) : double :=
  let (digits, scale) := magnitude lexeme in nearest_double digits scale.

(** ToString of the Number a lexeme denotes. *)
Definition number_to_string (lexeme : jsstring) : jsstring :=
  match lexeme_double lexeme with
  | DZero => js "0"
  | DInfinity => if is_negative lexeme then js "-Infinity" else js "Infinity"
  | DFinite m e =>
      (if is_negative lexeme then js "-" else []) ++ finite_to_string m e
  end.

(** ToBoolean. *)
Definition truthy (v : value) : bool :=
  match v with
  | Undefined | Val JNull => false
  | Val (JBool b) => b
  | Val (JNumber n) => negb (number_is_zero n)
  | Val (JString s) => negb (JsString.eqb s [])
  | Val (JArray _) | Val (JObject _) => true
  end.

(** The last member of an object with the given key. *)
Fixpoint lookup_member (key : jsstring) (members : list (jsstring * json))
  : value :=
  match members with
  | [] => Undefined
  | (k, v) :: rest =>
      match lookup_member key rest with
      | Val v' => Val v'
      | Undefined => if JsString.eqb k key then Val v else Undefined
      end
  end.

(** A property key that is a canonical array index. *)
Definition array_index (key : jsstring) : option nat :=
  let n := fold_left (fun acc c => (acc * 10 + (c - 48))%N) key 0%N in
  if negb (JsString.eqb key []) && forallb is_digit key
     && JsString.eqb (decimal n) key
  then Some (N.to_nat n) else None.

Definition nth_value {A} (f : A -> json) (l : list A) (key : jsstring) : value :=
  match array_index key with
  | Some i =>
      match nth_error l i with
      | Some x => Val (f x)
      | None => Undefined
      end
  | None => Undefined
  end.

(** The property read [v.key] / [v[key]].  Reading a property of
    [undefined] or [null] throws; an array or a string has its indices and
    its [length]; inherited properties are not modelled (none of the names
    the code reads is one). *)
Definition get (v : value) (key : jsstring) : result value :=
  match v with
  | Undefined | Val JNull =>
      Throw (TypeError (js "Cannot read properties of undefined or null"))
  | Val (JObject ms) => Ok (lookup_member key ms)
  | Val (JArray es) =>
      if JsString.eqb key (js "length")
      then Ok (Val (JNumber (decimal (N.of_nat (length es)))))
      else Ok (nth_value (fun e => e) es key)
  | Val (JString s) =>
      if JsString.eqb key (js "length")
      then Ok (Val (JNumber (decimal (N.of_nat (length s)))))
      else Ok (nth_value (fun c => JString [c]) s key)
  | Val (JBool _) | Val (JNumber _) => Ok Undefined
  end.

(** [parts.join(sep)] on strings. *)
Fixpoint join (sep : jsstring) (parts : list jsstring) : jsstring :=
  match parts with
  | [] => []
  | [p] => p
  | p :: rest => p ++ sep ++ join sep rest
  end.

(** ToString of a JSON value, as a template literal or [Array.prototype.join]
    applies it. *)
Fixpoint json_to_string (v : json) : jsstring :=
  match v with
  | JNull => js "null"
  | JBool true => js "true"
  | JBool false => js "false"
  | JNumber n => number_to_string n
  | JString s => s
  | JArray es =>
      join (js ",")
        (List.map (fun e => match e with
                            | JNull => []
                            | _ => json_to_string e
                            end) es)
  | JObject _ => js "[object Object]"
  end.

Definition ToString (v : value) : jsstring :=
  match v with
  | Undefined => js "undefined"
  | Val j => json_to_string j
  end.

(** *** [JSON.stringify] of a value that came out of [JSON.parse] *)

Definition hex_unit (n : N) : N :=
  List.nth (N.to_nat n) (js "0123456789abcdef") 48%N.

(** [\uXXXX], in lower-case hexadecimal digits. *)
Definition unicode_escape (c : N) : jsstring :=
  [backslash; ch "u"; hex_unit (c / 4096); hex_unit ((c / 256) mod 16);
   hex_unit ((c / 16) mod 16); hex_unit (c mod 16)]%N.

Definition is_high_surrogate (c : N) : bool := (55296 <=? c)%N && (c <=? 56319)%N.
Definition is_low_surrogate (c : N) : bool := (56320 <=? c)%N && (c <=? 57343)%N.

(** The code units between the quotes of QuoteJSONString: the two-character
    escapes, [\uXXXX] for the other control characters and for a surrogate
    that is not part of a pair, anything else as it is. *)
Fixpoint quote_units (s : jsstring) : jsstring :=
  match s with
  | [] => []
  | c :: rest =>
      if N.eqb c 8 then backslash :: ch "b" :: quote_units rest
      else if N.eqb c 9 then backslash :: ch "t" :: quote_units rest
      else if N.eqb c 10 then backslash :: ch "n" :: quote_units rest
      else if N.eqb c 12 then backslash :: ch "f" :: quote_units rest
      else if N.eqb c 13 then backslash :: ch "r" :: quote_units rest
      else if N.eqb c dquote then backslash :: dquote :: quote_units rest
      else if N.eqb c backslash then backslash :: backslash :: quote_units rest
      else if (c <? 32)%N then unicode_escape c ++ quote_units rest
      else if is_high_surrogate c then
        match rest with
        | d :: rest' =>
            if is_low_surrogate d then c :: d :: quote_units rest'
            else unicode_escape c ++ quote_units rest
        | [] => unicode_escape c
        end
      else if is_low_surrogate c then unicode_escape c ++ quote_units rest
      else c :: quote_units rest
  end.

Definition quote_json_string (s : jsstring) : jsstring :=
  [dquote] ++ quote_units s ++ [dquote].

(** A key that is an array index: a canonical numeral below [2 ^ 32 - 1]. *)
Definition index_key (key : jsstring) : option N :=
  let n := read_digits key 0 in
  if negb (JsString.eqb key []) && forallb is_digit key
     && JsString.eqb (decimal n) key && (n <? 4294967295)%N
  then Some n else None.

(** Defining a property: an existing key keeps its place and gets the new
    value, a new key is added at the end. *)
Fixpoint define_property {A} (key : jsstring) (v : A)
    (props : list (jsstring * A)) : list (jsstring * A) :=
  match props with
  | [] => [(key, v)]
  | (k, x) :: rest =>
      if JsString.eqb k key then (k, v) :: rest
      else (k, x) :: define_property key v rest
  end.

Fixpoint insert_index {A} (i : N) (kv : jsstring * A)
    (sorted : list (N * (jsstring * A))) : list (N * (jsstring * A)) :=
  match sorted with
  | [] => [(i, kv)]
  | (j, kv') :: rest =>
      if (i <? j)%N then (i, kv) :: sorted
      else (j, kv') :: insert_index i kv rest
  end.

(** The own properties of the object built from the members of a JSON
    object, in the order the engine enumerates them: the array indices in
    ascending order, then the other keys in the order they were first
    defined; a repeated key has the value of its last member. *)
Definition own_properties {A} (members : list (jsstring * A))
  : list (jsstring * A) :=
  let defined :=
    fold_left (fun props kv => define_property (fst kv) (snd kv) props)
      members [] in
  let indices :=
    fold_left (fun sorted kv =>
                 match index_key (fst kv) with
                 | Some i => insert_index i kv sorted
                 | None => sorted
                 end) defined [] in
  List.map snd indices
  ++ List.filter (fun kv => match index_key (fst kv) with
                            | Some _ => false
                            | None => true
                            end) defined.

(** [JSON.stringify(v)], without indentation.  An infinite number is
    written [null]; the values [JSON.parse] builds hold no [undefined], no
    function and no [toJSON]. *)
Fixpoint stringify (v : json) : jsstring :=
  match v with
  | JNull => js "null"
  | JBool true => js "true"
  | JBool false => js "false"
  | JNumber n =>
      match lexeme_double n with
      | DInfinity => js "null"
      | _ => number_to_string n
      end
  | JString s => quote_json_string s
  | JArray es => js "[" ++ join (js ",") (List.map stringify es) ++ js "]"
  | JObject ms =>
      js "{"
      ++ join (js ",")
           (List.map (fun kt => quote_json_string (fst kt) ++ js ":" ++ snd kt)
              (own_properties
                 (List.map (fun kv => match kv with
                                      | (k, x) => (k, stringify x)
                                      end) ms)))
      ++ js "}"
  end.

(** The receiver of a [String.prototype] method call: a string, or the call
    throws (the property is missing or not callable on anything else that
    [JSON.parse] can produce). *)
Definition string_receiver (v : value) : result jsstring :=
  match v with
  | Val (JString s) => Ok s
  | _ => Throw (TypeError (js "not a function"))
  end.

End Js.
Export Js.

(** ** Pure steps of the handler *)

(** [filePath.toLowerCase().endsWith('.pdf')], the test behind both
    [mimeType] and [isPdf]. *)
Definition is_pdf (filePath : jsstring) : bool :=
  endsWith (toLowerCase filePath) (js ".pdf").

(** The [mimeType] expression (lines 159-163). *)
Definition mimeType_of (filePath : jsstring) : jsstring :=
  if endsWith (toLowerCase filePath) (js ".pdf") then js "application/pdf"
  else if endsWith (toLowerCase filePath) (js ".jpg")
          || endsWith (toLowerCase filePath) (js ".jpeg")
       then js "image/jpeg"
       else js "image/png".

Definition newline : N := 10.

(** The optional [\n] after a fence marker. *)
Definition drop_newline (text : jsstring) : jsstring :=
  match text with
  | c :: rest => if N.eqb c newline then rest else text
  | [] => []
  end.

(** [text.replace(/marker\n?/g, '')] for a literal, non-empty [marker]: the
    text is scanned from the left; where the marker starts it is dropped
    together with a newline that follows it and the scan goes on behind the
    match; any other code unit is kept.  ([marker] matched at [c :: rest], so
    what follows the match is [rest] without the other [length marker - 1]
    units.) *)
Equations? replace_all (marker text : jsstring) : jsstring
    by wf (length text) lt :=
  replace_all marker [] := [];
  replace_all marker (c :: rest) with startsWith marker (c :: rest) := {
    | true :=
        replace_all marker
          (drop_newline (skipn (pred (length marker)) rest));
    | false := c :: replace_all marker rest }.
Proof.
  all: simpl; try lia.
  assert (H : forall t, length (drop_newline t) <= length t).
  { intros [|x t]; simpl; [lia|]. destruct (N.eqb x newline); simpl; lia. }
  specialize (H (skipn (pred (length marker)) rest)).
  rewrite length_skipn in H. lia.
Qed.

Definition fence : jsstring := js "```".
Definition fence_json : jsstring := js "```json".

(** [cleanedText] (line 264):
    [questionsText.replace(/```json\n?/g, '').replace(/```\n?/g, '').trim()]. *)
Definition cleanedText (questionsText : jsstring) : jsstring :=
  trim (replace_all fence (replace_all fence_json questionsText)).

(** ** Requests, responses, the outside world *)

Record Request := {
  method : jsstring;
  req_body : jsstring            (* the text [req.json()] parses *)
}.

(** A [Response]; [body] is the value given to [JSON.stringify], [None] for
    the [null] body of the preflight answer. *)
Record Response := {
  status : Z;
  headers : list (jsstring * jsstring);
  body : option json
}.

(** The text of the body, as it is sent. *)
Definition body_text (r : Response) : option jsstring :=
  match body r with
  | Some v => Some (stringify v)
  | None => None
  end.

Definition corsHeaders : list (jsstring * jsstring) :=
  [(js "Access-Control-Allow-Origin", js "*");
   (js "Access-Control-Allow-Headers",
    js "authorization, x-client-info, apikey, content-type")].

Definition json_headers : list (jsstring * jsstring) :=
  corsHeaders ++ [(js "Content-Type", js "application/json")].

(** [new Response(JSON.stringify({ error: msg }), { status, headers })]. *)
Definition error_response (st : Z) (msg : jsstring) : Response :=
  {| status := st; headers := json_headers;
     body := Some (JObject [(js "error", JString msg)]) |}.

(** [new Response(JSON.stringify({ questions }), { headers })]: the status
    defaults to 200. *)
Definition questions_response (questions : json) : Response :=
  {| status := 200; headers := json_headers;
     body := Some (JObject [(js "questions", questions)]) |}.

Definition preflight_response : Response :=
  {| status := 200; headers := corsHeaders; body := None |}.

(** The process environment: [Deno.env.get] gives a string or [undefined]. *)
Record Env := {
  LOVABLE_API_KEY : option jsstring;
  OCR_API_KEY : option jsstring
}.

Definition env_value (x : option jsstring) : value :=
  match x with
  | Some s => str s
  | None => Undefined
  end.

(** What [fetch] resolves to, or that it rejects. *)
Inductive FetchResult :=
| Rejected (reason : jsstring)
| Responded (code : Z) (text : jsstring).

(** [response.ok]. *)
Definition ok_status (code : Z) : bool := (200 <=? code)%Z && (code <=? 299)%Z.

(** What the storage client resolves to: [{ data, error }]. *)
Inductive DownloadResult :=
| DownloadError (reason : jsstring)
| Downloaded (fileData : list byte).

(** The outbound calls of one invocation, in the order they are made. *)
Inductive Event :=
| EDownload (filePath : value)
| EFilestackStore (ocrApiKey : jsstring) (bytes : list byte)
| EFilestackOcr (ocrApiKey fileHandle : jsstring)
| EGeminiOcr (lovableApiKey mimeType base64 : jsstring)
| EParse (lovableApiKey extractedText : jsstring).

(** The answers of the collaborators, as functions of what they are sent. *)
Record World := {
  storage_download : value -> DownloadResult;
  filestack_store : jsstring -> list byte -> FetchResult;
  filestack_ocr : jsstring -> jsstring -> FetchResult;
  gemini_ocr : jsstring -> jsstring -> jsstring -> FetchResult;
  gateway_parse : jsstring -> jsstring -> FetchResult
}.

(** ** The handler monad: calls made, exceptions, early [return] *)

Inductive outcome (A : Type) :=
| Value (a : A)             (* the statement completed *)
| Thrown (e : Exn)          (* an exception is propagating *)
| Returned (r : Response).  (* a [return new Response(...)] was executed *)
Arguments Value {A} a.
Arguments Thrown {A} e.
Arguments Returned {A} r.

(** A computation of the handler: how it ends, and the outbound calls it
    made, in order. *)
Definition M (A : Type) : Type := (outcome A * list Event)%type.

Definition ret {A} (a : A) : M A := (Value a, []).

Definition bind {A B} (m : M A) (k : A -> M B) : M B :=
  match m with
  | (Value a, calls) => let (o, calls') := k a in (o, calls ++ calls')
  | (Thrown e, calls) => (Thrown e, calls)
  | (Returned r, calls) => (Returned r, calls)
  end.

Notation "'let*' x ':=' m 'in' k" := (bind m (fun x => k))
  (at level 10, x name, m at level 100, k at level 200).

Definition throw {A} (e : Exn) : M A := (Thrown e, []).

(** [return r;] inside the handler. *)
Definition return_ {A} (r : Response) : M A := (Returned r, []).

(** A pure computation that may throw. *)
Definition lift {A} (r : result A) : M A :=
  match r with
  | Ok a => ret a
  | Throw e => throw e
  end.

(** [try { m } catch (error) { h error }]: a [return] inside [m] is not
    caught. *)
Definition try_catch {A} (m : M A) (h : Exn -> M A) : M A :=
  match m with
  | (Thrown e, calls) => let (o, calls') := h e in (o, calls ++ calls')
  | other => other
  end.

(** [if (c) { m }]. *)
Definition when (c : bool) (m : M unit) : M unit := if c then m else ret tt.

(** An outbound [fetch]: the call is recorded; it resolves to a status and a
    body text, or rejects. *)
Definition fetch (e : Event) (r : FetchResult) : M (Z * jsstring) :=
  match r with
  | Responded code text => (Value (code, text), [e])
  | Rejected reason => (Thrown (FetchRejected reason), [e])
  end.

(** [choices[0].message.content] of a chat-completion answer. *)
Definition message_content (data : json) : result value :=
  match get (Val data) (js "choices") with
  | Throw e => Throw e
  | Ok choices =>
      match get choices (js "0") with
      | Throw e => Throw e
      | Ok first =>
          match get first (js "message") with
          | Throw e => Throw e
          | Ok msg => get msg (js "content")
          end
      end
  end.

(** The octets of a binary string, as the loop of lines 59-62 stores them in
    a [Uint8Array]. *)
Definition byte_of_unit (c : N) : byte :=
  match Byte.of_N (c mod 256) with
  | Some b => b
  | None => x00
  end.

(** [ocrData.map((item: any) => item.text || '').join('\n\n')]. *)
Fixpoint item_texts (items : list json) : result (list jsstring) :=
  match items with
  | [] => Ok []
  | item :: rest =>
      match get (Val item) (js "text") with
      | Throw e => Throw e
      | Ok t =>
          match item_texts rest with
          | Throw e => Throw e
          | Ok ts => Ok ((if truthy t then ToString t else []) :: ts)
          end
      end
  end.

Section Handler.

Variable w : World.

(** [extractWithGemini] (lines 10-51). *)
Definition extractWithGemini (base64 mimeType lovableApiKey : jsstring)
  : M value :=
  let* ocrResponse :=
    fetch (EGeminiOcr lovableApiKey mimeType base64)
          (gemini_ocr w lovableApiKey mimeType base64) in
  let* _ :=
    when (negb (ok_status (fst ocrResponse)))
      (throw (Error (js "Gemini OCR failed: " ++ snd ocrResponse))) in
  let* ocrData := lift (JSON.parse (snd ocrResponse)) in
  lift (message_content ocrData).

(** [processPdfWithFilestack] (lines 54-107). *)
Definition processPdfWithFilestack (base64Data ocrApiKey : jsstring)
  : M value :=
  let* binaryString := lift (atob base64Data) in
  let bytes := List.map byte_of_unit binaryString in
  let* uploadResponse :=
    fetch (EFilestackStore ocrApiKey bytes)
          (filestack_store w ocrApiKey bytes) in
  let* _ :=
    when (negb (ok_status (fst uploadResponse)))
      (throw (Error (js "Failed to upload PDF to Filestack"))) in
  let* uploadData := lift (JSON.parse (snd uploadResponse)) in
  let* fileHandle := lift (get (Val uploadData) (js "handle")) in
  let* ocrResponse :=
    fetch (EFilestackOcr ocrApiKey (ToString fileHandle))
          (filestack_ocr w ocrApiKey (ToString fileHandle)) in
  let* _ :=
    when (negb (ok_status (fst ocrResponse)))
      (throw (Error (js "Filestack OCR processing failed"))) in
  let* ocrData := lift (JSON.parse (snd ocrResponse)) in
  let* text := lift (get (Val ocrData) (js "text")) in
  let* extractedText :=
    if truthy text then ret text
    else
      let* ocr := lift (get (Val ocrData) (js "ocr")) in
      let* ocr_text :=
        if truthy ocr then lift (get ocr (js "text")) else ret ocr in
      if truthy ocr_text then ret ocr_text
      else
        match ocrData with
        | JArray items =>
            let* texts := lift (item_texts items) in
            ret (str (join [newline; newline] texts))
        | _ => ret (str [])
        end in
  let* _ := lift (get extractedText (js "length")) in
  ret extractedText.

(** Step 1 of the handler (lines 174-190): which OCR strategy runs. *)
Definition ocr_step (isPdf : bool) (ocrApiKey : option jsstring)
    (base64 mimeType lovableApiKey : jsstring) : M value :=
  match ocrApiKey with
  | Some key =>
      if isPdf && truthy (str key) then
        try_catch (processPdfWithFilestack base64 key)
          (fun _ =>
             if isPdf then extractWithGemini base64 mimeType lovableApiKey
             else ret (str []))
      else extractWithGemini base64 mimeType lovableApiKey
  | None => extractWithGemini base64 mimeType lovableApiKey
  end.

(** What the handler answers once the structuring call has resolved
    (lines 232-286); no further call is made. *)
Definition structuring_answer (aiResponse : Z * jsstring) : M Response :=
  let* _ :=
    when (negb (ok_status (fst aiResponse)))
      (let* _ :=
         when (fst aiResponse =? 429)%Z
           (return_ (error_response 429
                       (js "Rate limit exceeded. Please try again later."))) in
       let* _ :=
         when (fst aiResponse =? 402)%Z
           (return_ (error_response 402
                       (js "AI credits depleted. Please add funds to continue."))) in
       return_ (error_response 500 (js "AI processing failed"))) in
  let* aiData := lift (JSON.parse (snd aiResponse)) in
  let* questionsText := lift (message_content aiData) in
  let* questions :=
    try_catch
      (let* text := lift (string_receiver questionsText) in
       lift (JSON.parse (cleanedText text)))
      (fun _ =>
         return_ (error_response 500 (js "Failed to parse extracted questions"))) in
  let* _ :=
    when (negb (isArray questions))
      (return_ (error_response 500 (js "Invalid questions format"))) in
  return_ (questions_response questions).

(** The [try] block of the handler (lines 115-286). *)
Definition serve_try (env : Env) (req : Request) : M Response :=
  let* parsed := lift (JSON.parse (req_body req)) in
  let* filePath := lift (get (Val parsed) (js "filePath")) in
  let* _ :=
    when (negb (truthy filePath))
      (return_ (error_response 400 (js "File path is required"))) in
  let* download := (Value (storage_download w filePath), [EDownload filePath]) in
  let* fileData :=
    match download with
    | DownloadError _ =>
        return_ (error_response 500 (js "Failed to download file"))
    | Downloaded fileData => ret fileData
    end in
  let* base64 := lift (chunked_base64 fileData) in
  let* path := lift (string_receiver filePath) in
  let mimeType := mimeType_of path in
  let* lovableApiKey :=
    match LOVABLE_API_KEY env with
    | Some key =>
        if truthy (str key) then ret key
        else throw (Error (js "LOVABLE_API_KEY not configured"))
    | None => throw (Error (js "LOVABLE_API_KEY not configured"))
    end in
  let isPdf := is_pdf path in
  let* extractedText :=
    ocr_step isPdf (OCR_API_KEY env) base64 mimeType lovableApiKey in
  let* _ := lift (get extractedText (js "length")) in
  let* aiResponse :=
    fetch (EParse lovableApiKey (ToString extractedText))
          (gateway_parse w lovableApiKey (ToString extractedText)) in
  structuring_answer aiResponse.

(** The handler: the preflight answer, else the [try] block; whatever it
    throws becomes a 500 answer carrying the message (lines 288-296). *)
Definition serve (env : Env) (req : Request) : Response * list Event :=
  if JsString.eqb (method req) (js "OPTIONS") then (preflight_response, [])
  else
    match serve_try env req with
    | (Returned r, calls) | (Value r, calls) => (r, calls)
    | (Thrown e, calls) => (error_response 500 (message e), calls)
    end.

End Handler.

(** ** The upload page: [processFile] *)

Module Upload.

Record File := {
  name : jsstring;
  type : jsstring;
  size : N
}.

(** What [supabase.functions.invoke] resolves to: [{ data, error }] with one
    of the two set. *)
Inductive InvokeResult :=
| InvokeError (reason : jsstring)
| InvokeData (data : value).

(** The client library turns the answer of the edge function into that pair:
    the parsed body for a 2xx status, an error for any other. *)
Definition invoke_result (r : Response) : InvokeResult :=
  if ok_status (status r) then
    InvokeData (match body r with
                | Some b => Val b
                | None => Val JNull
                end)
  else InvokeError (js "Edge Function returned a non-2xx status code").

Record Browser := {
  now : N;                                         (* [Date.now()] *)
  storage_upload : jsstring -> File -> option jsstring; (* [uploadError] *)
  functions_invoke : jsstring -> InvokeResult
}.

(** What the callback does to the page. *)
Inductive UiEffect :=
| SetIsUploading (b : bool)
| Toast (title description variant : jsstring)
| Navigate (to : jsstring) (questions : value)
| ConsoleError (reason : jsstring).

(** [name.split('.').pop()]: what follows the last dot, the whole name when
    there is none. *)
Fixpoint last_segment_rev (reversed : jsstring) : jsstring :=
  match reversed with
  | [] => []
  | c :: rest => if N.eqb c (ch ".") then [] else c :: last_segment_rev rest
  end.

Definition fileExt_of (name : jsstring) : jsstring :=
  rev (last_segment_rev (rev name)).

(** [v === 0]. *)
Definition is_zero (v : value) : bool :=
  match v with
  | Val (JNumber n) => number_is_zero n
  | _ => false
  end.

(** The [catch] block (lines 114-122). *)
Definition failed (reason : jsstring) : list UiEffect :=
  [ConsoleError reason;
   Toast (js "Error processing file")
         (if JsString.eqb reason []
          then js "Failed to extract questions. Please try again."
          else reason)
         (js "destructive");
   SetIsUploading false].

(** The soft failure of lines 101-109. *)
Definition no_questions : list UiEffect :=
  [Toast (js "No questions found")
         (js "Could not extract any questions from the file. Please try another file.")
         (js "destructive");
   SetIsUploading false].

(** What follows the invocation of the edge function (lines 97-112). *)
Definition after_invoke (r : InvokeResult) : list UiEffect :=
  match r with
  | InvokeError reason => failed reason
  | InvokeData data =>
      match get data (js "questions") with
      | Throw e => failed (message e)
      | Ok questions =>
          if negb (truthy questions) then no_questions
          else
            match get questions (js "length") with
            | Throw e => failed (message e)
            | Ok len =>
                if is_zero len then no_questions
                else [Navigate (js "/exam") questions]
            end
      end
  end.

(** [processFile] (lines 73-123). *)
Definition processFile (b : Browser) (file : option File) : list UiEffect :=
  match file with
  | None => []
  | Some f =>
      let fileExt := fileExt_of (name f) in
      let fileName := decimal (now b) ++ js "." ++ fileExt in
      let filePath := fileName in
      SetIsUploading true
      :: match storage_upload b filePath f with
         | Some uploadError => failed uploadError
         | None => after_invoke (functions_invoke b filePath)
         end
  end.

End Upload.

(** ** The exam page: [handleAnswer] and [handleSubmit] *)

Module Exam.

Record Question := {
  question : jsstring;
  options : list jsstring;
  correctAnswer : jsstring
}.

Record ResultItem := {
  r_question : jsstring;
  r_options : list jsstring;
  userAnswer : jsstring;
  r_correctAnswer : jsstring;
  isCorrect : bool
}.

(** The state handed to the results page. *)
Record Results := {
  results : list ResultItem;
  score : nat;
  total : nat
}.

(** [setAnswers({ ...answers, [currentQuestion]: optionIndex })]. *)
Definition handleAnswer (answers : gmap nat jsstring) (currentQuestion : nat)
    (optionIndex : jsstring) : gmap nat jsstring :=
  <[currentQuestion := optionIndex]> answers.

(** [answers[idx] || '']. *)
Definition answer_at (answers : gmap nat jsstring) (idx : nat) : jsstring :=
  match answers !! idx with
  | Some a => if truthy (str a) then a else []
  | None => []
  end.

(** The callback of [questions.map] for one question. *)
Definition grade (answers : gmap nat jsstring) (q : Question) (idx : nat)
  : ResultItem :=
  let userAnswer := answer_at answers idx in
  {| r_question := question q;
     r_options := options q;
     userAnswer := userAnswer;
     r_correctAnswer := correctAnswer q;
     isCorrect := JsString.eqb userAnswer (correctAnswer q) |}.

(** [questions.map((q, idx) => ...)] from index [idx] on, threading the
    counter [correctCount] the callback increments. *)
Fixpoint grade_all (answers : gmap nat jsstring) (idx correctCount : nat)
    (questions : list Question) : list ResultItem * nat :=
  match questions with
  | [] => ([], correctCount)
  | q :: rest =>
      let item := grade answers q idx in
      let correctCount := if isCorrect item then S correctCount else correctCount in
      let (items, final) := grade_all answers (S idx) correctCount rest in
      (item :: items, final)
  end.

(** [handleSubmit] (lines 46-70): the state it navigates to [/results] with. *)
Definition handleSubmit (questions : list Question) (answers : gmap nat jsstring)
  : Results :=
  let (items, correctCount) := grade_all answers 0 0 questions in
  {| results := items; score := correctCount; total := length questions |}.

End Exam.

(** ** The chunks handed to [String.fromCharCode] *)

(** The arguments of the successive calls [String.fromCharCode(...chunk)] of
    the loop of lines 152-155, entered with the given [i]. *)
Equations? chunks_from (chunkSize : positive) (uint8Array : list byte) (i : nat)
  : list (list byte) by wf (length uint8Array - i) lt :=
  chunks_from chunkSize uint8Array i with lt_dec i (length uint8Array) := {
    | left _ =>
        subarray uint8Array i (i + Pos.to_nat chunkSize)
        :: chunks_from chunkSize uint8Array (i + Pos.to_nat chunkSize);
    | right _ => [] }.
Proof. lia. Qed.

(** ** The exam page: navigation *)

Module ExamPage.

(** The two pieces of state of the component. *)
Record State := {
  currentQuestion : nat;
  answers : gmap nat jsstring
}.

Definition initial : State := {| currentQuestion := 0; answers := ∅ |}.

(** [handleAnswer] on the state (lines 30-32). *)
Definition handleAnswer (s : State) (optionIndex : jsstring) : State :=
  {| currentQuestion := currentQuestion s;
     answers := Exam.handleAnswer (answers s) (currentQuestion s) optionIndex |}.

(** [handleNext] (lines 34-38); [questions.length - 1] is never negative
    where the comparison can hold. *)
Definition handleNext (questions : list Exam.Question) (s : State) : State :=
  if currentQuestion s <? length questions - 1
  then {| currentQuestion := currentQuestion s + 1; answers := answers s |}
  else s.

(** [handlePrevious] (lines 40-44). *)
Definition handlePrevious (s : State) : State :=
  if 0 <? currentQuestion s
  then {| currentQuestion := currentQuestion s - 1; answers := answers s |}
  else s.

(** [answeredCount], [Object.keys(answers).length] (line 73). *)
Definition answeredCount (s : State) : nat := size (answers s).

(** The Submit button: nothing is rendered without a question (line 75); it
    is rendered on the last question and enabled once [answeredCount] has
    reached the number of questions (lines 160-167). *)
Definition submit_enabled (questions : list Exam.Question) (s : State) : bool :=
  negb (length questions =? 0)
  && (currentQuestion s =? length questions - 1)
  && negb (answeredCount s <? length questions).

(** What the user can do on the rendered page (which needs a question to
    render, line 75): pick an option, press Previous, press Next where it is
    shown in place of Submit, or press one of the numbered buttons, of which
    there is one per question (lines 144-157). *)
Inductive step (questions : list Exam.Question) : State -> State -> Prop :=
| step_answer s optionIndex :
    step questions s (handleAnswer s optionIndex)
| step_previous s :
    step questions s (handlePrevious s)
| step_next s :
    currentQuestion s <> length questions - 1 ->
    step questions s (handleNext questions s)
| step_jump s idx :
    idx < length questions ->
    step questions s {| currentQuestion := idx; answers := answers s |}.

Inductive reachable (questions : list Exam.Question) : State -> Prop :=
| reachable_initial : reachable questions initial
| reachable_step s s' :
    reachable questions s -> step questions s s' -> reachable questions s'.

(** Pressing the enabled Submit button. *)
Definition submit (questions : list Exam.Question) (s : State)
  : option Exam.Results :=
  if submit_enabled questions s
  then Some (Exam.handleSubmit questions (answers s))
  else None.

End ExamPage.

(** ** The results page *)

Module ResultsPage.

(** [const options = ['A', 'B', 'C', 'D']]. *)
Definition options : list jsstring := [js "A"; js "B"; js "C"; js "D"].

(** [options[optIdx] === s]: beyond the fourth option the letter is
    [undefined], which equals no string. *)
Definition letter_is (optIdx : nat) (s : jsstring) : bool :=
  match nth_error options optIdx with
  | Some optionLetter => JsString.eqb optionLetter s
  | None => false
  end.

(** How an option of a reviewed question is drawn (lines 86-100): framed as
    the correct answer, else as the user's answer, else plain. *)
Inductive Frame := CorrectFrame | UserFrame | PlainFrame.

Record OptionView := {
  frame : Frame;
  correct_label : bool;        (* the text "Correct Answer" *)
  your_label : bool            (* the text "Your Answer" *)
}.

Definition option_view (result : Exam.ResultItem) (optIdx : nat) : OptionView :=
  let isCorrect := letter_is optIdx (Exam.r_correctAnswer result) in
  let isUserAnswer := letter_is optIdx (Exam.userAnswer result) in
  {| frame := if isCorrect then CorrectFrame
              else if isUserAnswer then UserFrame else PlainFrame;
     correct_label := isCorrect;
     your_label := isUserAnswer && negb isCorrect |}.

(** [result.options.map((option, optIdx) => ...)]. *)
Definition option_views (result : Exam.ResultItem) : list OptionView :=
  List.map (option_view result) (seq 0 (length (Exam.r_options result))).

(** [results.filter(r => !r.isCorrect)]. *)
Definition incorrect (results : list Exam.ResultItem) : list Exam.ResultItem :=
  List.filter (fun r => negb (Exam.isCorrect r)) results.

(** What the page shows below the score card. *)
Inductive Section_ :=
| ReviewIncorrect (cards : list (list OptionView))
| PerfectScore.

(** The page for the state it was navigated to with: [None] when there are
    no results (it navigates home, lines 27-30), else the sections of lines
    62-149 that are rendered. *)
Definition sections (state : Exam.Results) : option (list Section_) :=
  if length (Exam.results state) =? 0 then None
  else
    Some ((if 0 <? length (incorrect (Exam.results state))
           then [ReviewIncorrect
                   (List.map option_views (incorrect (Exam.results state)))]
           else [])
          ++ (if length (incorrect (Exam.results state)) =? 0
              then [PerfectScore] else [])).

End ResultsPage.

(** ** The single-stage variant of the handler *)

Module Direct.

(** Its outbound calls: the download, and the one gateway call that is sent
    the document itself. *)
Inductive Call :=
| CDownload (filePath : value)
| CExtract (lovableApiKey mimeType base64 : jsstring).

Record World := {
  storage_download : value -> DownloadResult;
  gateway_extract : jsstring -> jsstring -> jsstring -> FetchResult
}.

(** What follows the gateway call (lines 416-471), for the status and the
    body text it resolved with: how the [try] block ends. *)
Definition after_gateway (status : Z) (text : jsstring) : outcome Response :=
  if negb (ok_status status) then
    if (status =? 429)%Z
    then Returned (error_response 429
                     (js "Rate limit exceeded. Please try again later."))
    else if (status =? 402)%Z
    then Returned (error_response 402
                     (js "AI credits depleted. Please add funds to continue."))
    else Returned (error_response 500 (js "AI processing failed"))
  else
  match JSON.parse text with
  | Throw e => Thrown e
  | Ok aiData =>
  match message_content aiData with
  | Throw e => Thrown e
  | Ok extractedText =>
  match
    match string_receiver extractedText with
    | Throw e => Throw e
    | Ok text => JSON.parse (cleanedText text)
    end
  with
  | Throw _ =>
      Returned (error_response 500 (js "Failed to parse extracted questions"))
  | Ok questions =>
      if negb (isArray questions)
      then Returned (error_response 500 (js "Invalid questions format"))
      else Returned (questions_response questions)
  end end end.

(** The [try] block of the second [serve] of the file (lines 311-471). *)
Definition serve_try (w : World) (env : Env) (req : Request)
  : outcome Response * list Call :=
  match JSON.parse (req_body req) with
  | Throw e => (Thrown e, [])
  | Ok parsed =>
  match get (Val parsed) (js "filePath") with
  | Throw e => (Thrown e, [])
  | Ok filePath =>
  if negb (truthy filePath)
  then (Returned (error_response 400 (js "File path is required")), [])
  else
  match storage_download w filePath with
  | DownloadError _ =>
      (Returned (error_response 500 (js "Failed to download file")),
       [CDownload filePath])
  | Downloaded fileData =>
  match chunked_base64 fileData with
  | Throw e => (Thrown e, [CDownload filePath])
  | Ok base64 =>
  match string_receiver filePath with
  | Throw e => (Thrown e, [CDownload filePath])
  | Ok path =>
  let mimeType := mimeType_of path in
  match LOVABLE_API_KEY env with
  | None =>
      (Thrown (Error (js "LOVABLE_API_KEY not configured")),
       [CDownload filePath])
  | Some lovableApiKey =>
  if negb (truthy (str lovableApiKey))
  then (Thrown (Error (js "LOVABLE_API_KEY not configured")),
        [CDownload filePath])
  else
  let calls := [CDownload filePath; CExtract lovableApiKey mimeType base64] in
  match gateway_extract w lovableApiKey mimeType base64 with
  | Rejected reason => (Thrown (FetchRejected reason), calls)
  | Responded code text => (after_gateway code text, calls)
  end end end end end end end.

(** The second [serve] of the file (lines 305-482). *)
Definition serve (w : World) (env : Env) (req : Request)
  : Response * list Call :=
  if JsString.eqb (method req) (js "OPTIONS") then (preflight_response, [])
  else
    match serve_try w env req with
    | (Returned r, calls) | (Value r, calls) => (r, calls)
    | (Thrown e, calls) => (error_response 500 (message e), calls)
    end.

End Direct.

(* ================================================================== *)
(** * The vocabulary of the properties *)

Import Upload Exam.

(** [c] is the code unit [d] up to letter case, for a [d] that is not an
    upper-case letter. *)
Definition same_letter (c d : N) : Prop :=
  c = d \/ ((97 <= d)%N /\ (d <= 122)%N /\ (c + 32 = d)%N).

(** The key ends in the extension, in any letter case. *)
Definition has_extension (key ext : jsstring) : Prop :=
  exists stem suffix, key = stem ++ suffix /\ Forall2 same_letter suffix ext.

Definition no_upper (ext : jsstring) : Prop :=
  List.Forall (fun d => ~ (65 <= d <= 90)%N) ext.

(** [marker] occurs somewhere in [text]. *)
Definition occurs (marker text : jsstring) : Prop :=
  exists before after, text = before ++ marker ++ after.

Definition spaces (s : jsstring) : Prop :=
  List.Forall (fun c => is_js_space c = true) s.

(** Inside [true], [false] and [null] the lexer only awaits letters. *)
Definition literal_ok (st : lex_state * list token) : Prop :=
  match fst st with
  | LLiteral rest _ => List.Forall (fun x => is_js_space x = false) rest
  | _ => True
  end.

(** [occurs], decided. *)
Fixpoint occursb (marker text : jsstring) : bool :=
  startsWith marker text
  || match text with
     | [] => false
     | _ :: rest => occursb marker rest
     end.

(** Every call [m] makes satisfies [P]. *)
Definition emits {A} (P : Event -> Prop) (m : M A) : Prop :=
  List.Forall P (snd m).

Definition filestack_call (e : Event) : Prop :=
  match e with
  | EFilestackStore _ _ | EFilestackOcr _ _ => True
  | _ => False
  end.

Definition gemini_call (e : Event) : Prop :=
  match e with
  | EGeminiOcr _ _ _ => True
  | _ => False
  end.

Definition ocr_call (e : Event) : Prop := filestack_call e \/ gemini_call e.

Definition parse_call (e : Event) : Prop :=
  match e with
  | EParse _ _ => True
  | _ => False
  end.

(** The answer of the handler for a computation of its [try] block. *)
Definition finish (m : M Response) : Response :=
  match fst m with
  | Returned r | Value r => r
  | Thrown e => error_response 500 (message e)
  end.

(** What the handler answers when the structuring call resolved to [r]. *)
Definition parse_answer (r : FetchResult) : Response :=
  match r with
  | Rejected reason => error_response 500 reason
  | Responded code text => finish (structuring_answer (code, text))
  end.

Definition not_parse_call (e : Event) : Prop := ~ parse_call e.

(** If [m] makes the structuring call with [key] and [text], that call is
    its last one and [m] ends as the handler does after it. *)
Definition ends_with_parse (w : World) (key text : jsstring)
    (m : M Response) : Prop :=
  In (EParse key text) (snd m) ->
  finish m = parse_answer (gateway_parse w key text)
  /\ exists before,
       snd m = before ++ [EParse key text]
       /\ List.Forall not_parse_call before.

(** The handler made the structuring call and it resolved to [r]. *)
Definition structuring_resolved (w : World) (calls : list Event)
    (r : FetchResult) : Prop :=
  exists key text, In (EParse key text) calls /\ gateway_parse w key text = r.

(** The structuring model answered (a 2xx chat completion) and its output,
    [choices[0].message.content], is the string [questionsText]. *)
Definition structuring_output (w : World) (calls : list Event)
    (questionsText : jsstring) : Prop :=
  exists code body aiData,
    structuring_resolved w calls (Responded code body)
    /\ ok_status code = true
    /\ JSON.parse body = Ok aiData
    /\ message_content aiData = Ok (str questionsText).

(** What the handler answers to the output of the structuring model. *)
Definition output_answer (questionsText : jsstring) : Response :=
  match JSON.parse (cleanedText questionsText) with
  | Throw _ => error_response 500 (js "Failed to parse extracted questions")
  | Ok questions =>
      if isArray questions then questions_response questions
      else error_response 500 (js "Invalid questions format")
  end.

Definition is_string (v : json) : bool :=
  match v with JString _ => true | _ => false end.

(** The Question-record invariant of the specification, on a JSON value. *)
Definition is_question_record (v : json) : bool :=
  match v with
  | JObject members =>
      match lookup_member (js "question") members,
            lookup_member (js "options") members,
            lookup_member (js "correctAnswer") members with
      | Val (JString _), Val (JArray opts), Val (JString answer) =>
          Nat.eqb (length opts) 4 && forallb is_string opts
          && existsb (JsString.eqb answer) [js "A"; js "B"; js "C"; js "D"]
      | _, _, _ => false
      end
  | _ => false
  end.

(** A 200 answer carries a questions array. *)
Definition array_answer (r : Response) : Prop :=
  status r = 200%Z -> exists elems, r = questions_response (JArray elems).

(** Any answer but a success. *)
Definition not_200 (r : Response) : Prop := status r <> 200%Z.

(** A computation of the handler that ends in a 200 answer has made the
    structuring call. *)
Definition parse_before_200 (m : M Response) : Prop :=
  status (finish m) = 200%Z -> exists key text, In (EParse key text) (snd m).

(** Whatever [m] returns early satisfies [P]. *)
Definition returns {A} (P : Response -> Prop) (m : M A) : Prop :=
  match fst m with
  | Returned r => P r
  | _ => True
  end.

(** The body of the request is a JSON text and destructuring it gives
    [filePath]. *)
Definition body_filePath (req : Request) (filePath : value) : Prop :=
  exists parsed,
    JSON.parse (req_body req) = Ok parsed
    /\ get (Val parsed) (js "filePath") = Ok filePath.

(** The request names a file the storage has, and the gateway credential is
    configured: the handler gets as far as its OCR step. *)
Definition document_loaded (w : World) (env : Env) (req : Request)
    (path : jsstring) (fileData : list byte) (key : jsstring) : Prop :=
  JsString.eqb (method req) (js "OPTIONS") = false
  /\ body_filePath req (str path)
  /\ path <> []
  /\ storage_download w (str path) = Downloaded fileData
  /\ LOVABLE_API_KEY env = Some key
  /\ key <> [].

(** The handler from the end of its OCR step on, when that step ended in
    [o]: the text is sent to the structuring call and its answer returned. *)
Definition after_ocr (w : World) (key : jsstring) (o : outcome value)
  : M Response :=
  let* extractedText := (o, []) in
  let* _ := lift (get extractedText (js "length")) in
  let* aiResponse :=
    fetch (EParse key (ToString extractedText))
          (gateway_parse w key (ToString extractedText)) in
  structuring_answer aiResponse.

Definition is_gemini (e : Event) : bool :=
  match e with EGeminiOcr _ _ _ => true | _ => false end.

Definition is_filestack (e : Event) : bool :=
  match e with EFilestackStore _ _ | EFilestackOcr _ _ => true | _ => false end.

(** How often a kind of call was made. *)
Definition count (kind : Event -> bool) (calls : list Event) : nat :=
  length (List.filter kind calls).

(** The questions with their indices. *)
Definition numbered_from (idx : nat) (questions : list Question)
  : list (nat * Question) :=
  combine (seq idx (length questions)) questions.

(** The recorded answer at [idx] is the correct answer of [q]. *)
Definition answered_correctly (answers : gmap nat jsstring)
    (iq : nat * Question) : bool :=
  JsString.eqb (answer_at answers (fst iq)) (correctAnswer (snd iq)).


(** The digits of the encoding of [s], as numbers, without the padding. *)
Fixpoint encode_digits (s : list N) : list N :=
  match s with
  | [] => []
  | [a] => [a / 4; (a mod 4) * 16]
  | [a; b] => [a / 4; (a mod 4) * 16 + b / 16; (b mod 16) * 4]
  | a :: b :: c :: rest =>
      a / 4 :: (a mod 4) * 16 + b / 16 :: (b mod 16) * 4 + c / 64 :: c mod 64
      :: encode_digits rest
  end%N.

(** The padding of the encoding of [s]. *)
Fixpoint padding (s : list N) : jsstring :=
  match s with
  | [] => []
  | [_] => [pad; pad]
  | [_; _] => [pad]
  | _ :: _ :: _ :: rest => padding rest
  end.

Definition octets (s : jsstring) : Prop := List.Forall (fun c => (c < 256)%N) s.

(** ** Sample requests and worlds *)

(** Test texts write ['] where the JSON text has a double quote. *)
Definition fixture (s : string) : jsstring :=
  List.map (fun c => if N.eqb c (ch "'") then dquote else c) (js s).

Definition throws {A} (r : result A) : bool :=
  match r with Throw _ => true | Ok _ => false end.

(** A string literal of a JSON text. *)
Definition quoted (s : jsstring) : jsstring :=
  [dquote]
  ++ List.concat
       (List.map (fun c =>
                    if N.eqb c dquote then [backslash; dquote]
                    else if N.eqb c backslash then [backslash; backslash]
                    else if N.eqb c newline then [backslash; ch "n"]
                    else [c]) s)
  ++ [dquote].

(** The body of a chat completion whose message is [content]. *)
Definition chat_answer (content : jsstring) : jsstring :=
  fixture "{'choices':[{'message':{'role':'assistant','content':"
  ++ quoted content ++ js "}}]}".

Definition post (body : jsstring) : Request :=
  {| method := js "POST"; req_body := body |}.

Definition both_keys : Env :=
  {| LOVABLE_API_KEY := Some (js "lov-key"); OCR_API_KEY := Some (js "ocr-key") |}.

Definition gateway_only : Env :=
  {| LOVABLE_API_KEY := Some (js "lov-key"); OCR_API_KEY := None |}.

Definition sample_bytes : list byte := List.repeat x2a%byte 50.

Definition sample_ocr_text : jsstring :=
  js "1. What is 2+2? A) 3 B) 4 C) 5 D) 6 Answer: B".

Definition sample_questions_text : jsstring :=
  fixture "[{'question':'What is 2+2?','options':['3','4','5','6'],'correctAnswer':'B'}]".

(** A world in which the storage has the file, Filestack is down, and the
    gateway transcribes and then structures. *)
Definition sample_world (structured : FetchResult) : World :=
  {| storage_download := fun _ => Downloaded sample_bytes;
     filestack_store := fun _ _ => Responded 503 (js "unavailable");
     filestack_ocr := fun _ _ => Rejected (js "unreachable");
     gemini_ocr := fun _ _ _ => Responded 200 (chat_answer sample_ocr_text);
     gateway_parse := fun _ _ => structured |}.

Definition sample_base64 : jsstring :=
  match chunked_base64 sample_bytes with
  | Ok b => b
  | Throw _ => []
  end.

Definition unvalidated_output : jsstring :=
  fixture "[{'question':'Q','options':['yes','no'],'correctAnswer':'E'}, 7]".

(** A world in which Filestack stores the file and transcribes it with the
    given OCR answer. *)
Definition filestack_world (ocr_answer : jsstring) : World :=
  {| storage_download := fun _ => Downloaded sample_bytes;
     filestack_store := fun _ _ => Responded 200 (fixture "{'handle':'h1'}");
     filestack_ocr := fun _ _ => Responded 200 ocr_answer;
     gemini_ocr := fun _ _ _ => Rejected (js "not expected");
     gateway_parse := fun _ _ => Responded 200 (chat_answer (js "[]")) |}.

(** ** Vocabulary of the further properties *)

(** The answers the handler builds: an error with one of four statuses, or
    a questions array. *)
Definition standard_answer (r : Response) : Prop :=
  (exists st msg, r = error_response st msg /\ In st [400; 402; 429; 500]%Z)
  \/ (exists elems, r = questions_response (JArray elems)).

(** The place of a call in the pipeline. *)
Definition call_rank (e : Event) : nat :=
  match e with
  | EDownload _ => 0
  | EFilestackStore _ _ => 1
  | EFilestackOcr _ _ => 2
  | EGeminiOcr _ _ _ => 3
  | EParse _ _ => 4
  end.

(** The calls are made in pipeline order, each kind at most once, and all
    have their place in [lo, hi). *)
Definition paced (lo hi : nat) (calls : list Event) : Prop :=
  StronglySorted lt (List.map call_rank calls)
  /\ List.Forall (fun e => lo <= call_rank e < hi) calls.

(** A world whose storage does not have the file. *)
Definition no_file_world : World :=
  {| storage_download := fun _ => DownloadError (js "Object not found");
     filestack_store := fun _ _ => Rejected (js "not expected");
     filestack_ocr := fun _ _ => Rejected (js "not expected");
     gemini_ocr := fun _ _ _ => Rejected (js "not expected");
     gateway_parse := fun _ _ => Rejected (js "not expected") |}.

(** A world whose gateway answers the OCR request with [ocr_answer]. *)
Definition gemini_world (ocr_answer : FetchResult) : World :=
  {| storage_download := fun _ => Downloaded sample_bytes;
     filestack_store := fun _ _ => Rejected (js "not expected");
     filestack_ocr := fun _ _ => Rejected (js "not expected");
     gemini_ocr := fun _ _ _ => ocr_answer;
     gateway_parse := fun _ _ => Responded 200 (chat_answer (js "[]")) |}.

Definition no_keys : Env :=
  {| LOVABLE_API_KEY := None; OCR_API_KEY := None |}.

(** What [m] yields, when it completes, satisfies [P]. *)
Definition yields {A} (P : A -> Prop) (m : M A) : Prop :=
  match fst m with
  | Value a => P a
  | _ => True
  end.

(** A value whose [length] can be read: the empty string or anything
    truthy. *)
Definition empty_or_truthy (v : value) : Prop :=
  v = str [] \/ truthy v = true.


(** A run of [processFile] that does not reach the exam: whatever it logs,
    it ends with one destructive toast and the reset of the upload flag. *)
Definition gives_up (effects : list UiEffect) : Prop :=
  exists log title description,
    effects = log ++ [Toast title description (js "destructive");
                      SetIsUploading false]
    /\ List.Forall (fun e => exists reason, e = ConsoleError reason) log.

(** The storage key [processFile] uploads the file under. *)
Definition storage_key (b : Browser) (f : File) : jsstring :=
  decimal (now b) ++ js "." ++ fileExt_of (name f).

(** A world of the single-stage handler in which the storage has the file
    and the gateway gives [answer]. *)
Definition direct_world (answer : FetchResult) : Direct.World :=
  {| Direct.storage_download := fun _ => Downloaded sample_bytes;
     Direct.gateway_extract := fun _ _ _ => answer |}.

(** The call is the storage download, not one to a provider. *)
Definition storage_call (e : Event) : Prop := call_rank e = 0.
(* ================================================================== *)
(** * Properties *)

(** ** Base64 *)

Example btoa_rfc4648 :
  btoa (js "") = Ok (js "") /\ btoa (js "f") = Ok (js "Zg==")
  /\ btoa (js "fo") = Ok (js "Zm8=") /\ btoa (js "foo") = Ok (js "Zm9v")
  /\ btoa (js "foob") = Ok (js "Zm9vYg==")
  /\ btoa (js "fooba") = Ok (js "Zm9vYmE=")
  /\ btoa (js "foobar") = Ok (js "Zm9vYmFy").
Proof. repeat split; reflexivity. Qed.

Example chunk_loop_small :
  chunk_loop 2 [x01; x02; x03; x04; x05]%byte 0 [] = [1; 2; 3; 4; 5]%N.
Proof. reflexivity. Qed.

Lemma to_N_octet (b : byte) : (Byte.to_N b <=? 255)%N = true.
Proof. apply N.leb_le. pose proof (Byte.to_N_bounded b). lia. Qed.

Lemma fromCharCode_octets (a : list byte) :
  forallb (fun c => (c <=? 255)%N) (fromCharCode a) = true.
Proof.
  unfold fromCharCode. induction a as [|b a IH]; simpl; [reflexivity|].
  now rewrite to_N_octet, IH.
Qed.

(** The loop appends, chunk after chunk, exactly the code units of the rest
    of the array. *)
Lemma chunk_loop_spec (c : positive) (a : list byte) (i : nat) (acc : jsstring) :
  chunk_loop c a i acc = acc ++ fromCharCode (skipn i a).
Proof.
  funelim (chunk_loop c a i acc).
  - match goal with IH : chunk_loop _ _ _ _ = _ ++ _ |- _ => rewrite IH end.
    rewrite <- app_assoc. f_equal. unfold subarray, fromCharCode.
    rewrite <- List.map_app. f_equal.
    replace (i + Pos.to_nat chunkSize0 - i) with (Pos.to_nat chunkSize0) by lia.
    rewrite Nat.add_comm, <- skipn_skipn.
    apply firstn_skipn.
  - rewrite skipn_all2 by lia. now rewrite app_nil_r.
Qed.

Lemma chunked_base64_value (uint8Array : list byte) (c : positive) :
  btoa (chunk_loop c uint8Array 0 []) = Ok (encode (fromCharCode uint8Array)).
Proof.
  rewrite chunk_loop_spec. simpl. unfold btoa.
  now rewrite fromCharCode_octets.
Qed.

(** C1. For every byte array, of any length (the empty one included), the
    base64 text the handler builds chunk by chunk, 8192 bytes at a time, is
    the text [btoa] gives for the whole array at once; it is the same for
    every other positive chunk size, and the encoding never throws. *)
Theorem chunked_base64_eq_whole (uint8Array : list byte) :
  chunked_base64 uint8Array = whole_base64 uint8Array
  /\ (forall c : positive,
        btoa (chunk_loop c uint8Array 0 []) = whole_base64 uint8Array)
  /\ chunked_base64 uint8Array = Ok (encode (fromCharCode uint8Array))
  /\ chunked_base64 [] = Ok [].
Proof.
  assert (W : whole_base64 uint8Array = Ok (encode (fromCharCode uint8Array))).
  { unfold whole_base64, btoa. now rewrite fromCharCode_octets. }
  unfold chunked_base64. rewrite W.
  split; [apply chunked_base64_value|].
  split; [intros c; apply chunked_base64_value|].
  split; [apply chunked_base64_value | reflexivity].
Qed.

(** *** [atob] undoes [btoa] *)

Lemma list_ind3 (P : list N -> Prop) :
  P [] -> (forall a, P [a]) -> (forall a b, P [a; b]) ->
  (forall a b c rest, P rest -> P (a :: b :: c :: rest)) ->
  forall s, P s.
Proof.
  intros H0 H1 H2 H3.
  fix IH 1. intros [|a [|b [|c rest]]]; [exact H0 | apply H1 | apply H2 |].
  apply H3, IH.
Qed.

Lemma encode_split (s : list N) :
  encode s = List.map digit (encode_digits s) ++ padding s.
Proof.
  induction s as [|a|a b|a b c rest IH] using list_ind3;
    try reflexivity.
  change (encode (a :: b :: c :: rest))
    with (digit (a / 4) :: digit ((a mod 4) * 16 + b / 16)
          :: digit ((b mod 16) * 4 + c / 64) :: digit (c mod 64)
          :: encode rest)%N.
  now rewrite IH.
Qed.

Lemma div_pack (m x y : N) : (x < m)%N -> ((y * m + x) / m = y)%N.
Proof.
  intros H. rewrite N.add_comm, N.div_add by lia.
  rewrite N.div_small by lia. lia.
Qed.

Lemma mod_pack (m x y : N) : (x < m)%N -> ((y * m + x) mod m = x)%N.
Proof.
  intros H. rewrite N.add_comm, N.Div0.mod_add. now apply N.mod_small.
Qed.

Lemma octet_parts (c : N) :
  (c < 256)%N ->
  (c / 4 < 64 /\ c / 16 < 16 /\ c / 64 < 4
   /\ c mod 4 < 4 /\ c mod 16 < 16 /\ c mod 64 < 64
   /\ c / 4 * 4 + c mod 4 = c /\ c / 16 * 16 + c mod 16 = c
   /\ c / 64 * 64 + c mod 64 = c)%N.
Proof.
  intros H.
  pose proof (N.div_mod c 4 ltac:(lia)).
  pose proof (N.div_mod c 16 ltac:(lia)).
  pose proof (N.div_mod c 64 ltac:(lia)).
  pose proof (N.mod_lt c 4 ltac:(lia)).
  pose proof (N.mod_lt c 16 ltac:(lia)).
  pose proof (N.mod_lt c 64 ltac:(lia)).
  repeat split; try lia;
    apply N.Div0.div_lt_upper_bound; lia.
Qed.

Lemma encode_digits_bound (s : list N) :
  octets s -> List.Forall (fun d => (d < 64)%N) (encode_digits s).
Proof.
  unfold octets.
  induction s as [|a|a b|a b c rest IH] using list_ind3; intros H; simpl.
  - constructor.
  - inversion H as [|? ? Ha _]; subst.
    pose proof (octet_parts Ha). repeat constructor; lia.
  - inversion H as [|? ? Ha H']; subst. inversion H' as [|? ? Hb _]; subst.
    pose proof (octet_parts Ha). pose proof (octet_parts Hb).
    repeat constructor; lia.
  - inversion H as [|? ? Ha H']; subst. inversion H' as [|? ? Hb H'']; subst.
    inversion H'' as [|? ? Hc Hrest]; subst.
    pose proof (octet_parts Ha). pose proof (octet_parts Hb).
    pose proof (octet_parts Hc).
    repeat (constructor; [lia|]). now apply IH.
Qed.

Lemma decode_encode_digits (s : list N) :
  octets s -> decode (encode_digits s) = s.
Proof.
  unfold octets.
  induction s as [|a|a b|a b c rest IH] using list_ind3; intros H.
  - reflexivity.
  - inversion H as [|? ? Ha _]; subst. pose proof (octet_parts Ha).
    cbn [encode_digits decode]. f_equal.
    rewrite N.div_mul by lia. lia.
  - inversion H as [|? ? Ha H']; subst. inversion H' as [|? ? Hb _]; subst.
    pose proof (octet_parts Ha). pose proof (octet_parts Hb).
    cbn [encode_digits decode].
    rewrite div_pack, mod_pack by lia. rewrite N.div_mul by lia.
    repeat f_equal; lia.
  - inversion H as [|? ? Ha H']; subst. inversion H' as [|? ? Hb H'']; subst.
    inversion H'' as [|? ? Hc Hrest]; subst.
    pose proof (octet_parts Ha). pose proof (octet_parts Hb).
    pose proof (octet_parts Hc).
    cbn [encode_digits decode].
    rewrite !div_pack, !mod_pack by lia. rewrite IH by assumption.
    repeat f_equal; lia.
Qed.

Lemma nth_digit (n : nat) :
  n < 64 ->
  digit_value (List.nth n alphabet pad) = Some (N.of_nat n)
  /\ is_ascii_ws (List.nth n alphabet pad) = false
  /\ N.eqb (List.nth n alphabet pad) pad = false.
Proof.
  intros Hn.
  do 64 (destruct n as [|n]; [repeat split; reflexivity|]).
  lia.
Qed.

(** Every digit is a character of the alphabet, and is read back as its
    value. *)
Lemma digit_value_digit (i : N) :
  (i < 64)%N ->
  digit_value (digit i) = Some i
  /\ is_ascii_ws (digit i) = false /\ N.eqb (digit i) pad = false.
Proof.
  intros H. unfold digit.
  destruct (@nth_digit (N.to_nat i) ltac:(lia)) as (E1 & E2 & E3).
  rewrite N2Nat.id in E1. now repeat split.
Qed.

Lemma digit_values_digits (ds : list N) :
  List.Forall (fun d => (d < 64)%N) ds ->
  digit_values (List.map digit ds) = Some ds.
Proof.
  induction 1 as [|d ds Hd _ IH]; simpl; [reflexivity|].
  destruct (digit_value_digit Hd) as (-> & _ & _). now rewrite IH.
Qed.

Lemma filter_digits (ds : list N) :
  List.Forall (fun d => (d < 64)%N) ds ->
  List.filter (fun c => negb (is_ascii_ws c)) (List.map digit ds)
  = List.map digit ds.
Proof.
  induction 1 as [|d ds Hd _ IH]; simpl; [reflexivity|].
  destruct (digit_value_digit Hd) as (_ & -> & _). simpl. now rewrite IH.
Qed.

Lemma padding_cases (s : list N) :
  (padding s = [] /\ length (encode_digits s) mod 4 = 0)
  \/ (padding s = [pad] /\ length (encode_digits s) mod 4 = 3)
  \/ (padding s = [pad; pad] /\ length (encode_digits s) mod 4 = 2).
Proof.
  induction s as [|a|a b|a b c rest IH] using list_ind3;
    [simpl; auto | simpl; auto | simpl; auto |].
  cbn [padding encode_digits length].
  replace (S (S (S (S (length (encode_digits rest))))))
    with (length (encode_digits rest) + 1 * 4) by lia.
  now rewrite Nat.Div0.mod_add.
Qed.

Lemma last_digit_not_pad (ds : list N) (x : N) (r : list N) :
  List.Forall (fun d => (d < 64)%N) ds ->
  rev (List.map digit ds) = x :: r -> N.eqb x pad = false.
Proof.
  intros H E.
  assert (Hin : In x (List.map digit ds)).
  { apply in_rev. rewrite E. now left. }
  apply in_map_iff in Hin as (d & <- & Hd).
  rewrite List.Forall_forall in H.
  now destruct (digit_value_digit (H d Hd)) as (_ & _ & ->).
Qed.

Lemma strip_padding_encode (s : list N) :
  octets s -> strip_padding (encode s) = List.map digit (encode_digits s).
Proof.
  intros H. apply encode_digits_bound in H.
  rewrite encode_split. unfold strip_padding.
  rewrite length_app, length_map.
  set (core := List.map digit (encode_digits s)) in *.
  destruct (padding_cases s) as [[-> Hl]|[[-> Hl]|[-> Hl]]]; simpl length.
  - rewrite Nat.add_0_r, Hl, app_nil_r. simpl.
    destruct (rev core) as [|x r] eqn:E; [reflexivity|].
    now rewrite (last_digit_not_pad H E).
  - replace ((length (encode_digits s) + 1) mod 4) with 0
      by (rewrite <- Nat.Div0.add_mod_idemp_l, Hl; reflexivity).
    simpl. rewrite rev_app_distr. simpl.
    destruct (rev core) as [|y r'] eqn:E.
    + now rewrite <- (rev_involutive core), E.
    + rewrite (last_digit_not_pad H E), <- E. apply rev_involutive.
  - replace ((length (encode_digits s) + 2) mod 4) with 0
      by (rewrite <- Nat.Div0.add_mod_idemp_l, Hl; reflexivity).
    simpl. rewrite rev_app_distr. simpl.
    apply rev_involutive.
Qed.

Lemma filter_encode (s : list N) :
  octets s ->
  List.filter (fun c => negb (is_ascii_ws c)) (encode s) = encode s.
Proof.
  intros H. apply encode_digits_bound in H.
  rewrite encode_split, List.filter_app, (filter_digits H). f_equal.
  now destruct (padding_cases s) as [[-> _]|[[-> _]|[-> _]]].
Qed.

(** [atob(btoa(s))] is [s]. *)
Lemma atob_encode (s : list N) : octets s -> atob (encode s) = Ok s.
Proof.
  intros H. unfold atob.
  rewrite (filter_encode H), (strip_padding_encode H), length_map.
  rewrite (digit_values_digits (encode_digits_bound H)).
  rewrite (decode_encode_digits H).
  now destruct (padding_cases s) as [[_ ->]|[[_ ->]|[_ ->]]].
Qed.

Lemma fromCharCode_is_octets (a : list byte) : octets (fromCharCode a).
Proof.
  unfold octets, fromCharCode. apply List.Forall_forall. intros c Hc.
  apply in_map_iff in Hc as (b & <- & _).
  pose proof (Byte.to_N_bounded b). lia.
Qed.

Lemma byte_of_unit_to_N (a : list byte) :
  List.map byte_of_unit (fromCharCode a) = a.
Proof.
  unfold fromCharCode. rewrite List.map_map.
  rewrite <- (List.map_id a) at 2. apply List.map_ext. intros b.
  unfold byte_of_unit. pose proof (Byte.to_N_bounded b).
  rewrite N.mod_small by lia. now rewrite Byte.of_to_N.
Qed.

(** ** [JSON.parse] on sample texts *)


Example parse_samples :
  JSON.parse (js "[]") = Ok (JArray [])
  /\ JSON.parse (js " [ ] ") = Ok (JArray [])
  /\ JSON.parse (js "{}") = Ok (JObject [])
  /\ JSON.parse (js "[1, -2.50e+3 ,true,null]")
     = Ok (JArray [JNumber (js "1"); JNumber (js "-2.50e+3"); JBool true; JNull])
  /\ JSON.parse (fixture "{'a':[{'b':'c\nA'}],'d':{}}")
     = Ok (JObject [(js "a", JArray [JObject [(js "b", JString [99; 10; 65]%N)]]);
                    (js "d", JObject [])])
  /\ JSON.parse (fixture "'x'") = Ok (JString (js "x"))
  /\ JSON.parse (js "0") = Ok (JNumber (js "0")).
Proof. repeat split; reflexivity. Qed.


Example parse_rejects :
  forallb (fun t => throws (JSON.parse t))
    [js ""; js "["; js "]"; js "[1,]"; js "[,1]"; js "{,}"; js "01"; js "1."; js "-";
     js "1e"; js "tru"; js "truex"; js "nul l"; js "[1 2]"; js "[] []"; js "[]]";
     fixture "{'a'}"; fixture "{'a':}"; fixture "{'a':1,}"; fixture "{1:2}";
     fixture "'abc"; fixture "'\x'"; fixture "'\u12G4'"; fixture "['a' 'b']";
     js "Sure, here are the questions"; [dquote; 9; dquote]%N; [160; 91; 93]%N]
  = true.
Proof. reflexivity. Qed.

Example atob_samples :
  atob (js "Zm9vYmFy") = Ok (js "foobar") /\ atob (js "Zm9vYg==") = Ok (js "foob")
  /\ atob (js "Zm9vYmE=") = Ok (js "fooba") /\ atob (js "Zm9vYg") = Ok (js "foob")
  /\ atob (js " Zm9v YmE= ") = Ok (js "fooba") /\ atob (js "") = Ok (js "")
  /\ throws (atob (js "Zm9vY")) = true /\ throws (atob (js "Zm9v=mE=")) = true
  /\ throws (atob (js "Zm9-")) = true.
Proof. repeat split; reflexivity. Qed.

(** ** Numbers *)

(** The Number a lexeme denotes: zero also by underflow, and printed in the
    canonical form of the nearest double. *)
Example number_samples :
  List.map number_is_zero
    [js "0"; js "-0.0"; js "0e99"; js "1e-400"; js "2.4703282292062327e-324";
     js "2.4703282292062329e-324"; js "5e-324"; js "0.001"]
  = [true; true; true; true; true; false; false; false]
  /\ List.map number_to_string
       [js "1e2"; js "5.0"; js "-0"; js "0.1"; js "1e21"; js "1e-7";
        js "9007199254740993"; js "1e999"; js "-1e999"; js "1e-400"]
     = [js "100"; js "5"; js "0"; js "0.1"; js "1e+21"; js "1e-7";
        js "9007199254740992"; js "Infinity"; js "-Infinity"; js "0"]
  /\ truthy (Val (JNumber (js "1e-400"))) = false
  /\ ToString (Val (JArray [JNumber (js "1.50"); JNull; JString (js "a")]))
     = js "1.5,,a".
Proof. vm_compute. repeat split; reflexivity. Qed.

(** ** Strings *)

Lemma eqb_eq (s t : jsstring) : JsString.eqb s t = true <-> s = t.
Proof.
  revert t. induction s as [|c s IH]; intros [|d t]; simpl; split;
    try congruence; try reflexivity.
  - intros H. apply andb_true_iff in H as [Hc Hs].
    apply N.eqb_eq in Hc. apply IH in Hs. congruence.
  - intros H. injection H as -> ->. rewrite N.eqb_refl. now apply IH.
Qed.

Lemma eqb_refl (s : jsstring) : JsString.eqb s s = true.
Proof. now apply eqb_eq. Qed.

Lemma startsWith_prefix (p s : jsstring) :
  startsWith p s = true <-> exists rest, s = p ++ rest.
Proof.
  revert s. induction p as [|c p IH]; intros s; simpl.
  - split; [intros _; now exists s | reflexivity].
  - destruct s as [|d s].
    + split; [discriminate | intros [rest H]; discriminate].
    + rewrite andb_true_iff, N.eqb_eq, IH. split.
      * intros [-> [rest ->]]. now exists rest.
      * intros [rest H]. injection H as -> ->. eauto.
Qed.

Lemma endsWith_suffix (s p : jsstring) :
  endsWith s p = true <-> exists pre, s = pre ++ p.
Proof.
  unfold endsWith. rewrite andb_true_iff, Nat.leb_le, eqb_eq. split.
  - intros [_ H]. exists (firstn (length s - length p) s).
    pose proof (firstn_skipn (length s - length p) s) as E.
    rewrite H in E. now symmetry.
  - intros [pre ->]. rewrite length_app. split; [lia|].
    replace (length pre + length p - length p) with (length pre + 0) by lia.
    rewrite skipn_app, skipn_all2 by lia.
    now replace (length pre + 0 - length pre) with 0 by lia.
Qed.

(** ** C8: the MIME kind *)




Lemma lower_unit_same_letter (c d : N) :
  ~ (65 <= d <= 90)%N -> lower_unit c = d <-> same_letter c d.
Proof.
  intros Hd. unfold lower_unit, same_letter.
  destruct ((65 <=? c)%N && (c <=? 90)%N) eqn:E.
  - apply andb_true_iff in E as [E1 E2].
    apply N.leb_le in E1, E2. lia.
  - apply andb_false_iff in E as [E|E]; apply N.leb_gt in E; lia.
Qed.

Lemma lowered_same_letters (suffix ext : jsstring) :
  no_upper ext ->
  toLowerCase suffix = ext <-> Forall2 same_letter suffix ext.
Proof.
  unfold toLowerCase. intros Hext. revert suffix.
  induction Hext as [|d ext Hd Hext IH]; intros [|c suffix]; simpl.
  - split; [constructor | reflexivity].
  - split; [discriminate | intros H; inversion H].
  - split; [discriminate | intros H; inversion H].
  - split.
    + intros H. injection H as H1 H2. constructor.
      * now apply lower_unit_same_letter.
      * now apply IH.
    + intros H. inversion H; subst. f_equal.
      * now apply lower_unit_same_letter.
      * now apply IH.
Qed.

(** The suffix test of the handler decides [has_extension]. *)
Lemma endsWith_lowered (key ext : jsstring) :
  no_upper ext ->
  endsWith (toLowerCase key) ext = true <-> has_extension key ext.
Proof.
  intros Hext. rewrite endsWith_suffix. unfold has_extension. split.
  - intros [pre H]. unfold toLowerCase in H.
    apply List.map_eq_app in H as (stem & suffix & -> & _ & H).
    exists stem, suffix. split; [reflexivity|].
    now apply lowered_same_letters.
  - intros (stem & suffix & -> & H).
    exists (toLowerCase stem). unfold toLowerCase at 1.
    rewrite List.map_app. f_equal. now apply lowered_same_letters.
Qed.

Ltac no_upper_tac :=
  unfold no_upper; apply List.Forall_forall;
  let d := fresh "d" in let H := fresh "H" in
  intros d H; simpl in H;
  repeat (destruct H as [H|H]; [subst d; lia|]); contradiction.

Lemma pdf_not_jpeg (s : jsstring) :
  endsWith s (js ".pdf") = true ->
  endsWith s (js ".jpg") || endsWith s (js ".jpeg") = false.
Proof.
  intros H. apply endsWith_suffix in H as [pre ->].
  apply orb_false_iff. split; apply not_true_iff_false; intros H;
    apply endsWith_suffix in H as [pre' H];
    apply (f_equal (@rev N)) in H; rewrite !rev_app_distr in H;
    simpl in H; discriminate.
Qed.

(** C8. The MIME kind is a function of the key alone, decided by its
    ending without regard to letter case: a key ending in [.pdf] is
    [application/pdf], one ending in [.jpg] or [.jpeg] is [image/jpeg], and
    every other key, one without any extension included, is [image/png]. *)
Theorem mimeType_of_extension (key : jsstring) :
  (has_extension key (js ".pdf") -> mimeType_of key = js "application/pdf")
  /\ (has_extension key (js ".jpg") \/ has_extension key (js ".jpeg") ->
      mimeType_of key = js "image/jpeg")
  /\ (~ has_extension key (js ".pdf") -> ~ has_extension key (js ".jpg") ->
      ~ has_extension key (js ".jpeg") -> mimeType_of key = js "image/png")
  /\ (is_pdf key = true <-> has_extension key (js ".pdf")).
Proof.
  assert (Hpdf := @endsWith_lowered key (js ".pdf") ltac:(no_upper_tac)).
  assert (Hjpg := @endsWith_lowered key (js ".jpg") ltac:(no_upper_tac)).
  assert (Hjpeg := @endsWith_lowered key (js ".jpeg") ltac:(no_upper_tac)).
  unfold mimeType_of, is_pdf. repeat split.
  - intros H. apply Hpdf in H. now rewrite H.
  - intros H.
    assert (E : endsWith (toLowerCase key) (js ".jpg")
                || endsWith (toLowerCase key) (js ".jpeg") = true).
    { apply orb_true_iff. destruct H as [H|H]; [left; now apply Hjpg
                                               | right; now apply Hjpeg]. }
    destruct (endsWith (toLowerCase key) (js ".pdf")) eqn:P.
    + apply pdf_not_jpeg in P. congruence.
    + now rewrite E.
  - intros N1 N2 N3.
    destruct (endsWith (toLowerCase key) (js ".pdf")) eqn:P;
      [exfalso; now apply N1, Hpdf|].
    destruct (endsWith (toLowerCase key) (js ".jpg")) eqn:J;
      [exfalso; now apply N2, Hjpg|].
    destruct (endsWith (toLowerCase key) (js ".jpeg")) eqn:J';
      [exfalso; now apply N3, Hjpeg|].
    reflexivity.
  - apply Hpdf.
  - apply Hpdf.
Qed.

Lemma has_extension_intro (stem suffix ext : jsstring) :
  toLowerCase suffix = ext -> no_upper ext ->
  has_extension (stem ++ suffix) ext.
Proof.
  intros H Hext. exists stem, suffix. split; [reflexivity|].
  now apply lowered_same_letters.
Qed.

Lemma mimeType_of_extension_witness :
  mimeType_of (js "Scan.PdF") = js "application/pdf"
  /\ mimeType_of (js "photo.JPEG") = js "image/jpeg".
Proof.
  split.
  - apply (proj1 (mimeType_of_extension (js "Scan.PdF"))).
    apply (@has_extension_intro (js "Scan") (js ".PdF"));
      [reflexivity | no_upper_tac].
  - apply (proj1 (proj2 (mimeType_of_extension (js "photo.JPEG")))).
    right. apply (@has_extension_intro (js "photo") (js ".JPEG"));
      [reflexivity | no_upper_tac].
Defined.

Example mimeType_samples :
  mimeType_of (js "123.png") = js "image/png"
  /\ mimeType_of (js "noextension") = js "image/png"
  /\ mimeType_of (js "") = js "image/png"
  /\ mimeType_of (js "a.pdf.gif") = js "image/png"
  /\ mimeType_of (js "x.JpG") = js "image/jpeg"
  /\ mimeType_of (js ".PDF") = js "application/pdf".
Proof. repeat split; reflexivity. Qed.

(** ** C7: the fence markers *)

Example cleanedText_samples :
  cleanedText (fence_json ++ [newline] ++ js "[1, 2]" ++ [newline] ++ fence)
     = js "[1, 2]"
  /\ cleanedText (fence ++ [newline] ++ js "[]" ++ [newline] ++ fence ++ [newline])
     = js "[]"
  /\ cleanedText (js "  [] ") = js "[]"
  /\ cleanedText (js "a```b```json```c") = js "abc".
Proof. repeat split; reflexivity. Qed.


Lemma occurs_cons (marker : jsstring) (c : N) (text : jsstring) :
  occurs marker text -> occurs marker (c :: text).
Proof. intros (b & a & ->). now exists (c :: b), a. Qed.

Lemma occurs_fence_json (text : jsstring) :
  occurs fence_json text -> occurs fence text.
Proof. intros (b & a & ->). now exists b, (js "json" ++ a). Qed.

(** The two clauses of [replace_all] as one equation. *)
Lemma replace_all_cons (marker : jsstring) (c : N) (rest : jsstring) :
  replace_all marker (c :: rest) =
  if startsWith marker (c :: rest)
  then replace_all marker (drop_newline (skipn (pred (length marker)) rest))
  else c :: replace_all marker rest.
Proof.
  simp replace_all. destruct (startsWith marker (c :: rest)); reflexivity.
Qed.

(** A text in which the marker does not occur is left as it is. *)
Lemma replace_all_absent (marker text : jsstring) :
  ~ occurs marker text -> replace_all marker text = text.
Proof.
  induction text as [|c rest IH]; intros H.
  - now simp replace_all.
  - rewrite replace_all_cons.
    destruct (startsWith marker (c :: rest)) eqn:E.
    + exfalso. apply H. apply startsWith_prefix in E as [after E].
      now exists [], after.
    + f_equal. apply IH. intros Ho. apply H. now apply occurs_cons.
Qed.

Lemma occurs_drop_newline (marker text : jsstring) :
  occurs marker (drop_newline text) -> occurs marker text.
Proof.
  destruct text as [|c rest]; simpl; [easy|].
  destruct (N.eqb c newline); [apply occurs_cons | easy].
Qed.

(** Appending the closing fence to a fence-free text creates no
    [```json]. *)
Lemma fence_json_absent (inner : jsstring) :
  ~ occurs fence inner -> ~ occurs fence_json (inner ++ fence).
Proof.
  intros H (b & a & E).
  change fence_json with (fence ++ js "json") in E.
  rewrite <- !app_assoc in E.
  rewrite (app_assoc b) in E.
  apply app_eq_app in E as [l [[E1 E2]|[E1 E2]]].
  - apply H. subst inner. rewrite <- app_assoc. now exists b, l.
  - apply (f_equal (@length N)) in E2. rewrite !length_app in E2.
    simpl in E2. lia.
Qed.

(** The closing fence behind a fence-free text is the one match. *)
Lemma replace_all_closing_fence (inner : jsstring) :
  ~ occurs fence inner -> replace_all fence (inner ++ fence) = inner.
Proof.
  induction inner as [|c rest IH]; intros H.
  - reflexivity.
  - simpl app. rewrite replace_all_cons.
    destruct (startsWith fence (c :: rest ++ fence)) eqn:E.
    + assert (Hc : forall after, c :: rest <> fence ++ after).
      { intros after Ha. apply H. now exists [], after. }
      apply startsWith_prefix in E as [after E].
      change fence with [96; 96; 96]%N in *.
      destruct rest as [|x [|y rest]]; simpl in E.
      * injection E as -> _. reflexivity.
      * injection E as -> -> _. reflexivity.
      * injection E as -> -> -> _. exfalso. now apply (Hc rest).
    + f_equal. apply IH. intros Ho. apply H. now apply occurs_cons.
Qed.

Lemma replace_all_at_marker (m : N) (marker rest : jsstring) :
  replace_all (m :: marker) ((m :: marker) ++ rest)
  = replace_all (m :: marker) (drop_newline rest).
Proof.
  simpl app. rewrite replace_all_cons.
  assert (E : startsWith (m :: marker) (m :: marker ++ rest) = true).
  { apply startsWith_prefix. now exists rest. }
  rewrite E. simpl pred.
  now rewrite skipn_app, skipn_all, Nat.sub_diag.
Qed.

Lemma drop_newline_app_fence (inner : jsstring) :
  drop_newline (inner ++ fence) = drop_newline inner ++ fence.
Proof.
  destruct inner as [|c rest]; [reflexivity|].
  simpl. now destruct (N.eqb c newline).
Qed.

Lemma trim_drop_newline (text : jsstring) :
  trim (drop_newline text) = trim text.
Proof.
  destruct text as [|c rest]; [reflexivity|]. simpl.
  destruct (N.eqb_spec c newline) as [->|_]; reflexivity.
Qed.

(** A fenced block whose content holds no fence is cut down to its trimmed
    content. *)
Lemma cleanedText_fenced (inner : jsstring) :
  ~ occurs fence inner ->
  cleanedText (fence_json ++ inner ++ fence) = trim inner.
Proof.
  intros H. unfold cleanedText.
  assert (H' : ~ occurs fence (drop_newline inner)).
  { intros Ho. now apply H, occurs_drop_newline. }
  change fence_json with (96 :: js "``json")%N.
  rewrite replace_all_at_marker.
  change (96 :: js "``json")%N with fence_json.
  rewrite drop_newline_app_fence.
  rewrite (replace_all_absent (fence_json_absent H')).
  rewrite (replace_all_closing_fence H').
  apply trim_drop_newline.
Qed.

(** A text that holds no fence is only trimmed. *)
Lemma cleanedText_plain (text : jsstring) :
  ~ occurs fence text -> cleanedText text = trim text.
Proof.
  intros H. unfold cleanedText.
  rewrite (@replace_all_absent fence_json text).
  - now rewrite replace_all_absent.
  - intros Ho. now apply H, occurs_fence_json.
Qed.

(** *** Trimming and [JSON.parse] *)


Lemma trimStart_split (s : jsstring) :
  exists pre, s = pre ++ trimStart s /\ spaces pre.
Proof.
  induction s as [|c s (pre & E & Hpre)]; simpl.
  - exists []. split; [reflexivity | constructor].
  - destruct (is_js_space c) eqn:Hc.
    + exists (c :: pre). split; [now rewrite E at 1 | now constructor].
    + exists []. split; [reflexivity | constructor].
Qed.

Lemma trim_split (s : jsstring) :
  exists pre post, s = pre ++ trim s ++ post /\ spaces pre /\ spaces post.
Proof.
  destruct (trimStart_split s) as (pre & E & Hpre).
  destruct (trimStart_split (rev (trimStart s))) as (post & E' & Hpost).
  exists pre, (rev post). split; [|split]; [|assumption|].
  - unfold trim, trimEnd. rewrite <- rev_app_distr, <- E', rev_involutive.
    exact E.
  - now apply List.Forall_rev.
Qed.

Lemma js_space_cases (c : N) :
  is_js_space c = true ->
  (c = 9 \/ c = 10 \/ c = 11 \/ c = 12 \/ c = 13 \/ c = 32 \/ 160 <= c)%N.
Proof.
  unfold is_js_space. simpl existsb.
  rewrite !orb_true_iff, andb_true_iff, !N.eqb_eq, !N.leb_le. lia.
Qed.

Lemma lex_run_app (st : lex_state * list token) (a b : jsstring) :
  lex_run st (a ++ b)
  = match lex_run st a with
    | Some st' => lex_run st' b
    | None => None
    end.
Proof.
  revert st. induction a as [|c a IH]; intros st; simpl; [reflexivity|].
  destruct (lex_step st c); [apply IH | reflexivity].
Qed.


Ltac unit_tests c :=
  unfold ch, dquote, backslash in *; simpl N_of_ascii in *;
  repeat match goal with
         | |- context [N.eqb c ?k] =>
             destruct (N.eqb_spec c k); [lia|]
         | |- context [N.leb ?a ?b] =>
             destruct (N.leb_spec a b); [|try lia]; try lia
         | |- context [N.ltb ?a ?b] =>
             destruct (N.ltb_spec a b); [try lia|]; try lia
         end.

Section SpaceUnit.

Variable c : N.
Hypothesis Hc : is_js_space c = true.

Lemma space_lex_start (toks : list token) :
  lex_start c toks = Some (LStart, toks) \/ lex_start c toks = None.
Proof.
  destruct (js_space_cases Hc) as [->|[->|[->|[->|[->|[->|H]]]]]];
    try (left; reflexivity); try (right; reflexivity).
  right. unfold lex_start, is_json_ws, is_digit19. simpl existsb.
  unit_tests c. reflexivity.
Qed.

Lemma space_not_dquote : N.eqb c dquote = false.
Proof.
  destruct (js_space_cases Hc) as [->|[->|[->|[->|[->|[->|H]]]]]];
    try reflexivity.
  unit_tests c. reflexivity.
Qed.

Lemma space_unescape : N.eqb c (ch "u") = false /\ unescape c = None.
Proof.
  destruct (js_space_cases Hc) as [->|[->|[->|[->|[->|[->|H]]]]]];
    try (split; reflexivity).
  unfold unescape. unit_tests c. split; reflexivity.
Qed.

Lemma space_hex_value : hex_value c = None.
Proof.
  destruct (js_space_cases Hc) as [->|[->|[->|[->|[->|[->|H]]]]]];
    try reflexivity.
  unfold hex_value, is_digit. unit_tests c. reflexivity.
Qed.

Lemma space_num_step (n : num_state) : num_step n c = None.
Proof.
  destruct (js_space_cases Hc) as [->|[->|[->|[->|[->|[->|H]]]]]];
    try (destruct n; reflexivity).
  destruct n; unfold num_step, is_digit, is_digit19, is_e, is_sign;
    unit_tests c; reflexivity.
Qed.

End SpaceUnit.

#[local] Arguments ch : simpl never.
#[local] Arguments dquote : simpl never.
#[local] Arguments backslash : simpl never.

Lemma lex_start_literal_ok (c : N) (toks : list token)
    (st : lex_state * list token) :
  lex_start c toks = Some st -> literal_ok st.
Proof.
  unfold lex_start.
  repeat match goal with
         | |- context [if ?b then _ else _] => destruct b
         end;
    intros H; inversion H; subst; unfold literal_ok; simpl;
    try exact I; repeat constructor.
Qed.

Lemma lex_step_literal_ok (st st' : lex_state * list token) (c : N) :
  literal_ok st -> lex_step st c = Some st' -> literal_ok st'.
Proof.
  destruct st as [[|acc|acc|more code acc|n acc|rest t] toks];
    unfold literal_ok; simpl; intros Hok H.
  - now apply lex_start_literal_ok in H.
  - repeat match type of H with
           | context [if ?b then _ else _] => destruct b
           end; inversion H; exact I.
  - destruct (N.eqb c (ch "u")); [inversion H; exact I|].
    destruct (unescape c); inversion H; exact I.
  - destruct (hex_value c); [|discriminate].
    destruct more as [|[|more]]; inversion H; exact I.
  - destruct (num_step n c); [inversion H; exact I|].
    destruct (num_accepting n); [|discriminate].
    now apply lex_start_literal_ok in H.
  - destruct rest as [|x rest]; [discriminate|].
    destruct (N.eqb c x); [|discriminate].
    destruct rest; inversion H; subst; simpl; [exact I|].
    now inversion Hok.
Qed.

Lemma lex_run_literal_ok (text : jsstring) (st st' : lex_state * list token) :
  literal_ok st -> lex_run st text = Some st' -> literal_ok st'.
Proof.
  revert st. induction text as [|c text IH]; simpl; intros st Hok H.
  - now injection H as <-.
  - destruct (lex_step st c) as [st1|] eqn:E; [|discriminate].
    apply (IH st1); [|assumption]. now apply (lex_step_literal_ok Hok E).
Qed.

(** A white-space unit the lexer accepts does not change what the text
    lexes to if it ends there. *)
Lemma lex_step_space (st st' : lex_state * list token) (c : N) :
  is_js_space c = true -> literal_ok st ->
  lex_step st c = Some st' -> lex_finish st' = lex_finish st.
Proof.
  intros Hc Hok.
  destruct st as [[|acc|acc|more code acc|n acc|rest t] toks]; simpl.
  - destruct (space_lex_start Hc toks) as [-> | ->]; [|discriminate].
    now intros [= <-].
  - rewrite (space_not_dquote Hc).
    destruct (N.eqb c backslash); [now intros [= <-]|].
    destruct (c <? 32)%N; [discriminate | now intros [= <-]].
  - destruct (space_unescape Hc) as [-> ->]. discriminate.
  - rewrite (space_hex_value Hc). discriminate.
  - rewrite (space_num_step Hc).
    destruct (num_accepting n); [|discriminate].
    destruct (space_lex_start Hc (TNumber (rev acc) :: toks)) as [-> | ->];
      [|discriminate].
    now intros [= <-].
  - destruct rest as [|x rest]; [discriminate|].
    destruct (N.eqb_spec c x) as [->|_]; [|discriminate].
    unfold literal_ok in Hok. simpl in Hok. inversion Hok. congruence.
Qed.

Lemma lex_run_trailing (post : jsstring) (st st' : lex_state * list token) :
  spaces post -> literal_ok st ->
  lex_run st post = Some st' -> lex_finish st' = lex_finish st.
Proof.
  intros Hpost. revert st.
  induction Hpost as [|c post Hc Hpost IH]; simpl; intros st Hok H.
  - now injection H as <-.
  - destruct (lex_step st c) as [st1|] eqn:E; [|discriminate].
    rewrite (IH st1 (lex_step_literal_ok Hok E) H).
    now apply (lex_step_space Hc Hok).
Qed.

Lemma lex_run_leading (pre text : jsstring) (toks : list token)
    (st : lex_state * list token) :
  spaces pre ->
  lex_run (LStart, toks) (pre ++ text) = Some st ->
  lex_run (LStart, toks) text = Some st.
Proof.
  intros Hpre. induction Hpre as [|c pre Hc Hpre IH]; simpl; [easy|].
  destruct (space_lex_start Hc toks) as [-> | ->]; [exact IH | discriminate].
Qed.

(** White space around a text that lexes can be trimmed away. *)
Lemma lex_trimmed (pre core post : jsstring) (toks : list token) :
  spaces pre -> spaces post ->
  lex (pre ++ core ++ post) = Some toks -> lex core = Some toks.
Proof.
  unfold lex. intros Hpre Hpost H.
  destruct (lex_run (LStart, []) (pre ++ core ++ post)) as [st|] eqn:E;
    [|discriminate].
  apply (lex_run_leading Hpre) in E. rewrite lex_run_app in E.
  destruct (lex_run (LStart, []) core) as [st1|] eqn:E1; [|discriminate].
  assert (Hok : literal_ok st1).
  { now apply (@lex_run_literal_ok core (LStart, []) st1). }
  now rewrite <- (lex_run_trailing Hpost Hok E).
Qed.

(** What [JSON.parse] accepts, it accepts trimmed, with the same value. *)
Lemma parse_trim (text : jsstring) (v : json) :
  JSON.parse text = Ok v -> JSON.parse (trim text) = Ok v.
Proof.
  destruct (trim_split text) as (pre & post & E & Hpre & Hpost).
  unfold JSON.parse. intros H.
  destruct (lex text) as [toks|] eqn:L; [|discriminate].
  rewrite E in L. now rewrite (lex_trimmed Hpre Hpost L).
Qed.

(** Trimming takes away more than JSON white space: a no-break space before
    the text makes [JSON.parse] throw, but not once it is trimmed. *)
Example parse_trim_only_one_way :
  throws (JSON.parse ([160] ++ js "[]")%N) = true
  /\ JSON.parse (trim ([160] ++ js "[]")%N) = Ok (JArray []).
Proof. split; reflexivity. Qed.


Lemma occursb_spec (marker text : jsstring) :
  occursb marker text = true <-> occurs marker text.
Proof.
  induction text as [|c rest IH]; simpl.
  - rewrite orb_false_r, startsWith_prefix. split.
    + intros [after E]. now exists [], after.
    + intros ([|x b] & after & E); [now exists after | discriminate].
  - rewrite orb_true_iff, startsWith_prefix, IH. split.
    + intros [[after E]|H]; [now exists [], after | now apply occurs_cons].
    + intros ([|x b] & after & E).
      * left. now exists after.
      * right. injection E as _ ->. now exists b, after.
Qed.

Lemma occursb_false (marker text : jsstring) :
  occursb marker text = false -> ~ occurs marker text.
Proof. intros H Ho. apply occursb_spec in Ho. congruence. Qed.

Lemma startsWith_cons (p c : N) (ps s : jsstring) :
  startsWith (p :: ps) (c :: s) = N.eqb p c && startsWith ps s.
Proof. reflexivity. Qed.

Lemma startsWith_other (p c : N) (ps s : jsstring) :
  p <> c -> startsWith (p :: ps) (c :: s) = false.
Proof.
  intros H. rewrite startsWith_cons.
  now destruct (N.eqb_spec p c).
Qed.

Lemma replace_all_two_backticks (text : jsstring) :
  startsWith [96; 96]%N (replace_all fence text) = true ->
  startsWith [96; 96]%N text = true.
Proof.
  change fence with [96; 96; 96]%N.
  destruct text as [|c [|d rest]].
  - now simp replace_all.
  - rewrite replace_all_cons.
    replace (startsWith [96; 96; 96]%N [c]) with false
      by (rewrite startsWith_cons; symmetry; apply andb_false_r).
    simp replace_all; easy.
  - destruct (N.eq_dec 96%N c) as [<-|Hc].
    + destruct (N.eq_dec 96%N d) as [<-|Hd]; [reflexivity|].
      rewrite replace_all_cons, startsWith_cons.
      rewrite (startsWith_other _ _ Hd), andb_false_r.
      rewrite replace_all_cons, (startsWith_other _ _ Hd).
      rewrite startsWith_cons, (startsWith_other _ _ Hd).
      now rewrite andb_false_r.
    + rewrite replace_all_cons, (startsWith_other _ _ Hc).
      now rewrite (startsWith_other _ _ Hc).
Qed.

(** One pass removes every [```]: what is left has none. *)
Lemma replace_all_fence_complete (text : jsstring) :
  occursb fence (replace_all fence text) = false.
Proof.
  funelim (replace_all fence text).
  - reflexivity.
  - assumption.
  - cbn [occursb]. apply orb_false_iff. split; [|assumption].
    apply not_true_iff_false. intros Hs.
    change fence with [96; 96; 96]%N in Hs, Heq.
    rewrite startsWith_cons in Hs, Heq.
    apply andb_true_iff in Hs as [Hc Hs]. rewrite Hc in Heq.
    change [96; 96; 96]%N with fence in Hs.
    apply replace_all_two_backticks in Hs. rewrite Hs in Heq.
    discriminate Heq.
Qed.

Lemma occurs_trim (marker text : jsstring) :
  occurs marker (trim text) -> occurs marker text.
Proof.
  destruct (trim_split text) as (pre & post & E & _ & _).
  intros (b & a & Ht). rewrite E, Ht.
  exists (pre ++ b), (a ++ post). now rewrite <- !app_assoc.
Qed.

Lemma trimStart_head (s : jsstring) (c : N) (rest : jsstring) :
  trimStart s = c :: rest -> is_js_space c = false.
Proof.
  induction s as [|x s IH]; simpl; [discriminate|].
  destruct (is_js_space x) eqn:E; [exact IH|].
  now intros [= <- _].
Qed.

Lemma trimStart_fixed (s : jsstring) :
  (forall c rest, s = c :: rest -> is_js_space c = false) -> trimStart s = s.
Proof.
  destruct s as [|c rest]; [reflexivity|]. intros H. simpl.
  now rewrite (H c rest eq_refl).
Qed.

Lemma trim_ends (text : jsstring) :
  (forall c rest, trim text = c :: rest -> is_js_space c = false)
  /\ (forall c front, trim text = front ++ [c] -> is_js_space c = false).
Proof.
  unfold trim, trimEnd. set (t := trimStart text).
  assert (Ht : forall c rest, t = c :: rest -> is_js_space c = false).
  { intros c rest. apply trimStart_head. }
  split.
  - intros c rest E.
    destruct (trimStart_split (rev t)) as (pre & Er & Hpre).
    apply (f_equal (@rev N)) in Er. rewrite rev_involutive, rev_app_distr in Er.
    rewrite E in Er. simpl in Er. apply (Ht c _ Er).
  - intros c front E.
    apply (f_equal (@rev N)) in E. rewrite rev_involutive, rev_app_distr in E.
    simpl in E. now apply trimStart_head in E.
Qed.

Lemma trim_fixed (s : jsstring) :
  (forall c rest, s = c :: rest -> is_js_space c = false) ->
  (forall c front, s = front ++ [c] -> is_js_space c = false) ->
  trim s = s.
Proof.
  intros Hh Hl. unfold trim, trimEnd. rewrite (trimStart_fixed Hh).
  rewrite trimStart_fixed; [apply rev_involutive|].
  intros c rest E. apply (Hl c (rev rest)).
  rewrite <- (rev_involutive s), E. reflexivity.
Qed.

(** Before its first code unit a marker cannot start. *)
Lemma replace_all_skip (m : N) (marker before rest : jsstring) :
  ~ In m before ->
  replace_all (m :: marker) (before ++ rest)
  = before ++ replace_all (m :: marker) rest.
Proof.
  induction before as [|c before IH]; intros H; [reflexivity|].
  simpl app. rewrite replace_all_cons, startsWith_other.
  - f_equal. apply IH. intros Hin. apply H. now right.
  - intros ->. apply H. now left.
Qed.

(** A marker in the middle of a text is cut out, together with the newline
    behind it, and what stands around it is kept. *)
Lemma cleanedText_interior (before after : jsstring) :
  ~ In 96%N before -> ~ occurs fence after ->
  cleanedText (before ++ fence_json ++ after)
  = trim (before ++ drop_newline after)
  /\ (~ occurs fence_json (before ++ fence ++ after) ->
      cleanedText (before ++ fence ++ after)
      = trim (before ++ drop_newline after)).
Proof.
  intros Hb Ha.
  assert (Ha' : ~ occurs fence (drop_newline after)).
  { intros Ho. now apply Ha, occurs_drop_newline. }
  assert (Hj : ~ occurs fence_json (drop_newline after)).
  { intros Ho. now apply Ha', occurs_fence_json. }
  assert (Hfence : replace_all fence (before ++ drop_newline after)
                   = before ++ drop_newline after).
  { change fence with (96 :: [96; 96])%N.
    rewrite (replace_all_skip _ _ Hb).
    change (96 :: [96; 96])%N with fence.
    now rewrite (replace_all_absent Ha'). }
  unfold cleanedText. split.
  - change fence_json with (96 :: js "``json")%N.
    rewrite (replace_all_skip _ _ Hb), replace_all_at_marker.
    change (96 :: js "``json")%N with fence_json.
    now rewrite (replace_all_absent Hj), Hfence.
  - intros Hn. rewrite (replace_all_absent Hn).
    change fence with (96 :: [96; 96])%N.
    rewrite (replace_all_skip _ _ Hb), replace_all_at_marker.
    change (96 :: [96; 96])%N with fence.
    now rewrite (replace_all_absent Ha').
Qed.

(** C7, as stated, fails: a fence marker inside a string of the payload is
    removed as well, so what is parsed is not the content of the fenced
    block. *)
Lemma fence_inside_a_string_is_removed :
  let inner := fixture "['a```b']" in
  let wrapped := fence_json ++ [newline] ++ inner ++ [newline] ++ fence in
  JSON.parse inner = Ok (JArray [JString (js "a```b")])
  /\ cleanedText inner = fixture "['ab']"
  /\ cleanedText wrapped = fixture "['ab']"
  /\ JSON.parse (cleanedText wrapped) = Ok (JArray [JString (js "ab")])
  /\ JSON.parse (cleanedText wrapped) <> JSON.parse inner.
Proof. repeat split; try reflexivity. discriminate. Qed.

(** C7, amended. The post-processing removes the fence markers wherever
    they stand, and trims the rest: whatever the text, none is left in the
    result; a marker in the middle of a text is cut out with the newline
    that follows it, and the text around it is kept.  A text in which no
    [```] occurs is only trimmed; a block [```json ... ```] whose content
    holds no [```] is cut down to its trimmed content, and whenever that
    content is a JSON text the post-processed block parses to the same
    value. *)
Theorem cleanedText_fence_free :
  (forall text, ~ occurs fence (cleanedText text))
  /\ (forall before after,
        ~ In 96%N before -> ~ occurs fence after ->
        cleanedText (before ++ fence_json ++ after)
        = trim (before ++ drop_newline after)
        /\ (~ occurs fence_json (before ++ fence ++ after) ->
            cleanedText (before ++ fence ++ after)
            = trim (before ++ drop_newline after)))
  /\ (forall inner,
        ~ occurs fence inner ->
        cleanedText inner = trim inner
        /\ cleanedText (fence_json ++ inner ++ fence) = trim inner
        /\ (forall v, JSON.parse inner = Ok v ->
               JSON.parse (cleanedText (fence_json ++ inner ++ fence)) = Ok v)).
Proof.
  split; [|split].
  - intros text H. apply occurs_trim in H.
    revert H. apply occursb_false, replace_all_fence_complete.
  - apply cleanedText_interior.
  - intros inner H. split; [|split].
    + now apply cleanedText_plain.
    + now apply cleanedText_fenced.
    + intros v Hv. rewrite (cleanedText_fenced H). now apply parse_trim.
Qed.

Lemma cleanedText_fence_free_witness :
  let inner := [newline] ++ js "[1, 2]" ++ [newline] in
  cleanedText (fence_json ++ inner ++ fence) = js "[1, 2]"
  /\ JSON.parse (cleanedText (fence_json ++ inner ++ fence))
     = Ok (JArray [JNumber (js "1"); JNumber (js "2")])
  /\ cleanedText (js "[1," ++ fence ++ js " 2]") = js "[1, 2]".
Proof.
  assert (H : ~ occurs fence ([newline] ++ js "[1, 2]" ++ [newline])).
  { apply occursb_false. reflexivity. }
  destruct cleanedText_fence_free as (_ & Hmid & Hblock).
  destruct (Hblock _ H) as (_ & H2 & H3).
  split; [exact H2|]. split; [apply H3; reflexivity|].
  refine (proj2 (Hmid (js "[1,") (js " 2]") _ _) _).
  - simpl. intuition discriminate.
  - apply occursb_false. reflexivity.
  - apply occursb_false. reflexivity.
Defined.

(** ** The handler on sample worlds *)











(** The end-to-end scenario of the specification. *)
Example serve_png_scenario :
  serve (sample_world (Responded 200 (chat_answer sample_questions_text)))
        gateway_only (post (fixture "{'filePath':'123.png'}"))
  = (questions_response
       (JArray [JObject [(js "question", JString (js "What is 2+2?"));
                         (js "options",
                          JArray [JString (js "3"); JString (js "4");
                                  JString (js "5"); JString (js "6")]);
                         (js "correctAnswer", JString (js "B"))]]),
     [EDownload (str (js "123.png"));
      EGeminiOcr (js "lov-key") (js "image/png") sample_base64;
      EParse (js "lov-key") sample_ocr_text]).
Proof. reflexivity. Qed.

Example serve_pdf_fallback_scenario :
  serve (sample_world (Responded 200 (chat_answer (js "[]"))))
        both_keys (post (fixture "{'filePath':'exam.PDF'}"))
  = (questions_response (JArray []),
     [EDownload (str (js "exam.PDF"));
      EFilestackStore (js "ocr-key") sample_bytes;
      EGeminiOcr (js "lov-key") (js "application/pdf") sample_base64;
      EParse (js "lov-key") sample_ocr_text]).
Proof. reflexivity. Qed.

Example serve_error_scenarios :
  serve (sample_world (Rejected [])) both_keys (post (js "{}"))
  = (error_response 400 (js "File path is required"), [])
  /\ serve (sample_world (Responded 200 (chat_answer (js "Sorry, no questions."))))
           gateway_only (post (fixture "{'filePath':'a.jpg'}"))
     = (error_response 500 (js "Failed to parse extracted questions"),
        [EDownload (str (js "a.jpg"));
         EGeminiOcr (js "lov-key") (js "image/jpeg") sample_base64;
         EParse (js "lov-key") sample_ocr_text])
  /\ fst (serve (sample_world (Responded 200 (chat_answer (js "{}"))))
                gateway_only (post (fixture "{'filePath':'a.jpg'}")))
     = error_response 500 (js "Invalid questions format")
  /\ fst (serve (sample_world (Responded 429 [])) gateway_only
                (post (fixture "{'filePath':'a.jpg'}")))
     = error_response 429 (js "Rate limit exceeded. Please try again later.")
  /\ serve (sample_world (Rejected [])) both_keys
           {| method := js "OPTIONS"; req_body := [] |}
     = (preflight_response, [])
  /\ status (fst (serve (sample_world (Rejected [])) both_keys (post (js "null"))))
     = 500%Z.
Proof. repeat split; reflexivity. Qed.

(** The three shapes of the Filestack answer, in their order of priority,
    and an answer of none of them. *)
Example processPdfWithFilestack_shapes :
  let run answer :=
    processPdfWithFilestack (filestack_world answer) sample_base64 (js "ocr-key") in
  let calls := [EFilestackStore (js "ocr-key") sample_bytes;
                EFilestackOcr (js "ocr-key") (js "h1")] in
  run (fixture "{'text':'T','ocr':{'text':'U'}}") = (Value (str (js "T")), calls)
  /\ run (fixture "{'text':'','ocr':{'text':'U'}}") = (Value (str (js "U")), calls)
  /\ run (fixture "[{'text':'a'},{'text':''},{'x':1},{'text':'b'}]")
     = (Value (str (js "a" ++ [newline; newline; newline; newline; newline;
                              newline] ++ js "b")), calls)
  /\ run (fixture "{'pages':3}") = (Value (str []), calls)
  /\ run (js "null")
     = (Thrown (TypeError (js "Cannot read properties of undefined or null")),
        calls)
  /\ run (fixture "[null]")
     = (Thrown (TypeError (js "Cannot read properties of undefined or null")),
        calls).
Proof. repeat split; reflexivity. Qed.

Example serve_pdf_filestack_scenario :
  serve (filestack_world (fixture "{'text':'1. What is 2+2?'}")) both_keys
        (post (fixture "{'filePath':'exam.pdf'}"))
  = (questions_response (JArray []),
     [EDownload (str (js "exam.pdf"));
      EFilestackStore (js "ocr-key") sample_bytes;
      EFilestackOcr (js "ocr-key") (js "h1");
      EParse (js "lov-key") (js "1. What is 2+2?")]).
Proof. reflexivity. Qed.

(** ** Reasoning about handler computations *)

Section Monad.

Context {A B : Type}.

Lemma bind_ret (a : A) (k : A -> M B) : bind (ret a) k = k a.
Proof. unfold bind, ret. now destruct (k a). Qed.

Lemma bind_lift_ok (a : A) (k : A -> M B) : bind (lift (Ok a)) k = k a.
Proof. apply bind_ret. Qed.

Lemma bind_lift_throw (e : Exn) (k : A -> M B) :
  bind (lift (Throw e)) k = (Thrown e, []).
Proof. reflexivity. Qed.

Lemma bind_return (r : Response) (k : A -> M B) :
  bind (return_ r) k = (Returned r, []).
Proof. reflexivity. Qed.

Lemma bind_call (a : A) (e : Event) (k : A -> M B) :
  bind (Value a, [e]) k = (fst (k a), e :: snd (k a)).
Proof. unfold bind. now destruct (k a). Qed.


Lemma emits_ret P (a : A) : emits P (ret a).
Proof. constructor. Qed.

Lemma emits_throw P (e : Exn) : emits P (@throw A e).
Proof. constructor. Qed.

Lemma emits_return P (r : Response) : emits P (@return_ A r).
Proof. constructor. Qed.

Lemma emits_lift P (r : result A) : emits P (lift r).
Proof. destruct r; constructor. Qed.

Lemma emits_try_catch P (m : M A) (h : Exn -> M A) :
  emits P m -> (forall e, emits P (h e)) -> emits P (try_catch m h).
Proof.
  unfold emits, try_catch. intros Hm Hh.
  destruct m as [[a|e|r] calls]; simpl in *; try assumption.
  specialize (Hh e). destruct (h e) as [o calls']. simpl in *.
  apply List.Forall_app. now split.
Qed.

End Monad.

Lemma emits_bind {A B} P (m : M A) (k : A -> M B) :
  emits P m -> (forall a, emits P (k a)) -> emits P (bind m k).
Proof.
  unfold emits, bind. intros Hm Hk.
  destruct m as [[a|e|r] calls]; simpl in *; try assumption.
  specialize (Hk a). destruct (k a) as [o calls']. simpl in *.
  apply List.Forall_app. now split.
Qed.

Lemma emits_when P (c : bool) (m : M unit) : emits P m -> emits P (when c m).
Proof. destruct c; [easy | constructor]. Qed.

Lemma emits_fetch (P : Event -> Prop) (e : Event) (r : FetchResult) :
  P e -> emits P (fetch e r).
Proof. intros H. destruct r; repeat constructor; exact H. Qed.

(** Takes a computation apart along its binds and branches. *)
Ltac emits_tac :=
  repeat first
    [ apply emits_ret | apply emits_throw | apply emits_return
    | apply emits_lift
    | apply emits_fetch; solve [exact I | easy]
    | apply emits_when
    | apply emits_bind; [|intros ?]
    | apply emits_try_catch; [|intros ?]
    | match goal with
      | |- emits _ (if ?c then _ else _) => destruct c
      | |- emits _ (match ?x with _ => _ end) => destruct x
      end ].





Section Calls.

Variable w : World.

Lemma processPdfWithFilestack_calls (base64Data ocrApiKey : jsstring) :
  emits filestack_call (processPdfWithFilestack w base64Data ocrApiKey).
Proof. unfold processPdfWithFilestack. emits_tac. Qed.

(** [extractWithGemini] makes its one call, whatever comes of it. *)
Lemma extractWithGemini_calls (base64 mimeType lovableApiKey : jsstring) :
  snd (extractWithGemini w base64 mimeType lovableApiKey)
  = [EGeminiOcr lovableApiKey mimeType base64].
Proof.
  unfold extractWithGemini.
  destruct (gemini_ocr w lovableApiKey mimeType base64) as [reason|code text];
    [reflexivity|].
  simpl fetch. rewrite bind_call. simpl.
  destruct (ok_status code); simpl; [|reflexivity].
  destruct (JSON.parse text) as [data|e]; simpl; [|reflexivity].
  now destruct (message_content data).
Qed.

Lemma structuring_answer_calls (aiResponse : Z * jsstring) :
  snd (structuring_answer aiResponse) = [].
Proof.
  assert (H : emits (fun _ => False) (structuring_answer aiResponse)).
  { unfold structuring_answer. emits_tac. }
  unfold emits in H. now destruct (snd (structuring_answer aiResponse)); [|inversion H].
Qed.

Lemma ocr_step_calls isPdf ocrApiKey base64 mimeType lovableApiKey :
  emits ocr_call (ocr_step w isPdf ocrApiKey base64 mimeType lovableApiKey).
Proof.
  assert (G : emits ocr_call (extractWithGemini w base64 mimeType lovableApiKey)).
  { unfold emits. rewrite extractWithGemini_calls.
    constructor; [now right | constructor]. }
  unfold ocr_step. destruct ocrApiKey as [key|]; [|exact G].
  destruct (isPdf && truthy (str key)); [|exact G].
  apply emits_try_catch.
  - eapply List.Forall_impl; [|apply processPdfWithFilestack_calls].
    intros e He. now left.
  - intros _. destruct isPdf; [exact G | constructor].
Qed.

End Calls.

(** ** The end of the [try] block, in both handlers *)

(** What the single-stage handler does with the answer of the gateway is
    what the two-stage handler does with the answer to its structuring
    call. *)
Lemma after_gateway_structuring (code : Z) (text : jsstring) :
  Direct.after_gateway code text = fst (structuring_answer (code, text)).
Proof.
  unfold Direct.after_gateway, structuring_answer. cbn [fst snd].
  destruct (ok_status code); cbn [negb when].
  - rewrite bind_ret.
    destruct (JSON.parse text) as [aiData|e]; [|reflexivity].
    rewrite bind_lift_ok.
    destruct (message_content aiData) as [content|e]; [|reflexivity].
    rewrite bind_lift_ok.
    destruct (string_receiver content) as [questionsText|e]; [|reflexivity].
    rewrite bind_lift_ok.
    destruct (JSON.parse (cleanedText questionsText)) as [questions|e];
      [|reflexivity].
    cbn [lift try_catch ret]. rewrite bind_ret.
    now destruct (isArray questions).
  - destruct (code =? 429)%Z; [reflexivity|].
    destruct (code =? 402)%Z; reflexivity.
Qed.

(** ** The structuring call and what follows it *)


Lemma serve_finish (w : World) (env : Env) (req : Request) :
  JsString.eqb (method req) (js "OPTIONS") = false ->
  serve w env req = (finish (serve_try w env req), snd (serve_try w env req)).
Proof.
  intros H. unfold serve, finish. rewrite H.
  now destruct (serve_try w env req) as [[r|e|r] calls].
Qed.



Section ParseCall.

Variable w : World.
Variables key text : jsstring.


Lemma ends_with_parse_bind {A} (m : M A) (k : A -> M Response) :
  emits not_parse_call m -> (forall a, ends_with_parse w key text (k a)) ->
  ends_with_parse w key text (bind m k).
Proof.
  unfold emits, ends_with_parse, finish, bind. intros Hm Hk.
  assert (Hno : ~ In (EParse key text) (snd m)).
  { intros Hin. rewrite List.Forall_forall in Hm. now apply (Hm _ Hin). }
  destruct m as [[a|e|r] calls]; simpl in *; try contradiction.
  specialize (Hk a). destruct (k a) as [o calls']. simpl in *.
  intros Hin. apply in_app_or in Hin as [Hin|Hin]; [contradiction|].
  destruct (Hk Hin) as (Ho & before & -> & Hb).
  split; [exact Ho|]. exists (calls ++ before).
  split; [now rewrite app_assoc | now apply List.Forall_app].
Qed.

Lemma ends_with_parse_fetch (key' text' : jsstring) :
  ends_with_parse w key text
    (bind (fetch (EParse key' text') (gateway_parse w key' text'))
          (structuring_answer)).
Proof.
  unfold ends_with_parse. intros Hin.
  assert (Hk : key' = key /\ text' = text).
  { destruct (gateway_parse w key' text'); unfold fetch in Hin.
    - destruct Hin as [[= -> ->]|[]]. now split.
    - rewrite bind_call, structuring_answer_calls in Hin.
      destruct Hin as [[= -> ->]|[]]. now split. }
  destruct Hk as [-> ->]. clear Hin.
  unfold parse_answer, finish.
  destruct (gateway_parse w key text) as [reason|code body]; unfold fetch.
  - split; [reflexivity|]. exists []. split; [reflexivity | constructor].
  - rewrite bind_call, structuring_answer_calls. simpl.
    split; [reflexivity|]. exists []. split; [reflexivity | constructor].
Qed.

Lemma serve_try_ends_with_parse (env : Env) (req : Request) :
  ends_with_parse w key text (serve_try w env req).
Proof.
  assert (Hocr : forall isPdf ocrApiKey base64 mimeType lovableApiKey,
             emits not_parse_call
               (ocr_step w isPdf ocrApiKey base64 mimeType lovableApiKey)).
  { intros. eapply List.Forall_impl; [|apply ocr_step_calls].
    intros e [H|H]; destruct e; easy. }
  unfold serve_try.
  repeat (apply ends_with_parse_bind;
          [solve [emits_tac | repeat constructor; easy | apply Hocr]
          | intros ?]).
  apply ends_with_parse_fetch.
Qed.

End ParseCall.

(** Once the handler has made the structuring call, its answer is decided
    by what that call resolves to, and it makes no further call. *)
Lemma serve_parse_call (w : World) (env : Env) (req : Request)
    (key text : jsstring) :
  In (EParse key text) (snd (serve w env req)) ->
  fst (serve w env req) = parse_answer (gateway_parse w key text)
  /\ exists before,
       snd (serve w env req) = before ++ [EParse key text]
       /\ List.Forall not_parse_call before.
Proof.
  destruct (JsString.eqb (method req) (js "OPTIONS")) eqn:E.
  - unfold serve. rewrite E. intros [].
  - rewrite (serve_finish w env E). simpl.
    apply serve_try_ends_with_parse.
Qed.



Lemma serve_structuring_resolved (w : World) (env : Env) (req : Request)
    (r : FetchResult) :
  structuring_resolved w (snd (serve w env req)) r ->
  fst (serve w env req) = parse_answer r.
Proof.
  intros (key & text & Hin & <-). now apply serve_parse_call.
Qed.


Lemma serve_structuring_output (w : World) (env : Env) (req : Request)
    (questionsText : jsstring) :
  structuring_output w (snd (serve w env req)) questionsText ->
  fst (serve w env req) = output_answer questionsText.
Proof.
  intros (code & body & aiData & Hr & Hok & Hbody & Hcontent).
  rewrite (serve_structuring_resolved Hr).
  unfold parse_answer, finish, structuring_answer, output_answer.
  simpl fst. simpl snd. rewrite Hok. simpl negb. simpl when.
  rewrite bind_ret, Hbody, bind_lift_ok, Hcontent, bind_lift_ok.
  simpl string_receiver. rewrite bind_lift_ok.
  destruct (JSON.parse (cleanedText questionsText)) as [questions|e];
    [|reflexivity].
  simpl. now destruct (isArray questions).
Qed.

(** ** C6: a failing structuring call *)

(** C6. When the structuring provider answers with a status outside 2xx,
    the handler answers 429 to a 429, 402 to a 402 and 500 to anything else,
    each time with a JSON error body and no questions. *)
Theorem structuring_failure_classified (w : World) (env : Env) (req : Request)
    (code : Z) (text : jsstring) :
  structuring_resolved w (snd (serve w env req)) (Responded code text) ->
  ok_status code = false ->
  let r := fst (serve w env req) in
  (code = 429%Z ->
   r = error_response 429 (js "Rate limit exceeded. Please try again later."))
  /\ (code = 402%Z ->
      r = error_response 402 (js "AI credits depleted. Please add funds to continue."))
  /\ (code <> 429%Z -> code <> 402%Z ->
      r = error_response 500 (js "AI processing failed"))
  /\ (exists msg, body r = Some (JObject [(js "error", JString msg)]))
  /\ status r = (if (code =? 429)%Z then 429 else if (code =? 402)%Z then 402
                 else 500)%Z.
Proof.
  intros Hr Hok r. subst r. rewrite (serve_structuring_resolved Hr).
  unfold parse_answer, finish, structuring_answer. simpl fst. simpl snd.
  rewrite Hok. simpl negb. simpl when.
  destruct (Z.eqb_spec code 429) as [->|N1]; [|destruct (Z.eqb_spec code 402) as [->|N2]];
    simpl; repeat split; intros; try congruence; eauto.
Qed.

Lemma structuring_failure_classified_witness :
  fst (serve (sample_world (Responded 429 (js "slow down"))) gateway_only
             (post (fixture "{'filePath':'a.jpg'}")))
  = error_response 429 (js "Rate limit exceeded. Please try again later.").
Proof.
  refine (proj1 (@structuring_failure_classified
                   (sample_world (Responded 429 (js "slow down"))) gateway_only
                   (post (fixture "{'filePath':'a.jpg'}")) 429 (js "slow down")
                   _ _) _); [|reflexivity|reflexivity].
  exists (js "lov-key"), sample_ocr_text. split; [|reflexivity].
  vm_compute. right. right. left. reflexivity.
Defined.

(** ** C5: output that is not a JSON array *)

(** C5. When the output of the structuring model, once the fence markers
    are stripped, is not a JSON text, the handler answers 500 with
    [Failed to parse extracted questions]; when it is a JSON text but not an
    array, it answers 500 with [Invalid questions format].  Either way the
    answer is a complete error response: nothing is thrown past the handler
    and no questions are returned. *)
Theorem structuring_output_rejected (w : World) (env : Env) (req : Request)
    (questionsText : jsstring) :
  structuring_output w (snd (serve w env req)) questionsText ->
  let r := fst (serve w env req) in
  (forall e, JSON.parse (cleanedText questionsText) = Throw e ->
             r = error_response 500 (js "Failed to parse extracted questions"))
  /\ (forall v, JSON.parse (cleanedText questionsText) = Ok v ->
                isArray v = false ->
                r = error_response 500 (js "Invalid questions format")).
Proof.
  intros H r. subst r. rewrite (serve_structuring_output H).
  unfold output_answer. split.
  - intros e ->. reflexivity.
  - intros v -> ->. reflexivity.
Qed.

Lemma sample_output (structured : jsstring) (env : Env) (path : jsstring) :
  In (EParse (js "lov-key") sample_ocr_text)
     (snd (serve (sample_world (Responded 200 (chat_answer structured))) env
                 (post (fixture "{'filePath':" ++ quoted path ++ js "}")))) ->
  JSON.parse (chat_answer structured)
  = Ok (JObject
          [(js "choices",
            JArray [JObject
                      [(js "message",
                        JObject [(js "role", JString (js "assistant"));
                                 (js "content", JString structured)])]])]) ->
  structuring_output (sample_world (Responded 200 (chat_answer structured)))
    (snd (serve (sample_world (Responded 200 (chat_answer structured))) env
                (post (fixture "{'filePath':" ++ quoted path ++ js "}"))))
    structured.
Proof.
  intros Hin Hparse.
  exists 200%Z, (chat_answer structured). eexists.
  split; [|split; [reflexivity | split; [exact Hparse | reflexivity]]].
  exists (js "lov-key"), sample_ocr_text. split; [exact Hin | reflexivity].
Qed.

Lemma structuring_output_rejected_witness :
  fst (serve (sample_world (Responded 200 (chat_answer (js "Sorry, none."))))
             gateway_only (post (fixture "{'filePath':'a.jpg'}")))
  = error_response 500 (js "Failed to parse extracted questions")
  /\ fst (serve (sample_world (Responded 200 (chat_answer (js "{}"))))
                gateway_only (post (fixture "{'filePath':'a.jpg'}")))
     = error_response 500 (js "Invalid questions format").
Proof.
  split.
  - refine (proj1 (@structuring_output_rejected
                     (sample_world (Responded 200 (chat_answer (js "Sorry, none."))))
                     gateway_only (post (fixture "{'filePath':'a.jpg'}"))
                     (js "Sorry, none.") _) _ _).
    + apply (@sample_output (js "Sorry, none.") gateway_only (js "a.jpg"));
        [vm_compute; right; right; left; reflexivity | reflexivity].
    + reflexivity.
  - refine (proj2 (@structuring_output_rejected
                     (sample_world (Responded 200 (chat_answer (js "{}"))))
                     gateway_only (post (fixture "{'filePath':'a.jpg'}"))
                     (js "{}") _) (JObject []) _ _).
    + apply (@sample_output (js "{}") gateway_only (js "a.jpg"));
        [vm_compute; right; right; left; reflexivity | reflexivity].
    + reflexivity.
    + reflexivity.
Defined.

(** ** C4: no questions found *)


Example processFile_samples :
  let b r := {| now := 1700000000000;
                storage_upload := fun _ _ => None;
                functions_invoke := fun _ => r |} in
  let f := {| name := js "my.exam.PDF"; type := js "application/pdf"; size := 50 |} in
  processFile (b (InvokeData (Val (JObject [(js "questions", JArray [JNull])]))))
              (Some f)
  = [SetIsUploading true; Navigate (js "/exam") (Val (JArray [JNull]))]
  /\ processFile (b (InvokeError (js "boom"))) (Some f)
     = SetIsUploading true :: failed (js "boom")
  /\ processFile (b (InvokeData (Val (JObject [])))) (Some f)
     = SetIsUploading true :: no_questions
  /\ processFile (b (InvokeError [])) None = []
  /\ fileExt_of (name f) = js "PDF"
  /\ fileExt_of (js "noext") = js "noext".
Proof. repeat split; reflexivity. Qed.



(** The other side of the distinction, on a sample: an output that is not a
    JSON text. *)
Example parse_failure_is_an_error :
  let r := fst (serve (sample_world (Responded 200 (chat_answer (js "no questions here"))))
                      both_keys (post (fixture "{'filePath':'exam.pdf'}"))) in
  r = error_response 500 (js "Failed to parse extracted questions")
  /\ after_invoke (invoke_result r)
     = failed (js "Edge Function returned a non-2xx status code").
Proof. split; reflexivity. Qed.

(** ** C2: what is validated *)



Example is_question_record_sample :
  JSON.parse sample_questions_text = Ok (JArray
    [JObject [(js "question", JString (js "What is 2+2?"));
              (js "options", JArray [JString (js "3"); JString (js "4");
                                     JString (js "5"); JString (js "6")]);
              (js "correctAnswer", JString (js "B"))]])
  /\ forallb is_question_record
       match JSON.parse sample_questions_text with
       | Ok (JArray qs) => qs
       | _ => [JNull]
       end = true.
Proof. split; reflexivity. Qed.


(** C2, as stated, fails: an array whose elements are not Question records
    is answered with status 200, and the elements are in the body that is
    sent. *)
Lemma unvalidated_questions_are_returned :
  let r := fst (serve (sample_world (Responded 200 (chat_answer unvalidated_output)))
                      gateway_only (post (fixture "{'filePath':'a.png'}"))) in
  let q := JObject [(js "question", JString (js "Q"));
                    (js "options", JArray [JString (js "yes"); JString (js "no")]);
                    (js "correctAnswer", JString (js "E"))] in
  status r = 200%Z
  /\ body r = Some (JObject [(js "questions", JArray [q; JNumber (js "7")])])
  /\ body_text r
     = Some (fixture
               "{'questions':[{'question':'Q','options':['yes','no'],'correctAnswer':'E'},7]}")
  /\ is_question_record q = false
  /\ is_question_record (JNumber (js "7")) = false.
Proof. repeat split; reflexivity. Qed.

(** What [JSON.stringify] makes of the parsed array on its way out: a number
    is written in the canonical form of its double, an infinite one as
    [null], and of the members under one key the last. *)
Example stringify_samples :
  option_map stringify
    (match JSON.parse (fixture "[1e999, 1.0, 1e2, -0, {'b':1,'a':2,'b':3}]") with
     | Ok v => Some v
     | Throw _ => None
     end)
  = Some (fixture "[null,1,100,0,{'b':3,'a':2}]").
Proof. vm_compute. reflexivity. Qed.


Lemma array_answer_error (st : Z) (msg : jsstring) :
  st <> 200%Z -> array_answer (error_response st msg).
Proof. intros H E. simpl in E. contradiction. Qed.


Lemma finish_bind {A} (m : M A) (k : A -> M Response) :
  returns array_answer m -> (forall a, array_answer (finish (k a))) ->
  array_answer (finish (bind m k)).
Proof.
  unfold returns, finish, bind. intros Hm Hk.
  destruct m as [[a|e|r] calls]; simpl in *.
  - specialize (Hk a). now destruct (k a).
  - now apply array_answer_error.
  - exact Hm.
Qed.

Section Returns.

Variable P : Response -> Prop.

Lemma returns_try_catch {A} (m : M A) (h : Exn -> M A) :
  returns P m -> (forall e, returns P (h e)) -> returns P (try_catch m h).
Proof.
  unfold returns, try_catch. intros Hm Hh.
  destruct m as [[a|e|r] calls]; simpl in *; try assumption.
  specialize (Hh e). now destruct (h e).
Qed.

Lemma returns_bind {A B} (m : M A) (k : A -> M B) :
  returns P m -> (forall a, returns P (k a)) -> returns P (bind m k).
Proof.
  unfold returns, bind. intros Hm Hk.
  destruct m as [[a|e|r] calls]; simpl in *; try assumption.
  specialize (Hk a). now destruct (k a).
Qed.

Lemma returns_lift {A} (r : result A) : returns P (lift r).
Proof. now destruct r. Qed.

Lemma returns_fetch (e : Event) (r : FetchResult) : returns P (fetch e r).
Proof. now destruct r. Qed.

Lemma returns_when (c : bool) (m : M unit) :
  returns P m -> returns P (when c m).
Proof. destruct c; [easy | intros _; exact I]. Qed.

End Returns.

Lemma returns_when_error (c : bool) (st : Z) (msg : jsstring) :
  st <> 200%Z ->
  returns array_answer (when c (return_ (error_response st msg))).
Proof. intros H. destruct c; [now apply array_answer_error | exact I]. Qed.

Ltac returns_tac :=
  repeat first
    [ apply returns_lift | apply returns_fetch
    | apply returns_when_error; discriminate
    | apply returns_when
    | apply array_answer_error; discriminate
    | exact I
    | apply returns_bind; [|intros ?]
    | apply returns_try_catch; [|intros ?]
    | match goal with
      | |- returns _ (if ?c then _ else _) => destruct c
      | |- returns _ (match ?x with _ => _ end) => destruct x
      end ].

Section Answers.

Variable w : World.
Variable P : Response -> Prop.

Lemma extractWithGemini_returns (base64 mimeType key : jsstring) :
  returns P (extractWithGemini w base64 mimeType key).
Proof. unfold extractWithGemini. returns_tac. Qed.

Lemma processPdfWithFilestack_returns (base64 key : jsstring) :
  returns P (processPdfWithFilestack w base64 key).
Proof. unfold processPdfWithFilestack. returns_tac. Qed.

Lemma ocr_step_returns isPdf ocrApiKey base64 mimeType key :
  returns P (ocr_step w isPdf ocrApiKey base64 mimeType key).
Proof.
  unfold ocr_step.
  destruct ocrApiKey as [k|]; [|apply extractWithGemini_returns].
  destruct (isPdf && truthy (str k)); [|apply extractWithGemini_returns].
  apply returns_try_catch; [apply processPdfWithFilestack_returns|].
  intros _. destruct isPdf; [apply extractWithGemini_returns | exact I].
Qed.

End Answers.

Section Arrays.

Variable w : World.

Lemma structuring_answer_arrays (aiResponse : Z * jsstring) :
  array_answer (finish (structuring_answer aiResponse)).
Proof.
  unfold structuring_answer.
  apply finish_bind.
  { destruct (ok_status aiResponse.1); simpl; [exact I|].
    destruct (aiResponse.1 =? 429)%Z; [now apply array_answer_error|].
    destruct (aiResponse.1 =? 402)%Z; now apply array_answer_error. }
  intros _. apply finish_bind; [returns_tac|]. intros aiData.
  apply finish_bind; [returns_tac|]. intros questionsText.
  apply finish_bind; [returns_tac|]. intros questions.
  destruct questions; simpl; try (now apply array_answer_error).
  intros _. now eexists.
Qed.

Lemma serve_try_arrays (env : Env) (req : Request) :
  array_answer (finish (serve_try w env req)).
Proof.
  unfold serve_try.
  repeat first
    [ apply structuring_answer_arrays
    | apply finish_bind;
      [solve [returns_tac | apply ocr_step_returns] | intros ?] ].
Qed.

End Arrays.

Lemma parse_before_200_bind {A} (m : M A) (k : A -> M Response) :
  returns not_200 m -> (forall a, parse_before_200 (k a)) ->
  parse_before_200 (bind m k).
Proof.
  unfold returns, parse_before_200, finish, bind, not_200. intros Hm Hk.
  destruct m as [[a|e|r] calls]; cbn [fst snd] in *.
  - specialize (Hk a). destruct (k a) as [o calls']. cbn [fst snd] in *.
    intros H. destruct (Hk H) as (key & text & Hin).
    exists key, text. apply in_or_app. now right.
  - discriminate.
  - intros H. contradiction.
Qed.

Lemma parse_before_200_fetch (key text : jsstring) (r : FetchResult)
    (k : Z * jsstring -> M Response) :
  parse_before_200 (bind (fetch (EParse key text) r) k).
Proof.
  intros _. exists key, text. destruct r as [reason|code body]; unfold fetch.
  - now left.
  - rewrite bind_call. now left.
Qed.

Ltac not_200_tac :=
  repeat first
    [ apply returns_lift | apply returns_fetch
    | apply returns_when
    | exact I
    | (unfold returns, return_, not_200; cbn [fst status error_response];
       discriminate)
    | apply returns_bind; [|intros ?]
    | apply returns_try_catch; [|intros ?]
    | match goal with
      | |- returns _ (if ?c then _ else _) => destruct c
      | |- returns _ (match ?x with _ => _ end) => destruct x
      end ].

(** A 200 answer of the [try] block comes after the structuring call. *)
Lemma serve_try_parse_before_200 (w : World) (env : Env) (req : Request) :
  parse_before_200 (serve_try w env req).
Proof.
  unfold serve_try.
  repeat first
    [ apply parse_before_200_fetch
    | apply parse_before_200_bind;
      [solve [not_200_tac | apply ocr_step_returns] | intros ?] ].
Qed.

(** What a 200 answer after the structuring call tells about the answer of
    the gateway. *)
Lemma parse_answer_200 (r : FetchResult) :
  status (parse_answer r) = 200%Z ->
  exists code body aiData questionsText elems,
    r = Responded code body
    /\ ok_status code = true
    /\ JSON.parse body = Ok aiData
    /\ message_content aiData = Ok (str questionsText)
    /\ JSON.parse (cleanedText questionsText) = Ok (JArray elems)
    /\ parse_answer r = questions_response (JArray elems).
Proof.
  destruct r as [reason|code body]; [discriminate|].
  unfold parse_answer, finish. rewrite <- after_gateway_structuring.
  unfold Direct.after_gateway.
  destruct (ok_status code) eqn:Hok; cbn [negb].
  2:{ destruct (code =? 429)%Z; [discriminate|].
      destruct (code =? 402)%Z; discriminate. }
  destruct (JSON.parse body) as [aiData|e] eqn:Hbody; [|discriminate].
  destruct (message_content aiData) as [content|e] eqn:Hc; [|discriminate].
  destruct (string_receiver content) as [questionsText|e] eqn:Hs;
    [|discriminate].
  destruct content as [|[]]; try discriminate Hs. injection Hs as ->.
  destruct (JSON.parse (cleanedText questionsText)) as [questions|e] eqn:Hq;
    [|discriminate].
  destruct questions; cbn [isArray negb]; try discriminate.
  intros _. exists code, body, aiData, questionsText, elems.
  now repeat split.
Qed.

(** C2, amended. A 200 answer to anything but the preflight is given only
    after the structuring call, and it carries as [questions] exactly the
    array the output of the structuring model parses to once the fence
    markers are stripped; conversely every output that parses to an array,
    whatever its elements are, is answered with status 200 and that array.
    That the parsed output is an array is all the handler checks; the body
    sent is [JSON.stringify] of the object holding the array. *)
Theorem success_returns_the_parsed_array (w : World) (env : Env) (req : Request) :
  JsString.eqb (method req) (js "OPTIONS") = false ->
  let r := fst (serve w env req) in
  let calls := snd (serve w env req) in
  (status r = 200%Z ->
   exists questionsText elems,
     structuring_output w calls questionsText
     /\ JSON.parse (cleanedText questionsText) = Ok (JArray elems)
     /\ r = questions_response (JArray elems))
  /\ (forall questionsText elems,
        structuring_output w calls questionsText ->
        JSON.parse (cleanedText questionsText) = Ok (JArray elems) ->
        r = questions_response (JArray elems)
        /\ status r = 200%Z
        /\ body_text r
           = Some (stringify (JObject [(js "questions", JArray elems)]))).
Proof.
  intros Hm. cbv zeta. split.
  - intros Hst.
    assert (Hcall : exists key text,
               In (EParse key text) (snd (serve w env req))).
    { rewrite (serve_finish w env Hm) in *. cbn [fst snd] in *.
      now apply serve_try_parse_before_200. }
    destruct Hcall as (key & text & Hin).
    destruct (serve_parse_call Hin) as [E _]. rewrite E in *.
    destruct (parse_answer_200 Hst)
      as (code & body & aiData & questionsText & elems
          & Hr & Hok & Hbody & Hc & Hq & Ha).
    exists questionsText, elems. split; [|now split].
    exists code, body, aiData. split; [|now repeat split].
    now exists key, text.
  - intros questionsText elems H Hparse.
    rewrite (serve_structuring_output H). unfold output_answer.
    rewrite Hparse. now repeat split.
Qed.

Lemma success_returns_the_parsed_array_witness :
  exists questionsText elems,
    JSON.parse (cleanedText questionsText) = Ok (JArray elems)
    /\ fst (serve (sample_world (Responded 200 (chat_answer (js "[7]"))))
                  gateway_only (post (fixture "{'filePath':'a.png'}")))
       = questions_response (JArray elems).
Proof.
  destruct (proj1 (@success_returns_the_parsed_array
                     (sample_world (Responded 200 (chat_answer (js "[7]"))))
                     gateway_only (post (fixture "{'filePath':'a.png'}"))
                     eq_refl) eq_refl)
    as (questionsText & elems & _ & Hq & Hr).
  now exists questionsText, elems.
Defined.

(** ** C9: the request without a file path *)


Lemma serve_try_falsy (w : World) (env : Env) (req : Request) (filePath : value) :
  body_filePath req filePath -> truthy filePath = false ->
  serve_try w env req
  = (Returned (error_response 400 (js "File path is required")), []).
Proof.
  intros (parsed & Hp & Hg) Hf. unfold serve_try.
  rewrite Hp, bind_lift_ok, Hg, bind_lift_ok, Hf. reflexivity.
Qed.

(** C9, as stated, fails: the JSON text [null] is a body without a
    [filePath], but destructuring it throws, and the handler answers 500
    with the message of that error; and the preflight is not looked at for
    its body at all.  Neither makes a call. *)
Lemma not_rejected_as_missing :
  JSON.parse (js "null") = Ok JNull
  /\ throws (get (Val JNull) (js "filePath")) = true
  /\ status (fst (serve (sample_world (Rejected [])) both_keys (post (js "null"))))
     = 500%Z
  /\ snd (serve (sample_world (Rejected [])) both_keys (post (js "null"))) = []
  /\ serve (sample_world (Rejected [])) both_keys (post (js "null"))
     <> (error_response 400 (js "File path is required"), [])
  /\ serve (sample_world (Rejected [])) both_keys
           {| method := js "OPTIONS"; req_body := js "{}" |}
     = (preflight_response, []).
Proof. repeat split; try reflexivity. discriminate. Qed.

(** C9, amended. A request other than the preflight whose body is a JSON
    text from which [filePath] can be read and is falsy (there is no such
    property, or it is the empty string, [null], [false] or zero) is answered
    [{error:"File path is required"}] with status 400, and no call has been
    made by then: neither the storage download nor any provider call.  A
    body that is the JSON text [null], from which nothing can be read, or
    that is no JSON text, is answered with status 500, also before any
    call. *)
Theorem missing_filePath_is_rejected (w : World) (env : Env) (req : Request) :
  JsString.eqb (method req) (js "OPTIONS") = false ->
  (forall filePath,
     body_filePath req filePath ->
     truthy filePath = false ->
     serve w env req = (error_response 400 (js "File path is required"), [])
     /\ status (fst (serve w env req)) = 400%Z
     /\ snd (serve w env req) = [])
  /\ (forall filePath,
        body_filePath req filePath ->
        filePath = Undefined \/ filePath = str [] ->
        truthy filePath = false)
  /\ (JSON.parse (req_body req) = Ok JNull
      \/ throws (JSON.parse (req_body req)) = true ->
      status (fst (serve w env req)) = 500%Z
      /\ snd (serve w env req) = []).
Proof.
  intros Hm. split; [|split].
  - intros filePath Hb Hf.
    assert (E : serve w env req
                = (error_response 400 (js "File path is required"), [])).
    { rewrite (serve_finish w env Hm).
      now rewrite (@serve_try_falsy w env req filePath Hb). }
    now rewrite E.
  - intros filePath _ [-> | ->]; reflexivity.
  - intros H. rewrite (serve_finish w env Hm). unfold serve_try, finish.
    destruct H as [H|H].
    + rewrite H, bind_lift_ok. now split.
    + destruct (JSON.parse (req_body req)); [discriminate|]. now split.
Qed.

Lemma missing_filePath_is_rejected_witness :
  serve (sample_world (Rejected [])) both_keys (post (fixture "{'file':'a.pdf'}"))
  = (error_response 400 (js "File path is required"), [])
  /\ serve (sample_world (Rejected [])) both_keys (post (fixture "{'filePath':''}"))
     = (error_response 400 (js "File path is required"), [])
  /\ serve (sample_world (Rejected [])) both_keys
           (post (fixture "{'filePath':1e-400}"))
     = (error_response 400 (js "File path is required"), []).
Proof.
  split; [|split].
  - refine (proj1 (proj1 (@missing_filePath_is_rejected
                            (sample_world (Rejected [])) both_keys
                            (post (fixture "{'file':'a.pdf'}")) eq_refl)
                     Undefined _ _)).
    + eexists. split; reflexivity.
    + reflexivity.
  - refine (proj1 (proj1 (@missing_filePath_is_rejected
                            (sample_world (Rejected [])) both_keys
                            (post (fixture "{'filePath':''}")) eq_refl)
                     (str []) _ _)).
    + eexists. split; reflexivity.
    + reflexivity.
  - refine (proj1 (proj1 (@missing_filePath_is_rejected
                            (sample_world (Rejected [])) both_keys
                            (post (fixture "{'filePath':1e-400}")) eq_refl)
                     (Val (JNumber (js "1e-400"))) _ _)).
    + eexists. split; reflexivity.
    + reflexivity.
Defined.

(** ** C3: which OCR strategy runs *)






Lemma count_app kind (a b : list Event) :
  count kind (a ++ b) = count kind a + count kind b.
Proof. unfold count. now rewrite List.filter_app, length_app. Qed.

Lemma count_none (kind : Event -> bool) (P : Event -> Prop) (calls : list Event) :
  (forall e, P e -> kind e = false) -> List.Forall P calls ->
  count kind calls = 0.
Proof.
  intros HP H. unfold count. induction H as [|e calls He H IH]; simpl.
  - reflexivity.
  - now rewrite (HP e He).
Qed.

Lemma bind_split {A B} (m : M A) (k : A -> M B) :
  bind m k = (fst (bind (fst m, []) k), snd m ++ snd (bind (fst m, []) k)).
Proof.
  destruct m as [[a|e|r] calls]; simpl; try now rewrite app_nil_r.
  now destruct (k a).
Qed.

Lemma string_receiver_str (v : value) (s : jsstring) :
  string_receiver v = Ok s -> v = str s.
Proof. destruct v as [|[]]; simpl; intros H; try discriminate. now injection H as ->. Qed.

Lemma truthy_str_inv (s : jsstring) : truthy (str s) = true -> s <> [].
Proof. now destruct s. Qed.

Lemma truthy_str (s : jsstring) : s <> [] -> truthy (str s) = true.
Proof. now destruct s. Qed.

Lemma after_ocr_calls (w : World) (key : jsstring) (o : outcome value) :
  List.Forall parse_call (snd (after_ocr w key o)).
Proof.
  change (emits parse_call (after_ocr w key o)). unfold after_ocr.
  apply emits_bind; [constructor | intros text].
  apply emits_bind; [apply emits_lift | intros _].
  apply emits_bind; [apply emits_fetch; exact I | intros aiResponse].
  unfold emits. rewrite structuring_answer_calls. constructor.
Qed.

(** Once the document is loaded, the handler is its OCR step followed by
    [after_ocr]. *)
Lemma serve_loaded (w : World) (env : Env) (req : Request) (path : jsstring)
    (fileData : list byte) (key : jsstring) :
  document_loaded w env req path fileData key ->
  let step := ocr_step w (is_pdf path) (OCR_API_KEY env)
                (encode (fromCharCode fileData)) (mimeType_of path) key in
  serve w env req
  = (finish (after_ocr w key (fst step)),
     EDownload (str path) :: snd step ++ snd (after_ocr w key (fst step))).
Proof.
  intros (Hm & (parsed & Hp & Hg) & Hpath & Hd & Hk & Hkey) step.
  rewrite (serve_finish w env Hm). unfold serve_try.
  rewrite Hp, bind_lift_ok, Hg, bind_lift_ok, (truthy_str Hpath).
  simpl negb. simpl when. rewrite bind_ret, bind_call, Hd, bind_ret.
  unfold chunked_base64. rewrite chunked_base64_value, bind_lift_ok.
  simpl string_receiver. rewrite bind_lift_ok, Hk, (truthy_str Hkey), bind_ret.
  fold step. rewrite (bind_split step). unfold finish. reflexivity.
Qed.

(** Neither strategy executes a [return] of the handler: it yields a text or
    throws. *)
Lemma strategy_outcome {A} (m : M A) :
  returns (fun _ => False) m ->
  (exists a, fst m = Value a) \/ (exists e, fst m = Thrown e).
Proof.
  unfold returns. destruct m as [[a|e|r] calls]; simpl; [eauto | eauto | easy].
Qed.

Lemma count_gemini_filestack (calls : list Event) :
  List.Forall filestack_call calls -> count is_gemini calls = 0.
Proof. apply count_none. now intros []. Qed.

Lemma count_gemini_parse (calls : list Event) :
  List.Forall parse_call calls -> count is_gemini calls = 0.
Proof. apply count_none. now intros []. Qed.

Lemma count_filestack_parse (calls : list Event) :
  List.Forall parse_call calls -> count is_filestack calls = 0.
Proof. apply count_none. now intros []. Qed.

(** The Filestack strategy begins by uploading the bytes of the file. *)
Lemma processPdfWithFilestack_first_call (w : World) (fileData : list byte)
    (ocrApiKey : jsstring) :
  exists more,
    snd (processPdfWithFilestack w (encode (fromCharCode fileData)) ocrApiKey)
    = EFilestackStore ocrApiKey fileData :: more.
Proof.
  unfold processPdfWithFilestack.
  rewrite (atob_encode (fromCharCode_is_octets fileData)), bind_lift_ok.
  rewrite byte_of_unit_to_N.
  destruct (filestack_store w ocrApiKey fileData) as [reason|code text];
    unfold fetch.
  - now exists [].
  - rewrite bind_call. now eexists.
Qed.

(** C3. Once the document is loaded, the OCR step does the following.
    For a [.pdf] key with the Filestack credential configured, the Filestack
    strategy runs first, right after the download, starting with the upload
    of the file's bytes.  If it yields a text, that
    text goes on to the structuring call and the Gemini strategy is not
    invoked for OCR.  If it throws, in whatever way, the Gemini strategy is
    invoked exactly once, after it, and the handler goes on with what that
    invocation yields or throws.  For any other key, and without the
    Filestack credential, the Gemini strategy is invoked directly, once, and
    no Filestack call is made. *)
Theorem ocr_strategy_selection (w : World) (env : Env) (req : Request)
    (path : jsstring) (fileData : list byte) (key : jsstring) :
  document_loaded w env req path fileData key ->
  let base64 := encode (fromCharCode fileData) in
  let mimeType := mimeType_of path in
  let vision := extractWithGemini w base64 mimeType key in
  let answer := fst (serve w env req) in
  let calls := snd (serve w env req) in
  (forall ocrApiKey,
     is_pdf path = true -> OCR_API_KEY env = Some ocrApiKey -> ocrApiKey <> [] ->
     let specialized := processPdfWithFilestack w base64 ocrApiKey in
     List.Forall filestack_call (snd specialized)
     /\ (exists more,
           snd specialized = EFilestackStore ocrApiKey fileData :: more)
     /\ ((exists text, fst specialized = Value text)
         \/ (exists e, fst specialized = Thrown e))
     /\ (forall text, fst specialized = Value text ->
           calls = EDownload (str path) :: snd specialized
                   ++ snd (after_ocr w key (Value text))
           /\ answer = finish (after_ocr w key (Value text))
           /\ count is_gemini calls = 0)
     /\ (forall e, fst specialized = Thrown e ->
           calls = EDownload (str path) :: snd specialized
                   ++ EGeminiOcr key mimeType base64
                   :: snd (after_ocr w key (fst vision))
           /\ answer = finish (after_ocr w key (fst vision))
           /\ count is_gemini calls = 1))
  /\ (is_pdf path = false \/ OCR_API_KEY env = None \/ OCR_API_KEY env = Some [] ->
      calls = EDownload (str path) :: EGeminiOcr key mimeType base64
              :: snd (after_ocr w key (fst vision))
      /\ answer = finish (after_ocr w key (fst vision))
      /\ count is_gemini calls = 1
      /\ count is_filestack calls = 0).
Proof.
  intros Hl base64 mimeType vision answer calls.
  pose proof (serve_loaded Hl) as E. cbv zeta in E.
  fold base64 mimeType in E. subst answer calls.
  assert (Hv : snd vision = [EGeminiOcr key mimeType base64])
    by apply extractWithGemini_calls.
  split.
  - intros ocrApiKey Hpdf Hkey Hne specialized.
    pose proof (processPdfWithFilestack_calls w base64 ocrApiKey) as Hf.
    fold specialized in Hf. unfold emits in Hf.
    split; [exact Hf|].
    split; [apply processPdfWithFilestack_first_call|]. split.
    { apply strategy_outcome. apply processPdfWithFilestack_returns. }
    assert (Es : ocr_step w (is_pdf path) (OCR_API_KEY env) base64 mimeType key
                 = try_catch specialized (fun _ => vision)).
    { unfold ocr_step. now rewrite Hkey, Hpdf, (truthy_str Hne). }
    rewrite Es in E. split.
    + intros text Ht.
      assert (Et : try_catch specialized (fun _ => vision) = specialized).
      { unfold try_catch. destruct specialized as [[a|e|r] c]; simpl in *;
          congruence. }
      rewrite Et, Ht in E. rewrite E. simpl fst. simpl snd.
      split; [reflexivity|]. split; [reflexivity|].
      change (EDownload (str path) :: ?l) with ([EDownload (str path)] ++ l).
      rewrite !count_app, (count_gemini_filestack Hf),
        (count_gemini_parse (after_ocr_calls w key (Value text))).
      reflexivity.
    + intros e He.
      assert (Et : try_catch specialized (fun _ => vision)
                   = (fst vision, snd specialized ++ snd vision)).
      { unfold try_catch. destruct specialized as [[a|e'|r] c]; simpl in *;
          try congruence. now destruct vision. }
      rewrite Et in E. simpl fst in E. simpl snd in E.
      rewrite Hv, <- app_assoc in E. rewrite E. simpl fst. simpl snd.
      split; [reflexivity|]. split; [reflexivity|].
      change (EDownload (str path) :: ?l) with ([EDownload (str path)] ++ l).
      change (EGeminiOcr key mimeType base64 :: ?l)
        with ([EGeminiOcr key mimeType base64] ++ l).
      rewrite !count_app, (count_gemini_filestack Hf),
        (count_gemini_parse (after_ocr_calls w key (fst vision))).
      reflexivity.
  - intros Hcase.
    assert (Es : ocr_step w (is_pdf path) (OCR_API_KEY env) base64 mimeType key
                 = vision).
    { unfold ocr_step. destruct Hcase as [H|[H|H]]; rewrite H; try reflexivity.
      - now destruct (OCR_API_KEY env).
      - now rewrite andb_false_r. }
    rewrite Es, Hv in E. rewrite E. simpl fst. simpl snd.
    split; [reflexivity|]. split; [reflexivity|].
    change (EDownload (str path) :: EGeminiOcr key mimeType base64 :: ?l)
      with ([EDownload (str path); EGeminiOcr key mimeType base64] ++ l).
    rewrite !count_app, (count_gemini_parse (after_ocr_calls w key (fst vision))),
      (count_filestack_parse (after_ocr_calls w key (fst vision))).
    split; reflexivity.
Qed.

Lemma sample_loaded (structured : FetchResult) (env : Env) (path : jsstring) :
  JSON.parse (fixture "{'filePath':" ++ quoted path ++ js "}")
  = Ok (JObject [(js "filePath", JString path)]) ->
  path <> [] ->
  LOVABLE_API_KEY env = Some (js "lov-key") ->
  document_loaded (sample_world structured) env
    (post (fixture "{'filePath':" ++ quoted path ++ js "}"))
    path sample_bytes (js "lov-key").
Proof.
  intros Hp Hne Hk. unfold document_loaded.
  split; [reflexivity|]. split.
  - exists (JObject [(js "filePath", JString path)]). split; [exact Hp|].
    reflexivity.
  - split; [exact Hne|]. split; [reflexivity|].
    split; [exact Hk | discriminate].
Qed.

Lemma ocr_strategy_selection_witness :
  count is_gemini
    (snd (serve (sample_world (Rejected [])) both_keys
                (post (fixture "{'filePath':'exam.pdf'}")))) = 1
  /\ count is_filestack
       (snd (serve (sample_world (Rejected [])) both_keys
                   (post (fixture "{'filePath':'exam.png'}")))) = 0.
Proof.
  split.
  - assert (H : document_loaded (sample_world (Rejected [])) both_keys
                  (post (fixture "{'filePath':'exam.pdf'}"))
                  (js "exam.pdf") sample_bytes (js "lov-key")).
    { apply (@sample_loaded (Rejected []) both_keys (js "exam.pdf"));
        [reflexivity | discriminate | reflexivity]. }
    destruct (ocr_strategy_selection H) as [Hpdf _].
    destruct (Hpdf (js "ocr-key") eq_refl eq_refl ltac:(discriminate))
      as (_ & _ & _ & _ & Hthrow).
    exact (proj2 (proj2 (Hthrow (Error (js "Failed to upload PDF to Filestack"))
                                eq_refl))).
  - assert (H : document_loaded (sample_world (Rejected [])) both_keys
                  (post (fixture "{'filePath':'exam.png'}"))
                  (js "exam.png") sample_bytes (js "lov-key")).
    { apply (@sample_loaded (Rejected []) both_keys (js "exam.png"));
        [reflexivity | discriminate | reflexivity]. }
    destruct (ocr_strategy_selection H) as [_ Himg].
    exact (proj2 (proj2 (proj2 (Himg (or_introl eq_refl))))).
Defined.

(** ** C10: scoring the exam *)




Lemma grade_all_spec (answers : gmap nat jsstring) (questions : list Question)
    (idx correctCount : nat) :
  grade_all answers idx correctCount questions
  = (List.map (fun iq => grade answers (snd iq) (fst iq))
       (numbered_from idx questions),
     correctCount
     + length (List.filter (answered_correctly answers)
                 (numbered_from idx questions))).
Proof.
  revert idx correctCount.
  induction questions as [|q rest IH]; intros idx correctCount; simpl.
  - now rewrite Nat.add_0_r.
  - rewrite IH. unfold numbered_from, answered_correctly. simpl.
    destruct (JsString.eqb (answer_at answers idx) (correctAnswer q)); simpl;
      f_equal; lia.
Qed.


Example handleSubmit_sample :
  let q a := {| question := js "Q"; options := [js "w"; js "x"; js "y"; js "z"];
                correctAnswer := js a |} in
  let answers := handleAnswer (handleAnswer (handleAnswer ∅ 0 (js "B")) 2 (js "C"))
                              0 (js "A") in
  score (handleSubmit [q "A"; q "B"; q "D"; q "D"]%string answers) = 1
  /\ total (handleSubmit [q "A"; q "B"; q "D"; q "D"]%string answers) = 4
  /\ List.map isCorrect (results (handleSubmit [q "A"; q "B"; q "D"; q "D"]%string answers))
     = [true; false; false; false]
  /\ List.map userAnswer (results (handleSubmit [q "A"; q "B"; q "D"; q "D"]%string answers))
     = [js "A"; []; js "C"; []].
Proof. repeat split; vm_compute; reflexivity. Qed.


(** Called with a map that lacks an answer, the function compares the empty
    string with the [correctAnswer]; the page never calls it so, as is shown
    below. *)
Example unanswered_counts_as_empty :
  let q := {| question := js "Q"; options := [js "yes"; js "no"];
              correctAnswer := [] |} in
  (∅ : gmap nat jsstring) !! 0 = None
  /\ score (handleSubmit [q] ∅) = 1
  /\ ExamPage.submit [q] ExamPage.initial = None.
Proof. repeat split. Qed.

(** *** The exam page up to the submission *)

Lemma keys_bounded_size {A} (m : gmap nat A) (n : nat) :
  (forall idx, is_Some (m !! idx) -> idx < n) -> base.size m <= n.
Proof.
  intros H. rewrite <- (size_dom (D := gset nat) m).
  rewrite <- (size_set_seq (C := gset nat) 0 n).
  apply subseteq_size. intros idx Hidx.
  apply elem_of_dom in Hidx. apply H in Hidx.
  apply elem_of_set_seq. lia.
Qed.

Lemma keys_full {A} (m : gmap nat A) (n : nat) :
  (forall idx, is_Some (m !! idx) -> idx < n) -> n <= base.size m ->
  forall idx, idx < n -> is_Some (m !! idx).
Proof.
  intros H Hn idx Hidx. apply (elem_of_dom (D := gset nat)).
  assert (E : dom m = set_seq (C := gset nat) 0 n).
  { apply set_subseteq_size_eq.
    - intros i Hi. apply elem_of_dom in Hi. apply H in Hi.
      apply elem_of_set_seq. lia.
    - rewrite size_set_seq, size_dom. exact Hn. }
  rewrite E. apply elem_of_set_seq. lia.
Qed.

Lemma exam_invariant (questions : list Question) (s : ExamPage.State) :
  questions <> [] ->
  ExamPage.reachable questions s ->
  ExamPage.currentQuestion s < length questions
  /\ forall idx, is_Some (ExamPage.answers s !! idx) -> idx < length questions.
Proof.
  intros Hq. assert (Hn : 0 < length questions) by (destruct questions; simpl; [easy|lia]).
  induction 1 as [|s s' _ [Hc Hk] Hstep].
  - split; [exact Hn|]. intros idx [a Ha]. simpl in Ha.
    now rewrite lookup_empty in Ha.
  - destruct Hstep as [s optionIndex|s|s Hlast|s idx Hidx]; simpl.
    + split; [exact Hc|]. intros idx Hidx.
      unfold Exam.handleAnswer in Hidx.
      apply lookup_insert_is_Some' in Hidx as [<-|Hidx]; [exact Hc | now apply Hk].
    + unfold ExamPage.handlePrevious.
      destruct (0 <? ExamPage.currentQuestion s); simpl; split; try assumption. lia.
    + unfold ExamPage.handleNext.
      destruct (ExamPage.currentQuestion s <? length questions - 1) eqn:E;
        simpl; split; try assumption.
      apply Nat.ltb_lt in E. lia.
    + split; assumption.
Qed.






(* ================================================================== *)
(** * Further properties of the code *)

(** ** The chunks of the encoder *)

Lemma subarray_length (a : list byte) (i c : nat) :
  i < length a -> 0 < c ->
  1 <= length (subarray a i (i + c)) <= c.
Proof.
  intros Hi Hc. unfold subarray.
  replace (i + c - i) with c by lia.
  rewrite length_firstn, length_skipn. lia.
Qed.

Lemma chunks_from_concat (c : positive) (a : list byte) (i : nat) :
  List.concat (chunks_from c a i) = skipn i a.
Proof.
  funelim (chunks_from c a i).
  - simpl. match goal with IH : List.concat _ = _ |- _ => rewrite IH end.
    unfold subarray.
    replace (i + Pos.to_nat chunkSize0 - i) with (Pos.to_nat chunkSize0) by lia.
    rewrite Nat.add_comm, <- skipn_skipn. apply firstn_skipn.
  - now rewrite skipn_all2 by lia.
Qed.

Lemma chunks_from_bounded (c : positive) (a : list byte) (i : nat) :
  List.Forall (fun chunk => 1 <= length chunk <= Pos.to_nat c)
    (chunks_from c a i).
Proof.
  funelim (chunks_from c a i); constructor.
  - apply subarray_length; lia.
  - assumption.
Qed.

Lemma chunks_from_length (c : positive) (a : list byte) (i : nat) :
  length (chunks_from c a i)
  = (length a - i + Pos.to_nat c - 1) / Pos.to_nat c.
Proof.
  funelim (chunks_from c a i).
  - simpl length.
    match goal with IH : length _ = _ |- _ => rewrite IH end.
    set (n := Pos.to_nat chunkSize0) in *.
    assert (Hn : 0 < n) by (unfold n; lia).
    destruct (le_lt_dec (i + n) (length uint8Array)) as [Hle|Hgt].
    + replace (length uint8Array - i + n - 1)
        with (length uint8Array - (i + n) + n - 1 + 1 * n) by lia.
      rewrite Nat.div_add by lia. lia.
    + replace (length uint8Array - (i + n) + n - 1) with (n - 1) by lia.
      rewrite Nat.div_small by lia.
      apply (Nat.div_unique _ _ _ (length uint8Array - i - 1)); lia.
  - replace (length uint8Array - i + Pos.to_nat chunkSize0 - 1)
      with (Pos.to_nat chunkSize0 - 1) by lia.
    rewrite Nat.div_small by lia. reflexivity.
Qed.

Lemma chunk_loop_chunks (c : positive) (a : list byte) (i : nat) (acc : jsstring) :
  chunk_loop c a i acc
  = acc ++ List.concat (List.map fromCharCode (chunks_from c a i)).
Proof.
  rewrite chunk_loop_spec. f_equal.
  rewrite <- chunks_from_concat with (c := c).
  unfold fromCharCode. now rewrite List.concat_map.
Qed.

(** X1. The loop of the encoder cuts the array into consecutive chunks that
    together are the array; each call of [String.fromCharCode] gets at least
    one and at most 8192 bytes, and there are as many calls as the length
    divided by 8192, rounded up (none for the empty array). *)
Theorem encoder_chunks (uint8Array : list byte) :
  let chunks := chunks_from chunkSize uint8Array 0 in
  List.concat chunks = uint8Array
  /\ List.Forall (fun chunk => 1 <= length chunk <= Pos.to_nat chunkSize) chunks
  /\ length chunks
     = (length uint8Array + Pos.to_nat chunkSize - 1) / Pos.to_nat chunkSize
  /\ chunk_loop chunkSize uint8Array 0 []
     = List.concat (List.map fromCharCode chunks).
Proof.
  intros chunks. subst chunks. split; [|split; [|split]].
  - apply chunks_from_concat.
  - apply chunks_from_bounded.
  - rewrite chunks_from_length. now rewrite Nat.sub_0_r.
  - apply chunk_loop_chunks.
Qed.

Example chunks_from_sample :
  chunks_from 2 [x01; x02; x03; x04; x05]%byte 0
  = [[x01; x02]; [x03; x04]; [x05]]%byte
  /\ chunks_from 2 [] 0 = [].
Proof. split; reflexivity. Qed.

(** X2. Decoding the base64 text of the handler the way
    [processPdfWithFilestack] does ([atob], then one byte per code unit)
    gives back the bytes of the downloaded file: the encoding loses
    nothing, and [atob] never throws on it. *)
Theorem base64_round_trip (fileData : list byte) :
  exists base64 binaryString,
    chunked_base64 fileData = Ok base64
    /\ atob base64 = Ok binaryString
    /\ length binaryString = length fileData
    /\ List.map byte_of_unit binaryString = fileData.
Proof.
  exists (encode (fromCharCode fileData)), (fromCharCode fileData).
  split; [apply chunked_base64_value|].
  split; [apply atob_encode, fromCharCode_is_octets|].
  split; [apply length_map | apply byte_of_unit_to_N].
Qed.

(** ** What is left of the text after the post-processing *)

(** X3. Whatever the model wrote, the text handed to [JSON.parse] holds no
    [```] any more and neither starts nor ends with white space;
    post-processing it a second time changes nothing. *)
Theorem cleanedText_is_clean (questionsText : jsstring) :
  let cleaned := cleanedText questionsText in
  ~ occurs fence cleaned
  /\ (forall c rest, cleaned = c :: rest -> is_js_space c = false)
  /\ (forall c front, cleaned = front ++ [c] -> is_js_space c = false)
  /\ cleanedText cleaned = cleaned.
Proof.
  intros cleaned.
  assert (Hf : ~ occurs fence cleaned).
  { intros H. apply occurs_trim in H.
    revert H. apply occursb_false, replace_all_fence_complete. }
  destruct (trim_ends (replace_all fence (replace_all fence_json questionsText)))
    as [Hh Hl].
  split; [exact Hf|]. split; [exact Hh|]. split; [exact Hl|].
  rewrite (cleanedText_plain Hf). now apply trim_fixed.
Qed.

Example cleanedText_nested_markers :
  cleanedText (js "``````jsonjson [1] ````") = js "json [1] `".
Proof. reflexivity. Qed.

(** ** The answers of the handler *)

Lemma finish_bind_standard {A} (m : M A) (k : A -> M Response) :
  returns standard_answer m -> (forall a, standard_answer (finish (k a))) ->
  standard_answer (finish (bind m k)).
Proof.
  unfold returns, finish, bind. intros Hm Hk.
  destruct m as [[a|e|r] calls]; simpl in *.
  - specialize (Hk a). now destruct (k a).
  - left. exists 500%Z, (message e). split; [reflexivity | simpl; tauto].
  - exact Hm.
Qed.

Ltac standard_tac :=
  repeat first
    [ apply returns_lift | apply returns_fetch | apply returns_when
    | exact I
    | solve [left; do 2 eexists; split; [reflexivity | simpl; tauto]]
    | apply returns_bind; [|intros ?]
    | apply returns_try_catch; [|intros ?]
    | match goal with
      | |- returns _ (if ?c then _ else _) => destruct c
      | |- returns _ (match ?x with _ => _ end) => destruct x
      end ].

Lemma structuring_answer_standard (aiResponse : Z * jsstring) :
  standard_answer (finish (structuring_answer aiResponse)).
Proof.
  unfold structuring_answer.
  apply finish_bind_standard; [standard_tac|]. intros _.
  apply finish_bind_standard; [standard_tac|]. intros aiData.
  apply finish_bind_standard; [standard_tac|]. intros questionsText.
  apply finish_bind_standard; [standard_tac|]. intros questions.
  destruct questions; simpl;
    try (left; do 2 eexists; split; [reflexivity | simpl; tauto]).
  right. now eexists.
Qed.

Lemma serve_try_standard (w : World) (env : Env) (req : Request) :
  standard_answer (finish (serve_try w env req)).
Proof.
  unfold serve_try.
  repeat first
    [ apply structuring_answer_standard
    | apply finish_bind_standard;
      [solve [standard_tac | apply ocr_step_returns] | intros ?] ].
Qed.

Lemma standard_answer_headers (r : Response) :
  standard_answer r ->
  headers r = json_headers /\ In (status r) [200; 400; 402; 429; 500]%Z.
Proof.
  intros [(st & msg & -> & Hst)|(elems & ->)]; simpl.
  - split; [reflexivity|]. simpl in Hst. tauto.
  - split; [reflexivity | tauto].
Qed.

(** X4. Every answer of the handler is the preflight answer, an error body
    with status 400, 402, 429 or 500, or a questions array with status 200;
    whatever is thrown inside becomes a 500 answer.  Every answer carries the
    two CORS headers, and every answer but the preflight one is declared as
    JSON. *)
Theorem serve_answers (w : World) (env : Env) (req : Request) :
  let r := fst (serve w env req) in
  ((JsString.eqb (method req) (js "OPTIONS") = true
    /\ serve w env req = (preflight_response, []))
   \/ (JsString.eqb (method req) (js "OPTIONS") = false
       /\ standard_answer r /\ headers r = json_headers))
  /\ firstn 2 (headers r) = corsHeaders
  /\ In (status r) [200; 400; 402; 429; 500]%Z.
Proof.
  intros r. subst r.
  destruct (JsString.eqb (method req) (js "OPTIONS")) eqn:E.
  - assert (Es : serve w env req = (preflight_response, [])).
    { unfold serve. now rewrite E. }
    rewrite Es. split; [left; now split|]. split; [reflexivity | simpl; tauto].
  - rewrite (serve_finish w env E). simpl fst.
    pose proof (serve_try_standard w env req) as Hs.
    destruct (standard_answer_headers Hs) as [Hh Hst].
    split; [right; now repeat split|]. split; [now rewrite Hh | exact Hst].
Qed.

(** ** The order of the calls *)

Lemma paced_nil (lo hi : nat) : paced lo hi [].
Proof. split; constructor. Qed.

Lemma paced_one (lo hi : nat) (e : Event) :
  lo <= call_rank e < hi -> paced lo hi [e].
Proof. intros H. split; repeat constructor; lia. Qed.

Lemma paced_weaken (lo lo' hi hi' : nat) (calls : list Event) :
  lo' <= lo -> hi <= hi' -> paced lo hi calls -> paced lo' hi' calls.
Proof.
  intros Hl Hh [Hs Hf]. split; [exact Hs|].
  eapply List.Forall_impl; [|exact Hf]. simpl. intros e. lia.
Qed.

Lemma paced_app (lo mid hi : nat) (a b : list Event) :
  paced lo mid a -> paced mid hi b -> lo <= mid <= hi -> paced lo hi (a ++ b).
Proof.
  intros [Hsa Hfa] [Hsb Hfb] Hm. split.
  - rewrite List.map_app.
    induction a as [|e a IH]; simpl; [exact Hsb|].
    inversion Hsa as [|? ? Hs Hlt]; subst. inversion Hfa as [|? ? He Hf]; subst.
    constructor; [now apply IH|].
    apply List.Forall_app. split; [exact Hlt|].
    apply List.Forall_forall. intros r Hr.
    apply in_map_iff in Hr as (e' & <- & He').
    rewrite List.Forall_forall in Hfb. specialize (Hfb e' He'). lia.
  - apply List.Forall_app. split.
    + eapply List.Forall_impl; [|exact Hfa]. simpl. intros e. lia.
    + eapply List.Forall_impl; [|exact Hfb]. simpl. intros e. lia.
Qed.

Lemma paced_length (lo hi : nat) (calls : list Event) :
  paced lo hi calls -> length calls <= hi - lo.
Proof.
  revert lo. induction calls as [|e calls IH]; intros lo [Hs Hf]; simpl;
    [lia|].
  inversion Hs as [|? ? Hs' Hlt]; subst. inversion Hf as [|? ? He Hf']; subst.
  assert (H : paced (S (call_rank e)) hi calls).
  { split; [exact Hs'|]. apply List.Forall_forall. intros e' He'.
    rewrite List.Forall_forall in Hf', Hlt.
    specialize (Hf' e' He'). specialize (Hlt (call_rank e')).
    assert (call_rank e < call_rank e') by (apply Hlt, in_map, He'). lia. }
  apply IH in H. lia.
Qed.

Lemma quiet {A} (m : M A) : emits (fun _ => False) m -> snd m = [].
Proof. unfold emits. destruct (snd m); [easy | now inversion 1]. Qed.

Section Paced.

Variables lo hi : nat.

Lemma paced_quiet {A} (m : M A) :
  emits (fun _ => False) m -> paced lo hi (snd m).
Proof. intros H. rewrite (quiet H). apply paced_nil. Qed.

Lemma paced_bind_quiet {A B} (m : M A) (k : A -> M B) :
  emits (fun _ => False) m -> (forall a, paced lo hi (snd (k a))) ->
  paced lo hi (snd (bind m k)).
Proof.
  intros Hm Hk. apply quiet in Hm. unfold bind.
  destruct m as [[a|e|r] calls]; simpl in *; subst calls;
    try apply paced_nil.
  specialize (Hk a). now destruct (k a).
Qed.

Lemma paced_bind {A B} (mid : nat) (m : M A) (k : A -> M B) :
  paced lo mid (snd m) -> (forall a, paced mid hi (snd (k a))) ->
  lo <= mid <= hi -> paced lo hi (snd (bind m k)).
Proof.
  intros Hm Hk Hmid. unfold bind.
  destruct m as [[a|e|r] calls]; simpl in *;
    try (eapply paced_weaken; [| |exact Hm]; lia).
  specialize (Hk a). destruct (k a) as [o calls']. simpl in *.
  now apply (paced_app (mid := mid)).
Qed.

Lemma paced_try_catch {A} (mid : nat) (m : M A) (h : Exn -> M A) :
  paced lo mid (snd m) -> (forall e, paced mid hi (snd (h e))) ->
  lo <= mid <= hi -> paced lo hi (snd (try_catch m h)).
Proof.
  intros Hm Hh Hmid. unfold try_catch.
  destruct m as [[a|e|r] calls]; simpl in *;
    try (eapply paced_weaken; [| |exact Hm]; lia).
  specialize (Hh e). destruct (h e) as [o calls']. simpl in *.
  now apply (paced_app (mid := mid)).
Qed.

Lemma paced_fetch (e : Event) (r : FetchResult) :
  lo <= call_rank e < hi -> paced lo hi (snd (fetch e r)).
Proof. intros H. destruct r; now apply paced_one. Qed.

End Paced.

Section PacedHandler.

Variable w : World.

Lemma processPdfWithFilestack_paced (base64Data ocrApiKey : jsstring) :
  paced 1 3 (snd (processPdfWithFilestack w base64Data ocrApiKey)).
Proof.
  unfold processPdfWithFilestack.
  apply paced_bind_quiet; [emits_tac | intros binaryString].
  apply (paced_bind (mid := 2)); [apply paced_fetch; simpl; lia | | lia].
  intros uploadResponse.
  do 3 (apply paced_bind_quiet; [emits_tac | intros ?]).
  apply (paced_bind (mid := 3)); [apply paced_fetch; simpl; lia | | lia].
  intros ocrResponse.
  apply paced_quiet. emits_tac.
Qed.

Lemma extractWithGemini_paced (base64 mimeType key : jsstring) :
  paced 3 4 (snd (extractWithGemini w base64 mimeType key)).
Proof. rewrite extractWithGemini_calls. apply paced_one. simpl. lia. Qed.

Lemma ocr_step_paced isPdf ocrApiKey base64 mimeType key :
  paced 1 4 (snd (ocr_step w isPdf ocrApiKey base64 mimeType key)).
Proof.
  assert (G : paced 1 4 (snd (extractWithGemini w base64 mimeType key))).
  { eapply paced_weaken; [| |apply extractWithGemini_paced]; lia. }
  unfold ocr_step. destruct ocrApiKey as [k|]; [|exact G].
  destruct (isPdf && truthy (str k)); [|exact G].
  apply (paced_try_catch (mid := 3));
    [apply processPdfWithFilestack_paced | | lia].
  intros _. destruct isPdf; [apply extractWithGemini_paced | apply paced_nil].
Qed.

Lemma serve_try_paced (env : Env) (req : Request) :
  paced 0 5 (snd (serve_try w env req)).
Proof.
  unfold serve_try.
  do 3 (apply paced_bind_quiet; [emits_tac | intros ?]).
  apply (paced_bind (mid := 1)); [apply paced_one; simpl; lia | | lia].
  intros download.
  do 4 (apply paced_bind_quiet; [emits_tac | intros ?]).
  apply (paced_bind (mid := 4)); [apply ocr_step_paced | | lia].
  intros extractedText.
  apply paced_bind_quiet; [emits_tac | intros _].
  apply (paced_bind (mid := 5)); [apply paced_fetch; simpl; lia | | lia].
  intros aiResponse. rewrite structuring_answer_calls. apply paced_nil.
Qed.

Lemma serve_try_first_call (env : Env) (req : Request) :
  snd (serve_try w env req) = []
  \/ exists filePath rest, snd (serve_try w env req) = EDownload filePath :: rest.
Proof.
  unfold serve_try.
  destruct (JSON.parse (req_body req)) as [parsed|e];
    [rewrite bind_lift_ok | now left].
  destruct (get (Val parsed) (js "filePath")) as [filePath|e];
    [rewrite bind_lift_ok | now left].
  destruct (truthy filePath); [|now left].
  simpl negb. simpl when. rewrite bind_ret, bind_call.
  right. now eexists _, _.
Qed.

End PacedHandler.

(** X5. The calls of an invocation are made in the order of the pipeline,
    storage download, Filestack upload, Filestack OCR, Gemini OCR,
    structuring call, each of them at most once, so never more than five; if
    any call is made, the first one is the download. *)
Theorem serve_calls_in_order (w : World) (env : Env) (req : Request) :
  let calls := snd (serve w env req) in
  StronglySorted lt (List.map call_rank calls)
  /\ length calls <= 5
  /\ (calls = [] \/ exists filePath rest, calls = EDownload filePath :: rest).
Proof.
  intros calls. subst calls.
  destruct (JsString.eqb (method req) (js "OPTIONS")) eqn:E.
  - unfold serve. rewrite E. simpl.
    split; [constructor|]. split; [lia | now left].
  - rewrite (serve_finish w env E). simpl snd.
    pose proof (serve_try_paced w env req) as H.
    split; [apply H|]. split; [apply (paced_length H)|].
    apply serve_try_first_call.
Qed.

(** ** Failures before the structuring call *)

(** X6. When the storage cannot deliver the file, the handler answers 500
    with [Failed to download file]; the download is the only call made. *)
Theorem download_failure_is_500 (w : World) (env : Env) (req : Request)
    (filePath : value) (reason : jsstring) :
  JsString.eqb (method req) (js "OPTIONS") = false ->
  body_filePath req filePath ->
  truthy filePath = true ->
  storage_download w filePath = DownloadError reason ->
  serve w env req
  = (error_response 500 (js "Failed to download file"), [EDownload filePath]).
Proof.
  intros Hm (parsed & Hp & Hg) Ht Hd.
  rewrite (serve_finish w env Hm). unfold serve_try.
  rewrite Hp, bind_lift_ok, Hg, bind_lift_ok, Ht.
  simpl negb. simpl when. rewrite bind_ret, bind_call, Hd.
  reflexivity.
Qed.

Lemma download_failure_is_500_witness :
  serve no_file_world both_keys (post (fixture "{'filePath':'gone.pdf'}"))
  = (error_response 500 (js "Failed to download file"),
     [EDownload (str (js "gone.pdf"))]).
Proof.
  apply (@download_failure_is_500 no_file_world both_keys
           (post (fixture "{'filePath':'gone.pdf'}")) (str (js "gone.pdf"))
           (js "Object not found")).
  - reflexivity.
  - eexists. split; reflexivity.
  - reflexivity.
  - reflexivity.
Defined.

(** X7. Without the gateway credential (unset or empty) the handler answers
    500 with [LOVABLE_API_KEY not configured]; by then the file has been
    downloaded, and no provider has been called. *)
Theorem gateway_key_is_required (w : World) (env : Env) (req : Request)
    (path : jsstring) (fileData : list byte) :
  JsString.eqb (method req) (js "OPTIONS") = false ->
  body_filePath req (str path) ->
  path <> [] ->
  storage_download w (str path) = Downloaded fileData ->
  LOVABLE_API_KEY env = None \/ LOVABLE_API_KEY env = Some [] ->
  serve w env req
  = (error_response 500 (js "LOVABLE_API_KEY not configured"),
     [EDownload (str path)]).
Proof.
  intros Hm (parsed & Hp & Hg) Hpath Hd Hk.
  rewrite (serve_finish w env Hm). unfold serve_try.
  rewrite Hp, bind_lift_ok, Hg, bind_lift_ok, (truthy_str Hpath).
  simpl negb. simpl when. rewrite bind_ret, bind_call, Hd, bind_ret.
  unfold chunked_base64. rewrite chunked_base64_value, bind_lift_ok.
  simpl string_receiver. rewrite bind_lift_ok.
  destruct Hk as [-> | ->]; reflexivity.
Qed.

Lemma gateway_key_is_required_witness :
  serve (sample_world (Rejected [])) no_keys
        (post (fixture "{'filePath':'a.png'}"))
  = (error_response 500 (js "LOVABLE_API_KEY not configured"),
     [EDownload (str (js "a.png"))]).
Proof.
  apply (@gateway_key_is_required (sample_world (Rejected [])) no_keys
           (post (fixture "{'filePath':'a.png'}")) (js "a.png") sample_bytes).
  - reflexivity.
  - eexists. split; reflexivity.
  - discriminate.
  - reflexivity.
  - now left.
Defined.

(** X8. A [filePath] that is truthy but not a string (a number, [true], an
    array, an object) passes the guard: the download is attempted with it,
    and when the storage delivers, the handler fails on
    [filePath.toLowerCase] and answers 500 without any provider call. *)
Theorem non_string_filePath_is_500 (w : World) (env : Env) (req : Request)
    (filePath : value) (fileData : list byte) :
  JsString.eqb (method req) (js "OPTIONS") = false ->
  body_filePath req filePath ->
  truthy filePath = true ->
  (forall s, filePath <> str s) ->
  storage_download w filePath = Downloaded fileData ->
  status (fst (serve w env req)) = 500%Z
  /\ snd (serve w env req) = [EDownload filePath].
Proof.
  intros Hm (parsed & Hp & Hg) Ht Hs Hd.
  rewrite (serve_finish w env Hm). unfold serve_try.
  rewrite Hp, bind_lift_ok, Hg, bind_lift_ok, Ht.
  simpl negb. simpl when. rewrite bind_ret, bind_call, Hd, bind_ret.
  unfold chunked_base64. rewrite chunked_base64_value, bind_lift_ok.
  assert (E : exists e, string_receiver filePath = Throw e).
  { destruct filePath as [|[]]; simpl; eauto.
    exfalso. now apply (Hs s). }
  destruct E as [e ->]. split; reflexivity.
Qed.

Lemma non_string_filePath_is_500_witness :
  status (fst (serve (sample_world (Rejected [])) both_keys
                     (post (fixture "{'filePath':['a.pdf']}")))) = 500%Z
  /\ snd (serve (sample_world (Rejected [])) both_keys
                (post (fixture "{'filePath':['a.pdf']}")))
     = [EDownload (Val (JArray [JString (js "a.pdf")]))].
Proof.
  apply (@non_string_filePath_is_500 (sample_world (Rejected [])) both_keys
           (post (fixture "{'filePath':['a.pdf']}"))
           (Val (JArray [JString (js "a.pdf")])) sample_bytes).
  - reflexivity.
  - eexists. split; reflexivity.
  - reflexivity.
  - discriminate.
  - reflexivity.
Defined.

(** When the Gemini strategy comes first, the handler is that strategy
    followed by [after_ocr]. *)
(** Up to its OCR step the handler has called the storage at most. *)
Lemma serve_until_loaded (w : World) (env : Env) (req : Request) :
  JsString.eqb (method req) (js "OPTIONS") = false ->
  (exists path fileData key, document_loaded w env req path fileData key)
  \/ List.Forall storage_call (snd (serve w env req)).
Proof.
  intros Hm. rewrite (serve_finish w env Hm). cbn [snd].
  unfold serve_try.
  destruct (JSON.parse (req_body req)) as [parsed|e] eqn:Hp;
    [|right; constructor].
  rewrite bind_lift_ok.
  destruct (get (Val parsed) (js "filePath")) as [filePath|e] eqn:Hg;
    [|right; constructor].
  rewrite bind_lift_ok.
  destruct (truthy filePath) eqn:Ht; cbn [negb when];
    [|right; constructor].
  rewrite bind_ret, bind_call. cbn [fst snd].
  destruct (storage_download w filePath) as [reason|fileData] eqn:Hd.
  { right. constructor; [reflexivity | constructor]. }
  rewrite bind_ret. unfold chunked_base64. rewrite chunked_base64_value.
  rewrite bind_lift_ok.
  destruct (string_receiver filePath) as [path|e] eqn:Hs.
  2:{ right. constructor; [reflexivity | constructor]. }
  rewrite bind_lift_ok. cbv zeta.
  apply string_receiver_str in Hs. subst filePath.
  destruct (LOVABLE_API_KEY env) as [key|] eqn:Hk.
  2:{ right. constructor; [reflexivity | constructor]. }
  destruct (truthy (str key)) eqn:Htk.
  2:{ right. constructor; [reflexivity | constructor]. }
  left. exists path, fileData, key.
  split; [exact Hm|]. split; [now exists parsed|].
  split; [now apply truthy_str_inv|]. split; [exact Hd|].
  split; [exact Hk | now apply truthy_str_inv].
Qed.

(** The OCR step calls Gemini at the end or not at all: directly, or after
    the calls of a Filestack attempt that failed. *)
Lemma ocr_step_gemini (w : World) (isPdf : bool) (ocrApiKey : option jsstring)
    (base64 mimeType key k m b : jsstring) :
  In (EGeminiOcr k m b)
     (snd (ocr_step w isPdf ocrApiKey base64 mimeType key)) ->
  k = key /\ m = mimeType /\ b = base64
  /\ exists attempts,
       List.Forall filestack_call attempts
       /\ ocr_step w isPdf ocrApiKey base64 mimeType key
          = (fst (extractWithGemini w base64 mimeType key),
             attempts ++ [EGeminiOcr key mimeType base64]).
Proof.
  pose proof (extractWithGemini_calls w base64 mimeType key) as Hv.
  assert (G : In (EGeminiOcr k m b)
                 (snd (extractWithGemini w base64 mimeType key)) ->
              k = key /\ m = mimeType /\ b = base64
              /\ exists attempts,
                   List.Forall filestack_call attempts
                   /\ extractWithGemini w base64 mimeType key
                      = (fst (extractWithGemini w base64 mimeType key),
                         attempts ++ [EGeminiOcr key mimeType base64])).
  { rewrite Hv. intros [H|[]]. injection H as <- <- <-.
    repeat split. exists []. split; [constructor|].
    rewrite <- Hv. now destruct (extractWithGemini w base64 mimeType key). }
  unfold ocr_step. destruct ocrApiKey as [ocrKey|]; [|exact G].
  destruct (isPdf && truthy (str ocrKey)) eqn:E; [|exact G].
  apply andb_true_iff in E as [-> _].
  pose proof (processPdfWithFilestack_calls w base64 ocrKey) as Hc.
  unfold emits in Hc.
  destruct (processPdfWithFilestack w base64 ocrKey) as [[a|e|r] calls];
    cbn [try_catch fst snd] in *.
  - intros H. rewrite List.Forall_forall in Hc. destruct (Hc _ H).
  - destruct (extractWithGemini w base64 mimeType key) as [o calls'] eqn:Ev.
    cbn [fst snd] in *. subst calls'. intros H.
    apply in_app_or in H as [H|[H|[]]].
    + rewrite List.Forall_forall in Hc. destruct (Hc _ H).
    + injection H as <- <- <-. repeat split. now exists calls.
  - intros H. rewrite List.Forall_forall in Hc. destruct (Hc _ H).
Qed.

(** When the handler calls Gemini for the OCR, it has downloaded the file
    and at most tried Filestack before, and what follows is decided by what
    Gemini answers. *)
Lemma serve_gemini_call (w : World) (env : Env) (req : Request)
    (key mimeType base64 : jsstring) :
  In (EGeminiOcr key mimeType base64) (snd (serve w env req)) ->
  exists filePath attempts,
    List.Forall filestack_call attempts
    /\ serve w env req
       = (finish (after_ocr w key
                    (fst (extractWithGemini w base64 mimeType key))),
          EDownload filePath :: attempts
          ++ EGeminiOcr key mimeType base64
          :: snd (after_ocr w key
                    (fst (extractWithGemini w base64 mimeType key)))).
Proof.
  intros Hin.
  destruct (JsString.eqb (method req) (js "OPTIONS")) eqn:Hm.
  { unfold serve in Hin. rewrite Hm in Hin. destruct Hin. }
  destruct (serve_until_loaded w env Hm)
    as [(path & fileData & key' & Hl)|Hs].
  2:{ rewrite List.Forall_forall in Hs. specialize (Hs _ Hin). discriminate. }
  rewrite (serve_loaded Hl) in *. cbn [snd] in Hin.
  destruct Hin as [Hin|Hin]; [discriminate|].
  apply in_app_or in Hin as [Hin|Hin].
  - destruct (ocr_step_gemini Hin)
      as (-> & -> & -> & attempts & Ha & ->).
    exists (str path), attempts. split; [exact Ha|].
    cbn [fst snd]. now rewrite <- app_assoc.
  - pose proof (after_ocr_calls w key'
                  (fst (ocr_step w (is_pdf path) (OCR_API_KEY env)
                          (encode (fromCharCode fileData))
                          (mimeType_of path) key'))) as Hp.
    rewrite List.Forall_forall in Hp. destruct (Hp _ Hin).
Qed.

(** X9. A failure answer of the gateway to the OCR request is not
    classified by its status: whether it was 429, 402 or anything else
    outside 2xx, and whether the request was the first choice or the fallback
    after a failed Filestack attempt, the handler answers 500, with [Gemini
    OCR failed: ] followed by the text of the gateway's answer.  The calls
    made are the download, the calls of the failed attempt if there was one,
    and the OCR request: there is no structuring call. *)
Theorem gemini_failure_is_500 (w : World) (env : Env) (req : Request)
    (key mimeType base64 : jsstring) (code : Z) (text : jsstring) :
  In (EGeminiOcr key mimeType base64) (snd (serve w env req)) ->
  gemini_ocr w key mimeType base64 = Responded code text ->
  ok_status code = false ->
  fst (serve w env req)
  = error_response 500 (js "Gemini OCR failed: " ++ text)
  /\ exists filePath attempts,
       List.Forall filestack_call attempts
       /\ snd (serve w env req)
          = EDownload filePath :: attempts
            ++ [EGeminiOcr key mimeType base64].
Proof.
  intros Hin Hg Hok.
  destruct (serve_gemini_call Hin) as (filePath & attempts & Ha & E).
  rewrite E. cbn [fst snd].
  assert (Ev : fst (extractWithGemini w base64 mimeType key)
               = Thrown (Error (js "Gemini OCR failed: " ++ text))).
  { unfold extractWithGemini. rewrite Hg. unfold fetch.
    rewrite bind_call. cbn [fst snd]. now rewrite Hok. }
  rewrite Ev. split; [reflexivity|]. now exists filePath, attempts.
Qed.

Lemma gemini_failure_is_500_witness :
  fst (serve (gemini_world (Responded 429 (js "slow down"))) both_keys
         (post (fixture "{'filePath':'exam.pdf'}")))
  = error_response 500 (js "Gemini OCR failed: slow down").
Proof.
  refine (proj1 (@gemini_failure_is_500
                   (gemini_world (Responded 429 (js "slow down"))) both_keys
                   (post (fixture "{'filePath':'exam.pdf'}"))
                   (js "lov-key") (js "application/pdf") sample_base64
                   429 (js "slow down") _ _ _)).
  - vm_compute. do 2 right. left. reflexivity.
  - reflexivity.
  - reflexivity.
Defined.

(** X10. When the gateway answers the OCR request, first choice or
    fallback, with a completion whose message content is absent or [null],
    the handler fails on reading the length of the text: it answers 500, and
    the OCR request is its last call, so there is no structuring call. *)
Theorem gemini_without_content_is_500 (w : World) (env : Env) (req : Request)
    (key mimeType base64 : jsstring)
    (code : Z) (text : jsstring) (ocrData : json) (content : value) :
  In (EGeminiOcr key mimeType base64) (snd (serve w env req)) ->
  gemini_ocr w key mimeType base64 = Responded code text ->
  ok_status code = true ->
  JSON.parse text = Ok ocrData ->
  message_content ocrData = Ok content ->
  content = Undefined \/ content = Val JNull ->
  status (fst (serve w env req)) = 500%Z
  /\ exists filePath attempts,
       List.Forall filestack_call attempts
       /\ snd (serve w env req)
          = EDownload filePath :: attempts
            ++ [EGeminiOcr key mimeType base64].
Proof.
  intros Hin Hg Hok Hp Hc Hnull.
  destruct (serve_gemini_call Hin) as (filePath & attempts & Ha & E).
  rewrite E. cbn [fst snd].
  assert (Ev : fst (extractWithGemini w base64 mimeType key) = Value content).
  { unfold extractWithGemini. rewrite Hg. unfold fetch.
    rewrite bind_call. cbn [fst snd]. rewrite Hok. cbn [negb when].
    now rewrite bind_ret, Hp, bind_lift_ok, Hc. }
  rewrite Ev.
  destruct Hnull as [-> | ->]; (split; [reflexivity|]);
    now exists filePath, attempts.
Qed.

Lemma gemini_without_content_is_500_witness :
  status (fst (serve (gemini_world
                        (Responded 200 (fixture "{'choices':[{'message':{}}]}")))
                     both_keys (post (fixture "{'filePath':'exam.pdf'}"))))
  = 500%Z.
Proof.
  refine (proj1 (@gemini_without_content_is_500
                   (gemini_world
                      (Responded 200 (fixture "{'choices':[{'message':{}}]}")))
                   both_keys (post (fixture "{'filePath':'exam.pdf'}"))
                   (js "lov-key") (js "application/pdf") sample_base64 200
                   (fixture "{'choices':[{'message':{}}]}")
                   (JObject [(js "choices",
                              JArray [JObject [(js "message", JObject [])]])])
                   Undefined _ _ _ _ _ _)).
  - vm_compute. do 2 right. left. reflexivity.
  - reflexivity.
  - reflexivity.
  - reflexivity.
  - reflexivity.
  - now left.
Defined.

(** ** The Filestack strategy *)

Lemma yields_bind {A B} (P : A -> Prop) (Q : B -> Prop) (m : M A)
    (k : A -> M B) :
  yields P m -> (forall a, P a -> yields Q (k a)) -> yields Q (bind m k).
Proof.
  unfold yields, bind. intros Hm Hk.
  destruct m as [[a|e|r] calls]; simpl in *; try exact I.
  specialize (Hk a Hm). now destruct (k a).
Qed.

Lemma yields_any {A} (m : M A) : yields (fun _ => True) m.
Proof. unfold yields. now destruct (fst m). Qed.

Lemma empty_or_truthy_str (s : jsstring) : empty_or_truthy (str s).
Proof. destruct s; [now left | now right]. Qed.

(** X11. The text the Filestack strategy yields is the empty string or a
    truthy value, never [undefined] or [null]: reading its length, as the
    handler does next, cannot throw. *)
Theorem filestack_text_has_length (w : World) (base64Data ocrApiKey : jsstring) :
  yields (fun text => empty_or_truthy text
                      /\ exists len, get text (js "length") = Ok len)
    (processPdfWithFilestack w base64Data ocrApiKey).
Proof.
  unfold processPdfWithFilestack.
  do 9 (eapply yields_bind; [apply yields_any | intros ? _]; cbv zeta).
  eapply (yields_bind (P := empty_or_truthy)).
  - match goal with |- context [truthy ?t] => destruct (truthy t) eqn:Ht end.
    + now right.
    + eapply yields_bind; [apply yields_any | intros ocr _].
      eapply yields_bind; [apply yields_any | intros ocr_text _].
      destruct (truthy ocr_text) eqn:Ho; [now right|].
      match goal with |- yields _ (match ?d with _ => _ end) => destruct d end;
        try apply empty_or_truthy_str.
      eapply yields_bind; [apply yields_any | intros texts _].
      apply empty_or_truthy_str.
  - intros text Ht.
    assert (Hlen : exists len, get text (js "length") = Ok len).
    { destruct Ht as [-> | Ht]; [now eexists|].
      destruct text as [|[]]; try discriminate; simpl; eauto. }
    destruct Hlen as [len Hlen]. rewrite Hlen, bind_lift_ok.
    split; [exact Ht | eauto].
Qed.

(** The calls of the Filestack strategy, read off its steps. *)
Lemma processPdfWithFilestack_steps (w : World) (base64Data ocrApiKey : jsstring) :
  (exists e, atob base64Data = Throw e
             /\ snd (processPdfWithFilestack w base64Data ocrApiKey) = [])
  \/ exists binaryString,
       atob base64Data = Ok binaryString
       /\ let bytes := List.map byte_of_unit binaryString in
          let store := EFilestackStore ocrApiKey bytes in
          snd (processPdfWithFilestack w base64Data ocrApiKey) = [store]
          \/ exists code text uploadData fileHandle,
               filestack_store w ocrApiKey bytes = Responded code text
               /\ ok_status code = true
               /\ JSON.parse text = Ok uploadData
               /\ get (Val uploadData) (js "handle") = Ok fileHandle
               /\ snd (processPdfWithFilestack w base64Data ocrApiKey)
                  = [store; EFilestackOcr ocrApiKey (ToString fileHandle)].
Proof.
  unfold processPdfWithFilestack.
  destruct (atob base64Data) as [binaryString|e]; [|left; now exists e].
  right. exists binaryString. split; [reflexivity|]. cbv zeta.
  rewrite bind_lift_ok.
  destruct (filestack_store w ocrApiKey (List.map byte_of_unit binaryString))
    as [reason|code text] eqn:Es; unfold fetch; [now left|].
  rewrite bind_call. cbn [fst snd].
  destruct (ok_status code) eqn:Hok; [|now left].
  cbn [negb when]. rewrite bind_ret.
  destruct (JSON.parse text) as [uploadData|e] eqn:Hp; [|now left].
  rewrite bind_lift_ok.
  destruct (get (Val uploadData) (js "handle")) as [fileHandle|e] eqn:Hh;
    [|now left].
  rewrite bind_lift_ok. right. exists code, text, uploadData, fileHandle.
  repeat (split; [assumption || reflexivity|]).
  f_equal.
  match goal with
  | |- snd (bind _ ?k) = _ =>
      assert (Hq : forall a, snd (k a) = [])
        by (intros a; apply quiet; emits_tac);
      destruct (filestack_ocr w ocrApiKey (ToString fileHandle))
        as [reason|code' text']; [reflexivity|];
      rewrite bind_call; cbn [fst snd]; f_equal; exact (Hq (code', text'))
  end.
Qed.

(** X12. The Filestack strategy makes at most two calls: none when the
    base64 text cannot be decoded, else the upload of the decoded bytes, and
    after it at most the OCR request.  The OCR request is made only once the
    upload was answered with a 2xx status and a JSON body, and it is made
    with the same key for the [handle] of that body, converted to a string. *)
Theorem filestack_ocr_follows_upload (w : World) (base64Data ocrApiKey : jsstring) :
  let calls := snd (processPdfWithFilestack w base64Data ocrApiKey) in
  length calls <= 2
  /\ ((exists e, atob base64Data = Throw e /\ calls = [])
      \/ exists binaryString,
           atob base64Data = Ok binaryString
           /\ let store :=
                EFilestackStore ocrApiKey (List.map byte_of_unit binaryString) in
              calls = [store]
              \/ exists code text uploadData handle,
                   filestack_store w ocrApiKey
                     (List.map byte_of_unit binaryString)
                   = Responded code text
                   /\ ok_status code = true
                   /\ JSON.parse text = Ok uploadData
                   /\ get (Val uploadData) (js "handle") = Ok handle
                   /\ calls = [store;
                               EFilestackOcr ocrApiKey (ToString handle)])
  /\ (forall key fileHandle,
        In (EFilestackOcr key fileHandle) calls ->
        exists binaryString code text uploadData handle,
          atob base64Data = Ok binaryString
          /\ filestack_store w ocrApiKey (List.map byte_of_unit binaryString)
             = Responded code text
          /\ ok_status code = true
          /\ JSON.parse text = Ok uploadData
          /\ get (Val uploadData) (js "handle") = Ok handle
          /\ key = ocrApiKey /\ fileHandle = ToString handle).
Proof.
  cbv zeta.
  pose proof (processPdfWithFilestack_steps w base64Data ocrApiKey) as H.
  cbv zeta in H. split; [|split; [exact H|]].
  - destruct H as [(e & _ & ->)|(binaryString & _ & [->|(code & text & uploadData
                                             & handle & _ & _ & _ & _ & ->)])];
      simpl; lia.
  - intros key fileHandle Hin.
    destruct H as [(e & _ & E)|(binaryString & Ha & [E|(code & text & uploadData
                                             & handle & Hs & Hok & Hp & Hh & E)])];
      rewrite E in Hin.
    + destruct Hin.
    + destruct Hin as [Hin|[]]. discriminate.
    + destruct Hin as [Hin|[Hin|[]]]; [discriminate|].
      injection Hin as <- <-.
      exists binaryString, code, text, uploadData, handle.
      now repeat split.
Qed.

(** The handle is sent as JavaScript prints it: a number in the canonical
    form of its double. *)
Example filestack_numeric_handle :
  snd (processPdfWithFilestack
         {| storage_download := fun _ => Downloaded [];
            filestack_store := fun _ _ => Responded 200 (fixture "{'handle':1e2}");
            filestack_ocr := fun _ _ => Responded 404 [];
            gemini_ocr := fun _ _ _ => Rejected [];
            gateway_parse := fun _ _ => Rejected [] |}
         sample_base64 (js "ocr-key"))
  = [EFilestackStore (js "ocr-key") sample_bytes;
     EFilestackOcr (js "ocr-key") (js "100")].
Proof. vm_compute. reflexivity. Qed.

(** An upload answer without a [handle] does not stop the strategy: the OCR
    request is made for the handle [undefined]. *)
Example filestack_missing_handle :
  snd (processPdfWithFilestack
         {| storage_download := fun _ => Downloaded [];
            filestack_store := fun _ _ => Responded 200 (js "{}");
            filestack_ocr := fun _ _ => Responded 404 [];
            gemini_ocr := fun _ _ _ => Rejected [];
            gateway_parse := fun _ _ => Rejected [] |}
         sample_base64 (js "ocr-key"))
  = [EFilestackStore (js "ocr-key") sample_bytes;
     EFilestackOcr (js "ocr-key") (js "undefined")].
Proof. reflexivity. Qed.

(** ** The exam page: navigation and the Submit button *)

(** X13. On the rendered exam page, whatever the user picks and presses,
    the current question stays one of the questions, answers are recorded
    for indices of questions only, and the number of answered questions never
    exceeds the number of questions. *)
Theorem exam_state_stays_in_range (questions : list Question)
    (s : ExamPage.State) :
  questions <> [] ->
  ExamPage.reachable questions s ->
  ExamPage.currentQuestion s < length questions
  /\ (forall idx a, ExamPage.answers s !! idx = Some a -> idx < length questions)
  /\ ExamPage.answeredCount s <= length questions.
Proof.
  intros Hq Hr. destruct (exam_invariant Hq Hr) as [Hc Hk].
  split; [exact Hc|]. split.
  - intros idx a Ha. apply Hk. now exists a.
  - apply keys_bounded_size, Hk.
Qed.

Lemma exam_state_stays_in_range_witness :
  let q := {| question := js "Q"; options := [js "w"; js "x"];
              correctAnswer := js "A" |} in
  ExamPage.currentQuestion
    (ExamPage.handleNext [q; q] (ExamPage.handleAnswer ExamPage.initial (js "B")))
  < 2.
Proof.
  intros q.
  refine (proj1 (@exam_state_stays_in_range [q; q] _ _ _)); [discriminate|].
  eapply ExamPage.reachable_step;
    [eapply ExamPage.reachable_step; [apply ExamPage.reachable_initial|]|].
  - apply ExamPage.step_answer.
  - apply ExamPage.step_next. simpl. lia.
Defined.

(** X14. The Submit button can be pressed only when every question has a
    recorded answer: it is enabled once [answeredCount] has reached the
    number of questions, and answers are only ever recorded for questions.
    It is pressed on the last question, and hands the recorded answers to
    [handleSubmit]. *)
Theorem submit_needs_every_answer (questions : list Question)
    (s : ExamPage.State) (r : Results) :
  ExamPage.reachable questions s ->
  ExamPage.submit questions s = Some r ->
  questions <> []
  /\ ExamPage.currentQuestion s = length questions - 1
  /\ r = handleSubmit questions (ExamPage.answers s)
  /\ (forall idx, idx < length questions ->
        exists a, ExamPage.answers s !! idx = Some a)
  /\ ExamPage.answeredCount s = length questions.
Proof.
  intros Hr Hs. unfold ExamPage.submit, ExamPage.submit_enabled in Hs.
  destruct (length questions =? 0) eqn:Hz; [discriminate|].
  destruct (ExamPage.currentQuestion s =? length questions - 1) eqn:Hc;
    [|discriminate].
  destruct (ExamPage.answeredCount s <? length questions) eqn:Hn;
    [discriminate|]. simpl in Hs. injection Hs as <-.
  apply Nat.eqb_eq in Hc. apply Nat.ltb_ge in Hn. apply Nat.eqb_neq in Hz.
  assert (Hq : questions <> []) by (intros ->; now apply Hz).
  split; [exact Hq|]. split; [exact Hc|]. split; [reflexivity|].
  destruct (exam_invariant Hq Hr) as [_ Hk].
  split.
  - intros idx Hidx. now apply (keys_full Hk Hn).
  - apply Nat.le_antisymm; [apply keys_bounded_size, Hk | exact Hn].
Qed.

Lemma submit_needs_every_answer_witness :
  let q := {| question := js "Q"; options := [js "w"; js "x"];
              correctAnswer := js "A" |} in
  exists a,
    ExamPage.answers (ExamPage.handleAnswer ExamPage.initial (js "B")) !! 0
    = Some a.
Proof.
  intros q.
  refine (proj1 (proj2 (proj2 (proj2
            (@submit_needs_every_answer [q]
               (ExamPage.handleAnswer ExamPage.initial (js "B")) _ _ _))))
            0 _).
  - eapply ExamPage.reachable_step; [apply ExamPage.reachable_initial|].
    apply ExamPage.step_answer.
  - reflexivity.
  - simpl. lia.
Defined.

(** X15. Picking an option records it for the current question and for that
    question only; picking again replaces the earlier pick, and the number of
    answered questions grows only with the first pick for a question. *)
Theorem handleAnswer_last_pick_wins (s : ExamPage.State) (first pick : jsstring) :
  let s' := ExamPage.handleAnswer s pick in
  ExamPage.currentQuestion s' = ExamPage.currentQuestion s
  /\ ExamPage.answers s' !! ExamPage.currentQuestion s = Some pick
  /\ (forall idx, idx <> ExamPage.currentQuestion s ->
        ExamPage.answers s' !! idx = ExamPage.answers s !! idx)
  /\ ExamPage.handleAnswer (ExamPage.handleAnswer s first) pick = s'
  /\ ExamPage.answeredCount s'
     = match ExamPage.answers s !! ExamPage.currentQuestion s with
       | Some _ => ExamPage.answeredCount s
       | None => S (ExamPage.answeredCount s)
       end.
Proof.
  unfold ExamPage.handleAnswer, ExamPage.answeredCount, Exam.handleAnswer.
  cbn [ExamPage.currentQuestion ExamPage.answers].
  split; [reflexivity|]. split; [apply lookup_insert_eq|].
  split; [intros idx Hidx; now apply lookup_insert_ne|].
  split; [now rewrite insert_insert_eq|].
  rewrite map_size_insert.
  now destruct (ExamPage.answers s !! ExamPage.currentQuestion s).
Qed.

(** X16. Next and Previous undo each other: away from the last question
    Previous after Next is back on the same question, away from the first one
    Next after Previous is, and neither touches the answers. *)
Theorem next_previous_round_trip (questions : list Question)
    (s : ExamPage.State) :
  ExamPage.currentQuestion s < length questions ->
  (ExamPage.currentQuestion s < length questions - 1 ->
   ExamPage.handlePrevious (ExamPage.handleNext questions s) = s)
  /\ (0 < ExamPage.currentQuestion s ->
      ExamPage.handleNext questions (ExamPage.handlePrevious s) = s)
  /\ ExamPage.answers (ExamPage.handleNext questions s) = ExamPage.answers s
  /\ ExamPage.answers (ExamPage.handlePrevious s) = ExamPage.answers s.
Proof.
  destruct s as [c a]. unfold ExamPage.handleNext, ExamPage.handlePrevious.
  cbn [ExamPage.currentQuestion ExamPage.answers]. intros Hc.
  split; [|split; [|split]].
  - intros H. apply Nat.ltb_lt in H as H'. rewrite H'.
    cbn [ExamPage.currentQuestion ExamPage.answers].
    replace (0 <? c + 1) with true by (symmetry; apply Nat.ltb_lt; lia).
    f_equal. lia.
  - intros H. apply Nat.ltb_lt in H as H'. rewrite H'.
    cbn [ExamPage.currentQuestion ExamPage.answers].
    replace (c - 1 <? length questions - 1) with true
      by (symmetry; apply Nat.ltb_lt; lia).
    f_equal. lia.
  - now destruct (c <? length questions - 1).
  - now destruct (0 <? c).
Qed.

Lemma next_previous_round_trip_witness :
  let q := {| question := js "Q"; options := [js "w"; js "x"];
              correctAnswer := js "A" |} in
  ExamPage.handlePrevious (ExamPage.handleNext [q; q] ExamPage.initial)
  = ExamPage.initial.
Proof.
  intros q.
  refine (proj1 (@next_previous_round_trip [q; q] ExamPage.initial _) _);
    simpl; lia.
Defined.

(** ** The results page *)

Lemma incorrect_after_submit (questions : list Question)
    (answers : gmap nat jsstring) :
  length (ResultsPage.incorrect (results (handleSubmit questions answers)))
  + score (handleSubmit questions answers)
  = total (handleSubmit questions answers).
Proof.
  unfold handleSubmit. rewrite grade_all_spec. cbn [results score total].
  unfold ResultsPage.incorrect. rewrite List.filter_map_swap, length_map.
  cbn [isCorrect grade].
  pose proof (List.filter_length (answered_correctly answers)
                (numbered_from 0 questions)) as H.
  unfold answered_correctly in *.
  replace (length questions) with (length (numbered_from 0 questions)).
  - simpl. lia.
  - unfold numbered_from.
    now rewrite length_combine, length_seq, Nat.min_id.
Qed.

(** X17. What the results page shows for a submitted exam follows the score:
    below the score card there is exactly one section, the congratulation
    when [score] is [total] and otherwise the review, which has one card per
    lost point. *)
Theorem results_page_follows_score (questions : list Question)
    (answers : gmap nat jsstring) :
  questions <> [] ->
  let state := handleSubmit questions answers in
  (score state = total state
   /\ ResultsPage.sections state = Some [ResultsPage.PerfectScore])
  \/ (score state < total state
      /\ exists cards,
           ResultsPage.sections state = Some [ResultsPage.ReviewIncorrect cards]
           /\ length cards = total state - score state).
Proof.
  intros Hq state. subst state.
  pose proof (incorrect_after_submit questions answers) as H.
  assert (Hlen : length (results (handleSubmit questions answers))
                 = length questions).
  { unfold handleSubmit. rewrite grade_all_spec. cbn [results].
    unfold numbered_from.
    now rewrite length_map, length_combine, length_seq, Nat.min_id. }
  unfold ResultsPage.sections. rewrite Hlen.
  destruct questions as [|q rest]; [easy|]. cbn [length Nat.eqb].
  destruct (length (ResultsPage.incorrect
                      (results (handleSubmit (q :: rest) answers))))
    as [|k] eqn:E.
  - left. split; [lia | reflexivity].
  - right. split; [lia|]. cbn [Nat.ltb Nat.leb Nat.eqb app].
    eexists. split; [reflexivity|]. rewrite length_map, E. lia.
Qed.

Lemma results_page_follows_score_witness :
  let q := {| question := js "Q"; options := [js "w"; js "x"];
              correctAnswer := js "A" |} in
  ResultsPage.sections (handleSubmit [q] (<[0 := js "A"]> ∅))
  = Some [ResultsPage.PerfectScore].
Proof.
  intros q.
  destruct (@results_page_follows_score [q] (<[0 := js "A"]> ∅))
    as [[_ H]|[H _]]; [discriminate | exact H |].
  exfalso. revert H. vm_compute. lia.
Defined.

Lemma letter_is_one (i j : nat) (s : jsstring) :
  ResultsPage.letter_is i s = true -> ResultsPage.letter_is j s = true -> i = j.
Proof.
  unfold ResultsPage.letter_is. intros Hi Hj.
  destruct (nth_error ResultsPage.options i) as [a|] eqn:Ei; [|discriminate].
  destruct (nth_error ResultsPage.options j) as [b|] eqn:Ej; [|discriminate].
  apply eqb_eq in Hi, Hj. subst a b.
  assert (Hnd : List.NoDup ResultsPage.options).
  { unfold ResultsPage.options.
    repeat (constructor; [simpl; intuition discriminate|]). constructor. }
  apply (proj1 (List.NoDup_nth_error ResultsPage.options) Hnd).
  - apply nth_error_Some. congruence.
  - congruence.
Qed.

(** X18. On a review card at most one option is marked "Correct Answer" and
    at most one "Your Answer", no option carries both marks, the frame of an
    option follows its mark, and an option after the fourth has neither. *)
Theorem review_card_marks (result : ResultItem) (i j : nat) :
  let view := ResultsPage.option_view result in
  (ResultsPage.correct_label (view i) = true ->
   ResultsPage.correct_label (view j) = true -> i = j)
  /\ (ResultsPage.your_label (view i) = true ->
      ResultsPage.your_label (view j) = true -> i = j)
  /\ (ResultsPage.correct_label (view i) && ResultsPage.your_label (view i)
      = false)
  /\ (ResultsPage.frame (view i) = ResultsPage.CorrectFrame
      <-> ResultsPage.correct_label (view i) = true)
  /\ (ResultsPage.frame (view i) = ResultsPage.UserFrame
      <-> ResultsPage.your_label (view i) = true)
  /\ (4 <= i -> view i = {| ResultsPage.frame := ResultsPage.PlainFrame;
                            ResultsPage.correct_label := false;
                            ResultsPage.your_label := false |}).
Proof.
  unfold ResultsPage.option_view.
  cbn [ResultsPage.correct_label ResultsPage.your_label ResultsPage.frame].
  split; [apply letter_is_one|]. split.
  { intros Hi Hj. apply andb_true_iff in Hi as [Hi _], Hj as [Hj _].
    exact (letter_is_one Hi Hj). }
  split.
  { now destruct (ResultsPage.letter_is i (r_correctAnswer result)),
                 (ResultsPage.letter_is i (userAnswer result)). }
  split.
  { destruct (ResultsPage.letter_is i (r_correctAnswer result)),
             (ResultsPage.letter_is i (userAnswer result)); easy. }
  split.
  { destruct (ResultsPage.letter_is i (r_correctAnswer result)),
             (ResultsPage.letter_is i (userAnswer result)); easy. }
  intros Hi.
  assert (E : forall s, ResultsPage.letter_is i s = false).
  { intros s. unfold ResultsPage.letter_is.
    destruct (nth_error ResultsPage.options i) eqn:En; [|reflexivity].
    assert (i < 4); [|lia].
    change 4 with (length ResultsPage.options).
    apply nth_error_Some. congruence. }
  now rewrite !E.
Qed.

Lemma review_card_marks_witness :
  ResultsPage.option_view
    {| r_question := js "Q"; r_options := [js "v"; js "w"; js "x"; js "y"; js "z"];
       userAnswer := js "A"; r_correctAnswer := js "B"; isCorrect := false |} 4
  = {| ResultsPage.frame := ResultsPage.PlainFrame;
       ResultsPage.correct_label := false;
       ResultsPage.your_label := false |}.
Proof.
  refine (proj2 (proj2 (proj2 (proj2 (proj2
            (@review_card_marks _ 4 0))))) _). lia.
Defined.

(** ** The upload page *)

Lemma failed_gives_up (reason : jsstring) : gives_up (failed reason).
Proof.
  exists [ConsoleError reason]. do 2 eexists. split; [reflexivity|].
  constructor; [now exists reason | constructor].
Qed.

Lemma no_questions_gives_up : gives_up no_questions.
Proof. exists []. do 2 eexists. split; [reflexivity | constructor]. Qed.

Lemma after_invoke_cases (r : InvokeResult) :
  (exists data questions len,
     r = InvokeData data
     /\ get data (js "questions") = Ok questions
     /\ truthy questions = true
     /\ get questions (js "length") = Ok len
     /\ is_zero len = false
     /\ after_invoke r = [Navigate (js "/exam") questions])
  \/ gives_up (after_invoke r).
Proof.
  destruct r as [reason|data]; [right; apply failed_gives_up|].
  unfold after_invoke.
  destruct (get data (js "questions")) as [questions|e] eqn:Eq;
    [|right; apply failed_gives_up].
  destruct (truthy questions) eqn:Et; [|right; apply no_questions_gives_up].
  cbn [negb].
  destruct (get questions (js "length")) as [len|e] eqn:El;
    [|right; apply failed_gives_up].
  destruct (is_zero len) eqn:Ez; [right; apply no_questions_gives_up|].
  left. now exists data, questions, len.
Qed.

(** X19. [processFile] does nothing without a file.  With one it raises the
    upload flag and then either goes to [/exam], with the truthy [questions]
    of non-zero [length] the edge function answered with after a successful
    upload, or shows exactly one destructive toast and lowers the flag again.
    It never does both, and it never leaves the flag raised on the page. *)
Theorem processFile_navigates_or_gives_up (b : Browser) (f : File) :
  processFile b None = []
  /\ ((exists data questions len,
         storage_upload b (storage_key b f) f = None
         /\ functions_invoke b (storage_key b f) = InvokeData data
         /\ get data (js "questions") = Ok questions
         /\ truthy questions = true
         /\ get questions (js "length") = Ok len
         /\ is_zero len = false
         /\ processFile b (Some f)
            = [SetIsUploading true; Navigate (js "/exam") questions])
      \/ (exists rest,
            processFile b (Some f) = SetIsUploading true :: rest
            /\ gives_up rest)).
Proof.
  split; [reflexivity|]. unfold processFile, storage_key. cbv zeta.
  destruct (storage_upload b _ f) as [uploadError|] eqn:Eu.
  - right. eexists. split; [reflexivity | apply failed_gives_up].
  - destruct (after_invoke_cases
                (functions_invoke b (decimal (now b) ++ js "." ++ fileExt_of (name f))))
      as [(data & questions & len & Er & Eq & Et & El & Ez & Ea)|Hg].
    + left. exists data, questions, len. rewrite Ea. now repeat split.
    + right. eexists. split; [reflexivity | exact Hg].
Qed.









(** ** The storage key and the type of the file *)

Lemma last_segment_rev_no_dot (r : jsstring) : ~ In (ch ".") (last_segment_rev r).
Proof.
  induction r as [|c r IH]; simpl; [easy|].
  destruct (N.eqb_spec c (ch ".")); simpl; [easy|].
  intros [H|H]; [congruence | now apply IH].
Qed.

Lemma last_segment_rev_split (r : jsstring) :
  In (ch ".") r -> exists rest, r = last_segment_rev r ++ ch "." :: rest.
Proof.
  induction r as [|c r IH]; simpl; [easy|].
  destruct (N.eqb_spec c (ch ".")) as [->|Hc].
  - intros _. now exists r.
  - intros [H|H]; [congruence|].
    destruct (IH H) as [rest E]. exists rest. simpl. now rewrite <- E.
Qed.

Lemma fileExt_of_no_dot (name : jsstring) : ~ In (ch ".") (fileExt_of name).
Proof.
  unfold fileExt_of. rewrite <- in_rev. apply last_segment_rev_no_dot.
Qed.

Lemma fileExt_of_split (name : jsstring) :
  In (ch ".") name -> exists stem, name = stem ++ ch "." :: fileExt_of name.
Proof.
  intros H. apply in_rev in H.
  destruct (last_segment_rev_split H) as [rest E].
  exists (rev rest). unfold fileExt_of.
  remember (last_segment_rev (rev name)) as ext.
  apply (f_equal (@rev N)) in E. rewrite rev_involutive in E.
  rewrite E at 1. rewrite rev_app_distr. simpl. now rewrite <- app_assoc.
Qed.

Lemma first_split_unique (d : N) (a b x y : jsstring) :
  ~ In d a -> ~ In d b -> a ++ d :: x = b ++ d :: y -> a = b.
Proof.
  revert b. induction a as [|c a IH]; intros [|c' b] Ha Hb E; simpl in *.
  - reflexivity.
  - injection E as <- _. tauto.
  - injection E as -> _. tauto.
  - injection E as -> E. f_equal. apply (IH b); tauto.
Qed.

Lemma last_split_unique (d : N) (a b x y : jsstring) :
  ~ In d a -> ~ In d b -> x ++ d :: a = y ++ d :: b -> a = b.
Proof.
  intros Ha Hb E. apply (f_equal (@rev N)) in E.
  rewrite !rev_app_distr in E. simpl in E. rewrite <- !app_assoc in E.
  simpl in E. apply first_split_unique in E.
  - rewrite <- (rev_involutive a), <- (rev_involutive b). now f_equal.
  - now rewrite <- in_rev.
  - now rewrite <- in_rev.
Qed.

Lemma toLowerCase_no_dot (s : jsstring) :
  ~ In (ch ".") s -> ~ In (ch ".") (toLowerCase s).
Proof.
  intros H Hin. apply H. unfold toLowerCase in Hin.
  apply in_map_iff in Hin as (c & Hc & Hin).
  replace (ch ".") with c; [exact Hin|].
  unfold lower_unit in Hc. change (ch ".") with 46%N in *.
  destruct ((65 <=? c)%N && (c <=? 90)%N) eqn:E; [|exact Hc].
  apply andb_true_iff in E as [E1 E2].
  apply N.leb_le in E1, E2. lia.
Qed.

(** The suffix tests of the handler look at what follows the last dot. *)
Lemma endsWith_by_extension (stem ext e : jsstring) :
  ~ In (ch ".") ext -> ~ In (ch ".") e ->
  endsWith (toLowerCase (stem ++ ch "." :: ext)) (ch "." :: e)
  = JsString.eqb (toLowerCase ext) e.
Proof.
  intros Hext He. apply eq_true_iff_eq.
  rewrite endsWith_suffix, eqb_eq.
  unfold toLowerCase. rewrite map_app. simpl.
  change (lower_unit (ch ".")) with (ch ".").
  apply toLowerCase_no_dot in Hext. unfold toLowerCase in Hext.
  split.
  - intros [pre E]. exact (last_split_unique Hext He E).
  - intros <-. now exists (List.map lower_unit stem).
Qed.

Lemma mimeType_by_extension (stem ext : jsstring) :
  ~ In (ch ".") ext ->
  mimeType_of (stem ++ ch "." :: ext)
  = (if JsString.eqb (toLowerCase ext) (js "pdf") then js "application/pdf"
     else if JsString.eqb (toLowerCase ext) (js "jpg")
             || JsString.eqb (toLowerCase ext) (js "jpeg")
          then js "image/jpeg" else js "image/png")
  /\ is_pdf (stem ++ ch "." :: ext) = JsString.eqb (toLowerCase ext) (js "pdf").
Proof.
  intros Hext. unfold mimeType_of, is_pdf.
  change (js ".pdf") with (ch "." :: js "pdf").
  change (js ".jpg") with (ch "." :: js "jpg").
  change (js ".jpeg") with (ch "." :: js "jpeg").
  rewrite !(endsWith_by_extension stem Hext);
    try (intros H; simpl in H; intuition discriminate).
  now split.
Qed.

(** X21. The page stores the file under the time and the extension of its
    name, and the handler decides the MIME kind and the OCR strategy from
    that key: for a file whose name has a dot, both are what the name itself
    would have given. *)
Theorem storage_key_keeps_the_kind (b : Browser) (f : File) :
  In (ch ".") (name f) ->
  mimeType_of (storage_key b f) = mimeType_of (name f)
  /\ is_pdf (storage_key b f) = is_pdf (name f).
Proof.
  intros Hdot. destruct (fileExt_of_split Hdot) as [stem E].
  pose proof (@fileExt_of_no_dot (name f)) as Hext.
  assert (Ek : storage_key b f
               = decimal (now b) ++ ch "." :: fileExt_of (name f))
    by reflexivity.
  rewrite Ek.
  destruct (mimeType_by_extension (decimal (now b)) Hext) as [-> ->].
  destruct (mimeType_by_extension stem Hext) as [Hm Hp].
  rewrite <- E in Hm, Hp. now rewrite Hm, Hp.
Qed.

Lemma storage_key_keeps_the_kind_witness :
  let b := {| now := 1700000000000; storage_upload := fun _ _ => None;
              functions_invoke := fun _ => InvokeError [] |} in
  let f := {| name := js "Final Exam.v2.PDF"; type := js "application/pdf";
              size := 1024 |} in
  is_pdf (storage_key b f) = is_pdf (js "Final Exam.v2.PDF").
Proof.
  intros b f0.
  refine (proj2 (@storage_key_keeps_the_kind b f0 _)).
  vm_compute. do 10 right. left. reflexivity.
Defined.

(** Without a dot the whole name becomes the extension of the key. *)
Example storage_key_without_dot :
  let b := {| now := 17; storage_upload := fun _ _ => None;
              functions_invoke := fun _ => InvokeError [] |} in
  let f := {| name := js "pdf"; type := js "image/png"; size := 1 |} in
  storage_key b f = js "17.pdf"
  /\ is_pdf (storage_key b f) = true
  /\ is_pdf (name f) = false.
Proof. repeat split. Qed.

(** ** The single-stage handler *)

(** How far the single-stage handler gets, and what it has called and
    answers there. *)
Lemma direct_serve_cases (dw : Direct.World) (env : Env) (req : Request) :
  JsString.eqb (method req) (js "OPTIONS") = false ->
  (exists st msg,
     In st [400; 500]%Z
     /\ (Direct.serve dw env req = (error_response st msg, [])
         \/ exists filePath,
              Direct.serve dw env req
              = (error_response st msg, [Direct.CDownload filePath])))
  \/ exists path fileData key,
       body_filePath req (str path)
       /\ path <> []
       /\ Direct.storage_download dw (str path) = Downloaded fileData
       /\ LOVABLE_API_KEY env = Some key
       /\ key <> []
       /\ let mimeType := mimeType_of path in
          let base64 := encode (fromCharCode fileData) in
          Direct.serve dw env req
          = (parse_answer (Direct.gateway_extract dw key mimeType base64),
             [Direct.CDownload (str path);
              Direct.CExtract key mimeType base64]).
Proof.
  intros Hm. unfold Direct.serve. rewrite Hm. unfold Direct.serve_try.
  destruct (JSON.parse (req_body req)) as [parsed|e] eqn:Hp;
    [|left; exists 500%Z; eexists; split; [simpl; tauto | now left]].
  destruct (get (Val parsed) (js "filePath")) as [filePath|e] eqn:Hg;
    [|left; exists 500%Z; eexists; split; [simpl; tauto | now left]].
  destruct (truthy filePath) eqn:Ht; cbn [negb];
    [|left; exists 400%Z; eexists; split; [simpl; tauto | now left]].
  destruct (Direct.storage_download dw filePath) as [reason|fileData] eqn:Hd;
    [left; exists 500%Z; eexists; split; [simpl; tauto | right; now eexists]|].
  unfold chunked_base64. rewrite chunked_base64_value.
  destruct (string_receiver filePath) as [path|e] eqn:Hs;
    [|left; exists 500%Z; eexists; split; [simpl; tauto | right; now eexists]].
  apply string_receiver_str in Hs. subst filePath.
  destruct (LOVABLE_API_KEY env) as [key|] eqn:Hk;
    [|left; exists 500%Z; eexists; split; [simpl; tauto | right; now eexists]].
  destruct (truthy (str key)) eqn:Htk; cbn [negb];
    [|left; exists 500%Z; eexists; split; [simpl; tauto | right; now eexists]].
  right. exists path, fileData, key.
  split; [now exists parsed|]. split; [now apply truthy_str_inv|].
  split; [exact Hd|]. split; [reflexivity|].
  split; [now apply truthy_str_inv|]. cbv zeta.
  destruct (Direct.gateway_extract dw key (mimeType_of path)
              (encode (fromCharCode fileData))) as [reason|code text];
    [reflexivity|].
  rewrite after_gateway_structuring. unfold parse_answer, finish.
  now destruct (fst (structuring_answer (code, text))).
Qed.

Lemma parse_answer_standard (r : FetchResult) : standard_answer (parse_answer r).
Proof.
  destruct r as [reason|code text]; simpl.
  - left. exists 500%Z, reason. split; [reflexivity | simpl; tauto].
  - apply structuring_answer_standard.
Qed.

(** X22. The single-stage handler answers as the two-stage one does: the
    preflight answer, an error body with status 400, 402, 429 or 500, or a
    questions array with status 200.  It makes at most two calls, the storage
    download and then the one gateway call. *)
Theorem direct_serve_answers (dw : Direct.World) (env : Env) (req : Request) :
  let r := fst (Direct.serve dw env req) in
  let calls := snd (Direct.serve dw env req) in
  ((JsString.eqb (method req) (js "OPTIONS") = true
    /\ r = preflight_response /\ calls = [])
   \/ (JsString.eqb (method req) (js "OPTIONS") = false
       /\ standard_answer r /\ headers r = json_headers))
  /\ In (status r) [200; 400; 402; 429; 500]%Z
  /\ (calls = []
      \/ (exists filePath, calls = [Direct.CDownload filePath])
      \/ (exists filePath key mimeType base64,
            calls = [Direct.CDownload filePath;
                     Direct.CExtract key mimeType base64])).
Proof.
  cbv zeta.
  destruct (JsString.eqb (method req) (js "OPTIONS")) eqn:Hm.
  - unfold Direct.serve. rewrite Hm. cbn [fst snd].
    split; [left; now repeat split|]. split; [simpl; tauto | now left].
  - assert (Hs : standard_answer (fst (Direct.serve dw env req))
                 /\ (snd (Direct.serve dw env req) = []
                     \/ (exists filePath,
                           snd (Direct.serve dw env req)
                           = [Direct.CDownload filePath])
                     \/ (exists filePath key mimeType base64,
                           snd (Direct.serve dw env req)
                           = [Direct.CDownload filePath;
                              Direct.CExtract key mimeType base64]))).
    { destruct (direct_serve_cases dw env Hm)
        as [(st & msg & Hst & [E|[filePath E]])
           |(path & fileData & key & _ & _ & _ & _ & _ & E)];
        cbv zeta in E; rewrite E; cbn [fst snd].
      - split; [|now left]. left. exists st, msg. split; [reflexivity|].
        simpl in *. tauto.
      - split; [|right; left; now exists filePath]. left. exists st, msg.
        split; [reflexivity|]. simpl in *. tauto.
      - split; [apply parse_answer_standard|]. right. right.
        now do 4 eexists. }
    destruct Hs as [Hs Hc].
    destruct (standard_answer_headers Hs) as [Hh Hst].
    split; [right; now repeat split|]. split; [exact Hst | exact Hc].
Qed.

(** X23. When the single-stage handler calls the gateway, the request named
    a stored file by a non-empty string and the credential is configured; the
    gateway is sent the base64 text of the downloaded bytes under the MIME
    kind of the key, it is called after the download and once, and the answer
    of the handler is decided by what the gateway resolves to. *)
Theorem direct_extract_call (dw : Direct.World) (env : Env) (req : Request)
    (key mimeType base64 : jsstring) :
  In (Direct.CExtract key mimeType base64) (snd (Direct.serve dw env req)) ->
  exists path fileData,
    body_filePath req (str path)
    /\ path <> []
    /\ Direct.storage_download dw (str path) = Downloaded fileData
    /\ LOVABLE_API_KEY env = Some key
    /\ mimeType = mimeType_of path
    /\ base64 = encode (fromCharCode fileData)
    /\ snd (Direct.serve dw env req)
       = [Direct.CDownload (str path); Direct.CExtract key mimeType base64]
    /\ fst (Direct.serve dw env req)
       = parse_answer (Direct.gateway_extract dw key mimeType base64).
Proof.
  intros Hin.
  destruct (JsString.eqb (method req) (js "OPTIONS")) eqn:Hm.
  { unfold Direct.serve in Hin. rewrite Hm in Hin. destruct Hin. }
  destruct (direct_serve_cases dw env Hm)
    as [(st & msg & Hst & [E|[filePath E]])
       |(path & fileData & k & Hb & Hp & Hd & Hk & _ & E)];
    cbv zeta in E; rewrite E in *; cbn [fst snd] in *.
  - destruct Hin.
  - destruct Hin as [Hin|[]]. discriminate.
  - destruct Hin as [Hin|[Hin|[]]]; [discriminate|].
    injection Hin as -> <- <-.
    exists path, fileData. now repeat split.
Qed.

Lemma direct_extract_call_witness :
  fst (Direct.serve (direct_world (Responded 429 [])) gateway_only
         (post (fixture "{'filePath':'exam.pdf'}")))
  = parse_answer (Responded 429 []).
Proof.
  destruct (@direct_extract_call (direct_world (Responded 429 [])) gateway_only
              (post (fixture "{'filePath':'exam.pdf'}"))
              (js "lov-key") (js "application/pdf") sample_base64)
    as (path & fileData & _ & _ & _ & _ & _ & _ & _ & E).
  - vm_compute. right. left. reflexivity.
  - exact E.
Defined.

(** X24. For the same gateway answer both handlers answer the same: what
    follows the structuring call of the two-stage handler is what follows the
    one call of the single-stage handler. *)
Theorem variants_agree_on_gateway_answer (w : World) (dw : Direct.World)
    (env env' : Env) (req req' : Request)
    (key text key' mimeType base64 : jsstring) :
  In (EParse key text) (snd (serve w env req)) ->
  In (Direct.CExtract key' mimeType base64) (snd (Direct.serve dw env' req')) ->
  gateway_parse w key text = Direct.gateway_extract dw key' mimeType base64 ->
  fst (serve w env req) = fst (Direct.serve dw env' req').
Proof.
  intros Hp Hx Hsame.
  destruct (serve_parse_call Hp) as [-> _].
  destruct (JsString.eqb (method req') (js "OPTIONS")) eqn:Hm.
  { unfold Direct.serve in Hx. rewrite Hm in Hx. destruct Hx. }
  destruct (direct_serve_cases dw env' Hm)
    as [(st & msg & Hst & [E|[filePath E]])
       |(path & fileData & k & _ & _ & _ & _ & _ & E)];
    cbv zeta in E; rewrite E in *; cbn [fst snd] in *.
  - destruct Hx.
  - destruct Hx as [Hx|[]]. discriminate.
  - destruct Hx as [Hx|[Hx|[]]]; [discriminate|].
    injection Hx as -> <- <-. now rewrite Hsame.
Qed.

Lemma variants_agree_on_gateway_answer_witness :
  fst (serve (sample_world (Responded 402 [])) both_keys
         (post (fixture "{'filePath':'exam.pdf'}")))
  = fst (Direct.serve (direct_world (Responded 402 [])) gateway_only
           (post (fixture "{'filePath':'scan.png'}"))).
Proof.
  apply (@variants_agree_on_gateway_answer
           (sample_world (Responded 402 [])) (direct_world (Responded 402 []))
           both_keys gateway_only
           (post (fixture "{'filePath':'exam.pdf'}"))
           (post (fixture "{'filePath':'scan.png'}"))
           (js "lov-key") sample_ocr_text
           (js "lov-key") (js "image/png") sample_base64).
  - vm_compute. do 3 right. left. reflexivity.
  - vm_compute. right. left. reflexivity.
  - reflexivity.
Defined.

Lemma try_catch_calls {A} (m : M A) (h : Exn -> M A) :
  exists more, snd (try_catch m h) = snd m ++ more.
Proof.
  destruct m as [[a|e|r] calls]; simpl.
  - exists []. now rewrite app_nil_r.
  - destruct (h e) as [o calls']. now exists calls'.
  - exists []. now rewrite app_nil_r.
Qed.

(** The OCR step always calls a provider. *)
Lemma ocr_step_calls_a_provider (w : World) (isPdf : bool)
    (ocrApiKey : option jsstring) (fileData : list byte)
    (mimeType key : jsstring) :
  exists e more,
    snd (ocr_step w isPdf ocrApiKey (encode (fromCharCode fileData)) mimeType key)
    = e :: more
    /\ 1 <= call_rank e.
Proof.
  assert (G : exists e more,
             snd (extractWithGemini w (encode (fromCharCode fileData)) mimeType key)
             = e :: more /\ 1 <= call_rank e).
  { rewrite extractWithGemini_calls. do 2 eexists. split; [reflexivity|].
    simpl. lia. }
  unfold ocr_step. destruct ocrApiKey as [ocrKey|]; [|exact G].
  destruct (isPdf && truthy (str ocrKey)); [|exact G].
  match goal with
  | |- context [try_catch ?m ?h] =>
      destruct (try_catch_calls m h) as [more ->]
  end.
  destruct (processPdfWithFilestack_first_call w fileData ocrKey) as [more' ->].
  do 2 eexists. split; [reflexivity|]. simpl. lia.
Qed.

(** Up to the OCR step the two handlers are the same program. *)
Lemma variants_until_loaded (w : World) (dw : Direct.World) (env : Env)
    (req : Request) :
  (forall filePath,
     Direct.storage_download dw filePath = storage_download w filePath) ->
  JsString.eqb (method req) (js "OPTIONS") = false ->
  (exists path fileData key, document_loaded w env req path fileData key)
  \/ (fst (Direct.serve dw env req) = fst (serve w env req)
      /\ List.Forall (fun c => exists filePath, c = Direct.CDownload filePath)
           (snd (Direct.serve dw env req))).
Proof.
  intros Hsame Hm. rewrite (serve_finish w env Hm).
  unfold Direct.serve. rewrite Hm.
  unfold Direct.serve_try, serve_try, finish. cbn [fst].
  destruct (JSON.parse (req_body req)) as [parsed|e] eqn:Hp;
    [|right; split; [reflexivity | constructor]].
  rewrite bind_lift_ok.
  destruct (get (Val parsed) (js "filePath")) as [filePath|e] eqn:Hg;
    [|right; split; [reflexivity | constructor]].
  rewrite bind_lift_ok.
  destruct (truthy filePath) eqn:Ht; cbn [negb when];
    [|right; split; [reflexivity | constructor]].
  rewrite bind_ret, bind_call. cbn [fst snd]. rewrite Hsame.
  destruct (storage_download w filePath) as [reason|fileData] eqn:Hd.
  { right. split; [reflexivity|].
    constructor; [now eexists | constructor]. }
  rewrite bind_ret. unfold chunked_base64. rewrite chunked_base64_value.
  rewrite bind_lift_ok.
  destruct (string_receiver filePath) as [path|e] eqn:Hs.
  2:{ right. split; [reflexivity|].
      constructor; [now eexists | constructor]. }
  rewrite bind_lift_ok. cbv zeta.
  apply string_receiver_str in Hs. subst filePath.
  destruct (LOVABLE_API_KEY env) as [key|] eqn:Hk.
  2:{ right. split; [reflexivity|].
      constructor; [now eexists | constructor]. }
  destruct (truthy (str key)) eqn:Htk; cbn [negb].
  2:{ right. split; [reflexivity|].
      constructor; [now eexists | constructor]. }
  left. exists path, fileData, key.
  split; [exact Hm|]. split; [now exists parsed|].
  split; [now apply truthy_str_inv|]. split; [exact Hd|].
  split; [exact Hk | now apply truthy_str_inv].
Qed.

(** X25. An invocation in which the two-stage handler calls no provider is
    answered by the single-stage handler, over the same storage, in the same
    way, and without a call to the gateway: the two differ only from the OCR
    step on. *)
Theorem variants_agree_before_the_providers (w : World) (dw : Direct.World)
    (env : Env) (req : Request) :
  (forall filePath,
     Direct.storage_download dw filePath = storage_download w filePath) ->
  List.Forall storage_call (snd (serve w env req)) ->
  fst (Direct.serve dw env req) = fst (serve w env req)
  /\ forall key mimeType base64,
       ~ In (Direct.CExtract key mimeType base64)
            (snd (Direct.serve dw env req)).
Proof.
  intros Hsame Hcalls.
  destruct (JsString.eqb (method req) (js "OPTIONS")) eqn:Hm.
  { unfold Direct.serve, serve. rewrite Hm. split; [reflexivity | easy]. }
  destruct (@variants_until_loaded w dw env req Hsame Hm)
    as [(path & fileData & key & Hdoc)|[E Hd]].
  - exfalso. rewrite (serve_loaded Hdoc) in Hcalls. cbn [snd] in Hcalls.
    destruct (ocr_step_calls_a_provider w (is_pdf path) (OCR_API_KEY env)
                fileData (mimeType_of path) key) as (e & more & Es & He).
    rewrite Es in Hcalls. simpl in Hcalls.
    apply Forall_inv_tail, Forall_inv in Hcalls.
    unfold storage_call in Hcalls. lia.
  - split; [exact E|]. intros key mimeType base64 Hin.
    rewrite List.Forall_forall in Hd. destruct (Hd _ Hin) as [fp Hfp].
    discriminate.
Qed.

Lemma variants_agree_before_the_providers_witness :
  fst (Direct.serve (direct_world (Responded 200 [])) no_keys
         (post (fixture "{'filePath':'exam.pdf'}")))
  = fst (serve (sample_world (Responded 200 [])) no_keys
           (post (fixture "{'filePath':'exam.pdf'}"))).
Proof.
  refine (proj1 (@variants_agree_before_the_providers
                   (sample_world (Responded 200 []))
                   (direct_world (Responded 200 [])) no_keys
                   (post (fixture "{'filePath':'exam.pdf'}")) _ _)).
  - reflexivity.
  - vm_compute. repeat constructor.
Defined.
